(** * ralph-tui: the Codex adapter, the process runner, sandbox detection
      and the parallel Worker, embedded and verified.

    Part I holds the embedding (definitions translated from the TypeScript
    sources), Part II the lemmas and the theorems of the specification. *)

From Stdlib Require Import String Ascii List Bool Arith ZArith Lia Floats.
From Stdlib Require Import Uint63 DecimalString Sorted Permutation.
Import ListNotations.

Set Warnings "-register-all".
Open Scope string_scope.
Open Scope list_scope.

(* ===================================================================== *)
(** * Part I.  The embedding                                              *)
(* ===================================================================== *)

(** ** JavaScript values, completions and the string primitives used *)

Module JS.

(** What a JavaScript call can throw. *)
Inductive exn :=
| TypeError
| SyntaxError
| RangeError
| Error (message : string).

(** The outcome of evaluating a piece of code: a value, or a throw. *)
Inductive completion (A : Type) :=
| Normal (a : A)
| Throw (e : exn).
Arguments Normal {A} a.
Arguments Throw {A} e.

Definition bind {A B} (c : completion A) (k : A -> completion B) : completion B :=
  match c with
  | Normal a => k a
  | Throw e => Throw e
  end.

(** [try { c } catch { h }] *)
Definition try_catch {A} (c : completion A) (h : exn -> completion A) : completion A :=
  match c with
  | Normal a => Normal a
  | Throw e => h e
  end.

(** [error instanceof Error ? error.message : String(error)] for the errors
    modelled here. *)
Definition exn_message (e : exn) : string :=
  match e with
  | TypeError => "TypeError"
  | SyntaxError => "SyntaxError"
  | RangeError => "RangeError"
  | Error m => m
  end.

(** A value as [JSON.parse] builds it, plus [undefined], which property reads
    produce.  Numbers are IEEE doubles; an object keeps its own properties in
    insertion order, one entry per key. *)
Inductive value :=
| VUndefined
| VNull
| VBool (b : bool)
| VNum (n : float)
| VStr (s : string)
| VArr (elems : list value)
| VObj (props : list (string * value)).

(** ToBoolean. *)
Definition truthy (v : value) : bool :=
  match v with
  | VUndefined | VNull => false
  | VBool b => b
  | VNum n => negb (PrimFloat.eqb n 0%float) && PrimFloat.eqb n n
  | VStr s => negb (String.eqb s "")
  | VArr _ | VObj _ => true
  end.

Fixpoint lookup (k : string) (props : list (string * value)) : value :=
  match props with
  | [] => VUndefined
  | (k', v) :: rest => if String.eqb k k' then v else lookup k rest
  end.

(** [v.k] for the property names the adapter reads ([type], [message],
    [role], [content], [text], [name], [function], [input], [arguments],
    [function_call], [is_error], [error]): none of them is defined on the
    prototypes of strings, numbers, booleans or arrays, so only an object's
    own properties answer; reading from [null] or [undefined] throws. *)
Definition get (v : value) (k : string) : completion value :=
  match v with
  | VUndefined | VNull => Throw TypeError
  | VObj props => Normal (lookup k props)
  | VBool _ | VNum _ | VStr _ | VArr _ => Normal VUndefined
  end.

(** [v?.k] *)
Definition opt_get (v : value) (k : string) : completion value :=
  match v with
  | VUndefined | VNull => Normal VUndefined
  | _ => get v k
  end.

(** [v === 'lit'] *)
Definition is_str (v : value) (lit : string) : bool :=
  match v with
  | VStr s => String.eqb s lit
  | _ => false
  end.

(** [v === true] *)
Definition is_true (v : value) : bool :=
  match v with
  | VBool true => true
  | _ => false
  end.

(** [v !== undefined] *)
Definition is_defined (v : value) : bool :=
  match v with
  | VUndefined => false
  | _ => true
  end.

(** [a || b], with [b] evaluated only when [a] is falsy. *)
Definition or_else (a : completion value) (b : completion value) : completion value :=
  bind a (fun x => if truthy x then Normal x else b).

(** Strings are sequences of code units; the model keeps the code units
    below 256. *)

Definition newline : ascii := "010"%char.

(** [s.split(sep)] for a one-character separator: never empty. *)
Fixpoint split (sep : ascii) (s : string) : list string :=
  match s with
  | EmptyString => [EmptyString]
  | String c rest =>
      if Ascii.eqb c sep then EmptyString :: split sep rest
      else match split sep rest with
           | [] => [String c EmptyString]
           | l :: ls => String c l :: ls
           end
  end.

(** [lines.join(sep)] *)
Fixpoint join (sep : ascii) (ls : list string) : string :=
  match ls with
  | [] => EmptyString
  | [l] => l
  | l :: rest => l ++ String sep (join sep rest)
  end.

(** A string free of the separator: it splits into itself. *)
Definition unsplit (sep : ascii) (l : string) : Prop := split sep l = [l].

(** [s.endsWith(c)] for one character. *)
Fixpoint endsWith (s : string) (c : ascii) : bool :=
  match s with
  | EmptyString => false
  | String a EmptyString => Ascii.eqb a c
  | String _ rest => endsWith rest c
  end.

(** [s.startsWith(c)] for one character. *)
Definition startsWith (s : string) (c : ascii) : bool :=
  match s with
  | EmptyString => false
  | String a _ => Ascii.eqb a c
  end.

(** White space and line terminators among the code units below 256:
    TAB, LF, VT, FF, CR, SP and NBSP. *)
Definition is_space (c : ascii) : bool :=
  let n := nat_of_ascii c in
  ((9 <=? n)%nat && (n <=? 13)%nat) || (n =? 32)%nat || (n =? 160)%nat.

Fixpoint trimStart (s : string) : string :=
  match s with
  | EmptyString => EmptyString
  | String c rest => if is_space c then trimStart rest else s
  end.

Fixpoint trimEnd (s : string) : string :=
  match s with
  | EmptyString => EmptyString
  | String c rest =>
      match trimEnd rest with
      | EmptyString => if is_space c then EmptyString else String c EmptyString
      | r => String c r
      end
  end.

(** [s.trim()] *)
Definition trim (s : string) : string := trimEnd (trimStart s).

(** [hay.includes(needle)] *)
Fixpoint includes (hay needle : string) : bool :=
  String.prefix needle hay ||
  match hay with
  | EmptyString => false
  | String _ rest => includes rest needle
  end.

(** [lines.pop()]: the last element (or [undefined], here [None]) and the
    array left. *)
Definition pop {A} (l : list A) : option A * list A :=
  match rev l with
  | [] => (None, [])
  | x :: r => (Some x, rev r)
  end.

(** The built-ins the adapter calls and the repository does not define. *)
Class Runtime := {
  (** [JSON.parse]: the value, or a [SyntaxError]. *)
  JSON_parse : string -> completion value;
  (** [JSON.stringify] *)
  JSON_stringify : value -> completion string;
  (** [String(n)] for a number. *)
  Number_toString : float -> string;
  (** The most arguments the engine takes in one call: a call that spreads
      a longer array, as [f(...xs)] does, throws a [RangeError].  The number
      is the engine's own. *)
  max_call_arguments : N
}.

End JS.

(** ** The Codex adapter (the Codex CLI agent plugin, [CodexAgentPlugin]) *)

Module Codex.
Import JS.

Declare Scope js_scope.
Delimit Scope js_scope with js.
Notation "x <- c ;; k" := (bind c (fun x => k))
  (at level 61, c at next level, right associativity) : js_scope.
Local Open Scope js_scope.

(** [AgentDisplayEvent], the shared tagged union.  The payloads are whatever
    the record carried: TypeScript's [string] annotations are not checked at
    run time. *)
Inductive AgentDisplayEvent :=
| text (content : value)
| tool_use (name : value) (input : value)
| tool_result
| error (message : string).

(** [for (const x of items) body], threading the mutated accumulator. *)
Fixpoint for_of {A S} (body : A -> S -> completion S) (items : list A) (s : S)
  : completion S :=
  match items with
  | [] => Normal s
  | x :: rest => s' <- body x s ;; for_of body rest s'
  end.

(** [a || b] and [a && b] on conditions. *)
Definition cond_or (a b : completion bool) : completion bool :=
  x <- a ;; if x then Normal true else b.
Definition cond_and (a b : completion bool) : completion bool :=
  x <- a ;; if x then b else Normal false.

(** [a || b] on strings. *)
Definition str_or (a b : completion string) : completion string :=
  x <- a ;; if String.eqb x "" then b else Normal x.

Section WithRuntime.
Context {rt : Runtime}.

Definition extractErrorMessage (err : value) : completion string :=
  if negb (truthy err) then Normal ""
  else match err with
       | VStr s => Normal s
       | VNull | VArr _ | VObj _ =>
           m <- get err "message" ;;
           match m with
           | VStr s => Normal s
           | _ =>
               e <- get err "error" ;;
               match e with
               | VStr s => Normal s
               | _ => try_catch (JSON_stringify err)
                                (fun _ => Normal "Unknown error")
               end
           end
       | VBool b => Normal (if b then "true" else "false")
       | VNum n => Normal (Number_toString n)
       | VUndefined => Normal "undefined"
       end.

(** The body of the loop over a message's content array. *)
Definition parsePart (part : value) (events : list AgentDisplayEvent)
  : completion (list AgentDisplayEvent) :=
  is_text <- cond_and (ty <- get part "type" ;; Normal (is_str ty "text"))
                      (t <- get part "text" ;; Normal (truthy t)) ;;
  if is_text then
    t <- get part "text" ;;
    Normal (events ++ [text t])
  else
    is_tool <- cond_or (ty <- get part "type" ;; Normal (is_str ty "tool_use"))
                       (ty <- get part "type" ;; Normal (is_str ty "function_call")) ;;
    if is_tool then
      toolName <- or_else (or_else (get part "name")
                                   (f <- get part "function" ;; opt_get f "name"))
                          (Normal (VStr "unknown")) ;;
      toolInput <- or_else (get part "input")
                           (f <- get part "function" ;; opt_get f "arguments") ;;
      Normal (events ++ [tool_use toolName toolInput])
    else Normal events.

(** What the [try] block of [parseCodexJsonLine] does with the parsed
    record. *)
Definition parseEvent (event : value) : completion (list AgentDisplayEvent) :=
  let events : list AgentDisplayEvent := [] in
  is_message <- cond_or (ty <- get event "type" ;; Normal (is_str ty "message"))
                        (m <- get event "message" ;; Normal (truthy m)) ;;
  if is_message then
    role <- get event "role" ;;
    if is_str role "user" then Normal []
    else
      content <- or_else (get event "content")
                         (m <- get event "message" ;; opt_get m "content") ;;
      match content with
      | VArr parts => for_of parsePart parts events
      | VStr _ => Normal (events ++ [text content])
      | _ => Normal events
      end
  else
  is_call <- cond_or (ty <- get event "type" ;; Normal (is_str ty "function_call"))
                     (c <- get event "function_call" ;; Normal (truthy c)) ;;
  if is_call then
    call <- or_else (get event "function_call") (Normal event) ;;
    toolName <- or_else (or_else (get call "name")
                                 (f <- get call "function" ;; opt_get f "name"))
                        (Normal (VStr "unknown")) ;;
    toolInput <- or_else (get call "arguments") (get call "input") ;;
    Normal (events ++ [tool_use toolName toolInput])
  else
  is_result <- cond_or (ty <- get event "type" ;; Normal (is_str ty "function_call_output"))
                       (ty <- get event "type" ;; Normal (is_str ty "tool_result")) ;;
  if is_result then
    isError <- cond_or (e <- get event "is_error" ;; Normal (is_true e))
                       (e <- get event "error" ;; Normal (is_defined e)) ;;
    events1 <- (if isError : bool then
                  errMsg <- (e <- get event "error" ;; extractErrorMessage e) ;;
                  Normal (events ++ [error (if String.eqb errMsg ""
                                            then "tool execution failed"
                                            else errMsg)])
                else Normal events) ;;
    Normal (events1 ++ [tool_result])
  else
  is_simple_text <- cond_and (ty <- get event "type" ;; Normal (is_str ty "text"))
                             (t <- get event "text" ;; Normal (truthy t)) ;;
  if is_simple_text then
    t <- get event "text" ;;
    Normal (events ++ [text t])
  else
  is_error <- cond_or (ty <- get event "type" ;; Normal (is_str ty "error"))
                      (e <- get event "error" ;; Normal (truthy e)) ;;
  if is_error then
    errorMsg <- str_or (str_or (e <- get event "error" ;; extractErrorMessage e)
                               (m <- get event "message" ;; extractErrorMessage m))
                       (Normal "Unknown error") ;;
    Normal (events ++ [error errorMsg])
  else Normal events.

Definition parseCodexJsonLine (jsonLine : string)
  : completion (list AgentDisplayEvent) :=
  if String.eqb jsonLine "" || (String.length jsonLine =? 0)%nat then Normal []
  else try_catch (event <- JSON_parse jsonLine ;; parseEvent event)
                 (fun _ => Normal []).

(** [target.push(...items)]: the spread passes every element of [items] as
    an argument of the one call, which the engine refuses with a
    [RangeError] when they are more than it takes. *)
Definition push_spread {A} (target items : list A) : completion (list A) :=
  if (N.of_nat (List.length items) <=? max_call_arguments)%N
  then Normal (target ++ items)
  else Throw RangeError.

Definition parseCodexOutputToEvents (data : string)
  : completion (list AgentDisplayEvent) :=
  for_of (fun line allEvents =>
            events <- parseCodexJsonLine (trim line) ;;
            push_spread allEvents events)
         (split newline data) [].

(** The two formatters [execute] imports from output-formatting: the file
    that defines them is outside the verified sources, so they are taken
    as given. *)
Class OutputFormatting := {
  FormattedSegment : Type;
  processAgentEvents : list AgentDisplayEvent -> string;
  processAgentEventsToSegments : list AgentDisplayEvent -> list FormattedSegment
}.

Context {fmt : OutputFormatting}.

(** A call made on one of the caller's callbacks. *)
Inductive callback_call :=
| call_onJsonlMessage (parsed : value)
| call_onStdoutSegments (segments : list FormattedSegment)
| call_onStdout (parsed : string).

(** A callback of the caller: given the calls the caller has received so
    far and the argument of this call, it returns or throws. *)
Definition callback (A : Type) : Type :=
  list callback_call -> A -> completion unit.

(** The callbacks the caller of [execute] supplied. *)
Record AgentExecuteOptions := {
  onStdout : option (callback string);
  onStdoutSegments : option (callback (list FormattedSegment));
  onJsonlMessage : option (callback value)
}.

(** [options?.cb] as a condition. *)
Definition supplied {A} (cb : option A) : bool :=
  match cb with
  | Some _ => true
  | None => false
  end.

(** The code of the wrapper runs against the calls made so far: each piece
    of it adds its calls, and returns or throws. *)
Definition calling (A : Type) : Type :=
  list callback_call -> list callback_call * completion A.

Definition ret {A} (a : A) : calling A := fun calls => (calls, Normal a).

Definition then_ {A B} (m : calling A) (k : A -> calling B) : calling B :=
  fun calls =>
    match m calls with
    | (calls', Normal a) => k a calls'
    | (calls', Throw e) => (calls', Throw e)
    end.

Definition lift {A} (c : completion A) : calling A := fun calls => (calls, c).

(** [try { m } catch { h }] *)
Definition catch {A} (m : calling A) (h : exn -> calling A) : calling A :=
  fun calls =>
    match m calls with
    | (calls', Normal a) => (calls', Normal a)
    | (calls', Throw e) => h e calls'
    end.

(** [cb(a)]: the call is made, and returns or throws. *)
Definition invoke {A} (cb : callback A) (as_call : A -> callback_call) (a : A)
  : calling unit :=
  fun calls => (calls ++ [as_call a], cb calls a).

(** [for (const x of items) body] *)
Fixpoint for_each {A} (body : A -> calling unit) (items : list A) : calling unit :=
  match items with
  | [] => ret tt
  | x :: rest => then_ (body x) (fun _ => for_each body rest)
  end.

(** The body of the loop forwarding raw records to [onJsonlMessage]: the
    [try] holds both the parse and the call, so what either throws is
    dropped. *)
Definition forwardLine (cb : callback value) (line : string) : calling unit :=
  let trimmed := trim line in
  if negb (String.eqb trimmed "") && startsWith trimmed "{"%char then
    catch (then_ (lift (JSON_parse trimmed))
                 (fun parsed => invoke cb call_onJsonlMessage parsed))
          (fun _ => ret tt)
  else ret tt.

(** Handing the events of a chunk to the caller: the segments callback
    first, then the legacy string callback, each only when supplied and
    when its formatter gave something; neither call is inside a [try]. *)
Definition displayEvents (options : AgentExecuteOptions)
    (events : list AgentDisplayEvent) : calling unit :=
  if (0 <? List.length events)%nat then
    then_ (match onStdoutSegments options with
           | Some cb =>
               let segments := processAgentEventsToSegments events in
               if (0 <? List.length segments)%nat
               then invoke cb call_onStdoutSegments segments
               else ret tt
           | None => ret tt
           end)
          (fun _ =>
             match onStdout options with
             | Some cb =>
                 let parsed := processAgentEvents events in
                 if (0 <? String.length parsed)%nat
                 then invoke cb call_onStdout parsed
                 else ret tt
             | None => ret tt
             end)
  else ret tt.

(** The closure installed as [parsedOptions.onStdout]; [jsonlBuffer] is the
    variable it captures.  It gives the new value of [jsonlBuffer], which is
    assigned before anything can throw, and what the rest of the body does:
    the raw records are forwarded, the complete lines are parsed (outside
    any [try]), and the events are handed to the caller. *)
Definition onStdout_wrapper (options : AgentExecuteOptions)
    (jsonlBuffer : string) (data : string) : string * calling unit :=
  let combined := (jsonlBuffer ++ data)%string in
  let lines := split newline combined in
  let '(jsonlBuffer, lines) :=
    if negb (endsWith data newline) then
      let '(last, lines) := pop lines in
      (match last with
       | Some l => if String.eqb l "" then "" else l
       | None => ""
       end, lines)
    else ("", lines) in
  let completeData := join newline lines in
  (jsonlBuffer,
   then_ (match onJsonlMessage options with
          | Some cb => for_each (forwardLine cb) lines
          | None => ret tt
          end)
         (fun _ =>
   then_ (lift (parseCodexOutputToEvents completeData))
         (fun events => displayEvents options events))).

(** [parsedOptions.onStdout]: the wrapper when the caller supplied any of the
    three callbacks, [undefined] otherwise. *)
Definition parsedOptions_onStdout (options : AgentExecuteOptions)
  : option (string -> string -> string * calling unit) :=
  if supplied (onStdout options) || supplied (onStdoutSegments options)
     || supplied (onJsonlMessage options)
  then Some (onStdout_wrapper options)
  else None.

(** The state of one [execute] call: the buffer, every call made on the
    caller's callbacks so far, and the exception that left the handler, if
    one did. *)
Record execution := {
  jsonlBuffer : string;
  called : list callback_call;
  thrown : option exn
}.

Definition execute_start : execution :=
  {| jsonlBuffer := ""; called := []; thrown := None |}.

(** Modelled from the spec: the base plugin's [execute] (base.ts is not
    among the sources), which spawns the process and hands every stdout
    chunk, in arrival order, to [parsedOptions.onStdout] when it is
    defined.  An exception that leaves the handler is recorded, and the
    model hands over no chunk after it. *)
Definition deliver (options : AgentExecuteOptions) (data : string) (st : execution)
  : execution :=
  match thrown st with
  | Some _ => st
  | None =>
      match parsedOptions_onStdout options with
      | None => st
      | Some handler =>
          let '(buffer, body) := handler (jsonlBuffer st) data in
          let '(calls, outcome) := body (called st) in
          {| jsonlBuffer := buffer;
             called := calls;
             thrown := match outcome with
                       | Normal _ => None
                       | Throw e => Some e
                       end |}
      end
  end.

Definition execute (options : AgentExecuteOptions) (chunks : list string)
  : execution :=
  fold_left (fun st data => deliver options data st) chunks execute_start.

(** The calls that carry display events, as opposed to raw records. *)
Definition is_display_call (c : callback_call) : bool :=
  match c with
  | call_onJsonlMessage _ => false
  | call_onStdoutSegments _ | call_onStdout _ => true
  end.

End WithRuntime.

(** The reading of the specification for [execute]: the events are those of
    the completed (newline-terminated) records of everything received, in
    order; the unterminated tail is what stays buffered. *)
Definition completed_records (stream : string) : list string :=
  removelast (split newline stream).

Definition pending_record (stream : string) : string :=
  last (split newline stream) "".

(** Everything received so far: the chunks in arrival order. *)
Definition received (chunks : list string) : string :=
  fold_right String.append "" chunks.

(** The shapes [parseCodexJsonLine] has a branch for, read off a parsed
    record: the five tests of its [if] chain. *)
Definition recognized_shape (event : value) : bool :=
  match event with
  | VObj props =>
      let type := lookup "type" props in
      is_str type "message" || truthy (lookup "message" props)
      || is_str type "function_call" || truthy (lookup "function_call" props)
      || is_str type "function_call_output" || is_str type "tool_result"
      || (is_str type "text" && truthy (lookup "text" props))
      || is_str type "error" || truthy (lookup "error" props)
  | _ => false
  end.

(** A record of message kind: [type] is ['message'], or it carries a
    [message]. *)
Definition is_message_record (event : value) : bool :=
  match event with
  | VObj props =>
      is_str (lookup "type" props) "message" || truthy (lookup "message" props)
  | _ => false
  end.

(** The record's [role] field. *)
Definition role_of (event : value) : value :=
  match event with
  | VObj props => lookup "role" props
  | _ => VUndefined
  end.

Definition events_of_record {rt : Runtime} (record : string)
  : list AgentDisplayEvent :=
  match parseCodexJsonLine (trim record) with
  | Normal evs => evs
  | Throw _ => []
  end.

Definition events_of_completed_records {rt : Runtime} (stream : string)
  : list AgentDisplayEvent :=
  flat_map events_of_record (completed_records stream).

(** The events each chunk completes, chunk by chunk: those of the records
    completed by the buffered tail followed by the chunk. *)
Fixpoint events_per_chunk {rt : Runtime} (buffer : string) (chunks : list string)
  : list (list AgentDisplayEvent) :=
  match chunks with
  | [] => []
  | data :: rest =>
      events_of_completed_records (buffer ++ data)
      :: events_per_chunk (pending_record (buffer ++ data)) rest
  end.

(** The records each chunk completes, chunk by chunk. *)
Fixpoint records_per_chunk (buffer : string) (chunks : list string)
  : list (list string) :=
  match chunks with
  | [] => []
  | data :: rest =>
      completed_records (buffer ++ data)
      :: records_per_chunk (pending_record (buffer ++ data)) rest
  end.

(** A record whose events the engine takes as the arguments of one call. *)
Definition within_limit {rt : Runtime} (record : string) : bool :=
  (N.of_nat (List.length (events_of_record record)) <=? max_call_arguments)%N.

(** The raw records among the given lines, as the calls that forward them:
    the values [JSON.parse] gives for the lines that, trimmed, are not empty,
    start with a brace and parse. *)
Definition forwarded_records {rt : Runtime} {fmt : OutputFormatting}
    (lines : list string) : list callback_call :=
  flat_map (fun line =>
              let trimmed := trim line in
              if negb (String.eqb trimmed "") && startsWith trimmed "{"%char then
                match JSON_parse trimmed with
                | Normal parsed => [call_onJsonlMessage parsed]
                | Throw _ => []
                end
              else [])
           lines.

(** The reading of the specification for the two views ("consumers may
    receive events as joined text and/or as structured segments; both views
    must reflect exactly the events derived from completed records"): of
    the events a chunk completed, the caller receives the structured
    segments and then the joined text, each on the callback it supplied; a
    view that renders to nothing is not delivered, and a chunk that
    completes no event delivers nothing. *)
Definition views_of_chunk {fmt : OutputFormatting} (options : AgentExecuteOptions)
    (events : list AgentDisplayEvent) : list callback_call :=
  match events with
  | [] => []
  | _ :: _ =>
      (if supplied (onStdoutSegments options) then
         match processAgentEventsToSegments events with
         | [] => []
         | segments => [call_onStdoutSegments segments]
         end
       else [])
      ++
      (if supplied (onStdout options) then
         if String.eqb (processAgentEvents events) "" then []
         else [call_onStdout (processAgentEvents events)]
       else [])
  end.

Definition views {fmt : OutputFormatting} (options : AgentExecuteOptions)
    (events_by_chunk : list (list AgentDisplayEvent)) : list callback_call :=
  flat_map (views_of_chunk options) events_by_chunk.

(** The calls the records a chunk completed lead to when nothing throws:
    the raw records forwarded, when that callback was supplied, then the
    views of their events. *)
Definition calls_of_chunk {rt : Runtime} {fmt : OutputFormatting}
    (options : AgentExecuteOptions) (records : list string)
  : list callback_call :=
  (if supplied (onJsonlMessage options) then forwarded_records records else [])
  ++ views_of_chunk options (flat_map events_of_record records).

(** The display callbacks that were supplied return normally, however they
    are called. *)
Definition display_callbacks_return {fmt : OutputFormatting}
    (options : AgentExecuteOptions) : Prop :=
  (forall cb, onStdoutSegments options = Some cb ->
              forall calls segments, cb calls segments = Normal tt) /\
  (forall cb, onStdout options = Some cb ->
              forall calls parsed, cb calls parsed = Normal tt).

End Codex.

(** ** Sandbox detection ([commandExists] and [detectSandboxMode] as written
       in tests/sandbox/detect.test.ts, mirroring src/sandbox/detect.ts) *)

Module Sandbox.
Import JS.

(** The machine the detection runs on: [process.platform], and what
    spawning an argument vector and awaiting [proc.exited] gives (the exit
    code, or a throw when the spawn fails). *)
Class Host := {
  platform : string;
  spawn_exited : list string -> completion Z
}.

Section WithHost.
Context {host : Host}.

Definition commandExists (command : string) : completion bool :=
  if String.eqb command "" || String.eqb (trim command) "" then Normal false
  else
    let isWindows := String.eqb platform "win32" in
    let whichCmd := if isWindows then "where" else "which" in
    try_catch
      (bind (spawn_exited [whichCmd; command])
            (fun exitCode => Normal (Z.eqb exitCode 0)))
      (fun _ => Normal false).

(** The modes are the strings of the union ['bwrap' | 'sandbox-exec' | 'off']. *)
Definition detectSandboxMode : completion string :=
  let os := platform in
  bind (if String.eqb os "linux" then commandExists "bwrap" else Normal false)
       (fun found_bwrap =>
  if found_bwrap then Normal "bwrap"
  else
  bind (if String.eqb os "darwin" then commandExists "sandbox-exec" else Normal false)
       (fun found_sandbox_exec =>
  if found_sandbox_exec then Normal "sandbox-exec"
  else Normal "off")).

(** The reading of "found on PATH": the PATH lookup of the platform
    ([which], [where] on Windows) runs and exits with code 0. *)
Definition found_on_PATH (command : string) : bool :=
  match spawn_exited [if String.eqb platform "win32" then "where" else "which";
                      command] with
  | Normal code => Z.eqb code 0
  | Throw _ => false
  end.

End WithHost.

End Sandbox.

(** ** The process runner ([runProcess] as the process utility tests write
       it, matching the production runner of src/utils/process.ts) *)

Module Process.
Import JS.

(** How a promise ends up. *)
Inductive promise (A : Type) :=
| fulfilled (a : A)
| rejected (e : exn)
| pending.
Arguments fulfilled {A} a.
Arguments rejected {A} e.
Arguments pending {A}.

(** [x = await p; k x] inside an async function. *)
Definition await {A B} (p : promise A) (k : A -> promise B) : promise B :=
  match p with
  | fulfilled a => k a
  | rejected e => rejected e
  | pending => pending
  end.

(** [try { body } catch (error) { handler }] around awaits. *)
Definition try_await {A} (body : promise A) (handler : exn -> promise A) : promise A :=
  match body with
  | fulfilled a => fulfilled a
  | rejected e => handler e
  | pending => pending
  end.

(** What the three awaits of the runner see of a child. *)
Record streams := {
  stdout_text : promise string;   (* new Response(proc.stdout).text() *)
  stderr_text : promise string;   (* new Response(proc.stderr).text() *)
  exited : promise Z              (* proc.exited *)
}.

(** A spawned child, as far as the runner can tell: whether the awaits on
    it are still outstanding (it still runs, or its output is still open)
    when a timer of the given delay (ms) is due, what the awaits see when it
    is left alone, and what they see once [proc.kill('SIGTERM')] has been
    called on it. *)
Record child := {
  outlives : Z -> bool;
  undisturbed : streams;
  signalled : streams
}.

Record RunOptions := {
  cwd : option string;
  env : option (list (string * string));
  timeout : option Z
}.

(** [Bun.spawn]: the child, or a throw when the spawn fails. *)
Class Host := {
  Bun_spawn : list string -> option string -> option (list (string * string))
              -> completion child
}.

Record ProcessResult := {
  exitCode : option Z;
  signal : option string;
  stdout : string;
  stderr : string;
  success : bool
}.

(** The result both [catch] blocks resolve with. *)
Definition failure_result (error : exn) : ProcessResult :=
  {| exitCode := None;
     signal := None;
     stdout := "";
     stderr := exn_message error;
     success := false |}.

(** [const { cwd, env, timeout = 0 } = options] *)
Definition timeout_of (options : RunOptions) : Z :=
  match timeout options with
  | Some t => t
  | None => 0%Z
  end.

Section WithHost.
Context {host : Host}.

Definition runProcess (command : string) (args : list string) (options : RunOptions)
  : promise ProcessResult :=
  let timeout := timeout_of options in
  match Bun_spawn (command :: args) (cwd options) (env options) with
  | Throw error => fulfilled (failure_result error)
  | Normal proc =>
      (* the timer, when armed, fires if the awaits below have not got to
         clearTimeout by then *)
      let killed := (0 <? timeout)%Z && outlives proc timeout in
      let seen := if killed then signalled proc else undisturbed proc in
      try_await
        (await (stdout_text seen) (fun stdout =>
         await (stderr_text seen) (fun stderr =>
         await (exited seen) (fun exitCode =>
         fulfilled {| exitCode := Some exitCode;
                      signal := if killed then Some "SIGTERM" else None;
                      stdout := stdout;
                      stderr := stderr;
                      success := Z.eqb exitCode 0 |}))))
        (fun error => fulfilled (failure_result error))
  end.

End WithHost.

End Process.

(** ** The parallel Worker

    src/parallel/worker.ts is outside the verified sources: only its test
    suite (src/parallel/worker.test.ts) is within.  The definitions of this
    module follow the specification's description of the Worker, and the
    test suite's use of it. *)

Module Worker.
Import JS.

Record TrackerTask := {
  task_id : string;
  title : string;
  task_status : string;
  priority : nat
}.

Record WorkerConfig := {
  id : string;
  task : TrackerTask;
  worktreePath : string;
  branchName : string;
  cwd : string
}.

Inductive WorkerStatus := idle | running | paused | completed | cancelled | error.

Record WorkerDisplayState := {
  ds_id : string;
  ds_status : WorkerStatus;
  ds_task : TrackerTask;
  ds_currentIteration : nat;
  ds_maxIterations : nat;
  ds_lastOutput : string;
  ds_elapsedMs : nat;
  ds_commitSha : option string;
  ds_worktreePath : string;
  ds_branchName : string
}.

Record WorkerResult := {
  success : bool;
  taskCompleted : bool;
  commitCount : nat;
  commitSha : option string;
  error_message : option string
}.

(** Modelled from the spec: the events of the ExecutionEngine a Worker
    observes (the engine is missing from the sources): the "auto-committed"
    signal with its commit identifier, the observations of iteration and
    output that feed the display state, and any other event. *)
Inductive EngineEvent :=
| task_auto_committed (sha : string)
| iteration_observed (iteration : nat)
| output_observed (output : string)
| other_event (type : string).

(** Modelled from the spec: [engine.getState()], the read-only snapshot
    [{tasksCompleted, currentIteration}]. *)
Record EngineState := {
  tasksCompleted : nat;
  engine_currentIteration : nat
}.

(** Modelled from the spec: the engine a Worker is bound to, as far as the
    Worker drives it: the cooperative pause flag and the request to halt. *)
Record Engine := {
  pause_flag : bool;
  stop_requested : bool
}.

(** Modelled from the spec: what happens while the Worker awaits
    [engine.start()], as the fake engines of the test suite script it: the
    engine emits events, [stop()] may be called on the Worker meanwhile, and
    in the end the engine returns or raises. *)
Inductive engine_step :=
| emits (event : EngineEvent)
| calls_stop.

Inductive engine_end :=
| returns
| raises (message : string).

Record EngineRun := {
  steps : list engine_step;
  ending : engine_end;
  final_state : EngineState
}.

(** Modelled from the spec: the Worker object (worker.ts is missing): the
    static configuration, the status, the bound engine if any, the per-run
    accumulators, the latest engine-observed data, and the two registries
    of listeners, each registration under a handle of its own. *)
Record t := {
  config : WorkerConfig;
  maxIterations : nat;
  status : WorkerStatus;
  engine : option Engine;
  run_commitCount : nat;
  run_commitSha : option string;
  currentIteration : nat;
  lastOutput : string;
  startedAt : option nat;
  listeners : list (nat * string);
  engineListeners : list (nat * string);
  next_handle : nat
}.

Definition set_status (s : WorkerStatus) (w : t) : t :=
  {| config := config w; maxIterations := maxIterations w; status := s;
     engine := engine w; run_commitCount := run_commitCount w;
     run_commitSha := run_commitSha w; currentIteration := currentIteration w;
     lastOutput := lastOutput w; startedAt := startedAt w;
     listeners := listeners w; engineListeners := engineListeners w;
     next_handle := next_handle w |}.

Definition set_engine (e : option Engine) (w : t) : t :=
  {| config := config w; maxIterations := maxIterations w; status := status w;
     engine := e; run_commitCount := run_commitCount w;
     run_commitSha := run_commitSha w; currentIteration := currentIteration w;
     lastOutput := lastOutput w; startedAt := startedAt w;
     listeners := listeners w; engineListeners := engineListeners w;
     next_handle := next_handle w |}.

Definition set_commits (n : nat) (sha : option string) (w : t) : t :=
  {| config := config w; maxIterations := maxIterations w; status := status w;
     engine := engine w; run_commitCount := n;
     run_commitSha := sha; currentIteration := currentIteration w;
     lastOutput := lastOutput w; startedAt := startedAt w;
     listeners := listeners w; engineListeners := engineListeners w;
     next_handle := next_handle w |}.

Definition set_observed (iteration : nat) (output : string) (w : t) : t :=
  {| config := config w; maxIterations := maxIterations w; status := status w;
     engine := engine w; run_commitCount := run_commitCount w;
     run_commitSha := run_commitSha w; currentIteration := iteration;
     lastOutput := output; startedAt := startedAt w;
     listeners := listeners w; engineListeners := engineListeners w;
     next_handle := next_handle w |}.

Definition set_startedAt (now : nat) (w : t) : t :=
  {| config := config w; maxIterations := maxIterations w; status := status w;
     engine := engine w; run_commitCount := run_commitCount w;
     run_commitSha := run_commitSha w; currentIteration := currentIteration w;
     lastOutput := lastOutput w; startedAt := Some now;
     listeners := listeners w; engineListeners := engineListeners w;
     next_handle := next_handle w |}.

Definition set_listeners (ls els : list (nat * string)) (next : nat) (w : t) : t :=
  {| config := config w; maxIterations := maxIterations w; status := status w;
     engine := engine w; run_commitCount := run_commitCount w;
     run_commitSha := run_commitSha w; currentIteration := currentIteration w;
     lastOutput := lastOutput w; startedAt := startedAt w;
     listeners := ls; engineListeners := els;
     next_handle := next |}.

(** Modelled from the spec: [new Worker(config, maxIterations)]: status
    [idle], no engine, nothing observed. *)
Definition create (cfg : WorkerConfig) (maxIter : nat) : t :=
  {| config := cfg; maxIterations := maxIter; status := idle;
     engine := None; run_commitCount := 0; run_commitSha := None;
     currentIteration := 0; lastOutput := ""; startedAt := None;
     listeners := []; engineListeners := []; next_handle := 0 |}.

(** Modelled from the spec: [initialize()] binds one engine. *)
Definition initialize (w : t) : t :=
  set_engine (Some {| pause_flag := false; stop_requested := false |}) w.

Definition getStatus (w : t) : WorkerStatus := status w.

(** Modelled from the spec: [getDisplayState()]: the static configuration
    combined with the latest engine-observed data; the elapsed time runs
    from the start of the run, and is 0 before any. *)
Definition getDisplayState (now : nat) (w : t) : WorkerDisplayState :=
  {| ds_id := id (config w);
     ds_status := status w;
     ds_task := task (config w);
     ds_currentIteration := currentIteration w;
     ds_maxIterations := maxIterations w;
     ds_lastOutput := lastOutput w;
     ds_elapsedMs := match startedAt w with
                     | Some t0 => now - t0
                     | None => 0
                     end;
     ds_commitSha := run_commitSha w;
     ds_worktreePath := worktreePath (config w);
     ds_branchName := branchName (config w) |}.

(** Modelled from the spec: on each "auto-committed" engine event the
    Worker increments [commitCount] and records the latest [commitSha]; the
    other observations feed the display state. *)
Definition handleEngineEvent (event : EngineEvent) (w : t) : t :=
  match event with
  | task_auto_committed sha => set_commits (S (run_commitCount w)) (Some sha) w
  | iteration_observed n => set_observed n (lastOutput w) w
  | output_observed out => set_observed (currentIteration w) out w
  | other_event _ => w
  end.

(** Modelled from the spec: [stop()]: the status becomes [cancelled], with
    or without an engine; a bound engine is asked to halt. *)
Definition stop (w : t) : t :=
  set_status cancelled
    (match engine w with
     | Some e => set_engine (Some {| pause_flag := pause_flag e;
                                     stop_requested := true |}) w
     | None => w
     end).

(** Modelled from the spec: [pause()] and [resume()] forward to the engine
    if present, else do nothing. *)
Definition pause (w : t) : t :=
  match engine w with
  | Some e => set_engine (Some {| pause_flag := true;
                                  stop_requested := stop_requested e |}) w
  | None => w
  end.

Definition resume (w : t) : t :=
  match engine w with
  | Some e => set_engine (Some {| pause_flag := false;
                                  stop_requested := stop_requested e |}) w
  | None => w
  end.

(** Modelled from the spec: [on(listener)] and [onEngineEvent(listener)]
    register a listener under a fresh handle; the function they return
    removes that registration. *)
Definition on (listener : string) (w : t) : t * nat :=
  let h := next_handle w in
  (set_listeners (listeners w ++ [(h, listener)]) (engineListeners w) (S h) w, h).

Definition onEngineEvent (listener : string) (w : t) : t * nat :=
  let h := next_handle w in
  (set_listeners (listeners w) (engineListeners w ++ [(h, listener)]) (S h) w, h).

Definition drop_handle (h : nat) (registry : list (nat * string))
  : list (nat * string) :=
  filter (fun entry => negb (Nat.eqb (fst entry) h)) registry.

(** Modelled from the spec: the function returned by [on] (worker.ts is
    missing): it removes the registration made under its handle. *)
Definition unsubscribe (h : nat) (w : t) : t :=
  set_listeners (drop_handle h (listeners w)) (engineListeners w) (next_handle w) w.

(** Modelled from the spec: the function returned by [onEngineEvent]. *)
Definition unsubscribeEngine (h : nat) (w : t) : t :=
  set_listeners (listeners w) (drop_handle h (engineListeners w)) (next_handle w) w.

Definition run_step (step : engine_step) (w : t) : t :=
  match step with
  | emits event => handleEngineEvent event w
  | calls_stop => stop w
  end.

Definition result_of (w : t) (ok completed_task : bool) (err : option string)
  : WorkerResult :=
  {| success := ok;
     taskCompleted := completed_task;
     commitCount := run_commitCount w;
     commitSha := run_commitSha w;
     error_message := err |}.

Definition is_cancelled (s : WorkerStatus) : bool :=
  match s with cancelled => true | _ => false end.

(** Modelled from the spec: the state [start()] puts the Worker in before
    it invokes the engine: running, accumulators reset. *)
Definition begin_run (now : nat) (w : t) : t :=
  set_startedAt now (set_commits 0 None (set_status running w)).

(** Modelled from the spec: [start()]: fails with "not initialized" when no
    engine is bound; otherwise resets the per-run accumulators, observes the
    engine's events while the engine runs, and resolves to a result: the
    raised message when the engine raises, 'Worker was cancelled' when the
    Worker was stopped meanwhile, success otherwise. *)
Definition start (now : nat) (run : EngineRun) (w : t)
  : t * completion WorkerResult :=
  match engine w with
  | None => (w, Throw (Error "Worker not initialized"))
  | Some _ =>
      let w1 := fold_left (fun w step => run_step step w) (steps run)
                          (begin_run now w) in
      match ending run with
      | raises message =>
          (if is_cancelled (status w1) then w1 else set_status error w1,
           Normal (result_of w1 false false (Some message)))
      | returns =>
          if is_cancelled (status w1) then
            (w1, Normal (result_of w1 false false (Some "Worker was cancelled")))
          else
            (set_status completed w1,
             Normal (result_of w1 true (0 <? tasksCompleted (final_state run))%nat
                               None))
      end
  end.

(** The auto-commit events among the steps of a run, and the identifier of
    the latest. *)
Definition commit_shas (steps : list engine_step) : list string :=
  flat_map (fun step => match step with
                        | emits (task_auto_committed sha) => [sha]
                        | _ => []
                        end) steps.

Definition latest (shas : list string) : option string :=
  match rev shas with
  | [] => None
  | sha :: _ => Some sha
  end.

End Worker.

(** ** A reference runtime

    An executable instance of the built-ins, to run the embedding on
    concrete inputs: [JSON.parse] and [JSON.stringify] for JSON texts whose
    numbers are integers of at most 15 digits and whose [\u] escapes stay
    below 256.  Texts outside that range are refused here; the theorems of
    Part II hold for every runtime, this one included. *)

Module Reference.
Import JS.

Definition is_ws (c : ascii) : bool :=
  let n := nat_of_ascii c in
  (n =? 32)%nat || (n =? 9)%nat || (n =? 10)%nat || (n =? 13)%nat.

Fixpoint skip_ws (s : string) : string :=
  match s with
  | EmptyString => EmptyString
  | String c rest => if is_ws c then skip_ws rest else s
  end.

Definition digit (c : ascii) : option Z :=
  let n := Z.of_nat (nat_of_ascii c) in
  if (48 <=? n)%Z && (n <=? 57)%Z then Some (n - 48)%Z else None.

Definition hex_digit (c : ascii) : option Z :=
  let n := Z.of_nat (nat_of_ascii c) in
  if (48 <=? n)%Z && (n <=? 57)%Z then Some (n - 48)%Z
  else if (65 <=? n)%Z && (n <=? 70)%Z then Some (n - 55)%Z
  else if (97 <=? n)%Z && (n <=? 102)%Z then Some (n - 87)%Z
  else None.

(** The double quote, and JSON texts written with ['] in its place. *)
Definition dquote : ascii := "034"%char.

Fixpoint json (s : string) : string :=
  match s with
  | EmptyString => EmptyString
  | String c rest =>
      String (if Ascii.eqb c "'"%char then dquote else c) (json rest)
  end.

Definition simple_escape (c : ascii) : option ascii :=
  if Ascii.eqb c dquote then Some dquote
  else match c with
       | "\"%char => Some "\"%char
       | "/"%char => Some "/"%char
       | "b"%char => Some "008"%char
       | "f"%char => Some "012"%char
       | "n"%char => Some "010"%char
       | "r"%char => Some "013"%char
       | "t"%char => Some "009"%char
       | _ => None
       end.

Definition cons_char (c : ascii) (r : option (string * string))
  : option (string * string) :=
  match r with
  | Some (body, rest) => Some (String c body, rest)
  | None => None
  end.

(** The characters of a string literal, after its opening quote. *)
Fixpoint string_body (s : string) : option (string * string) :=
  match s with
  | EmptyString => None
  | String c rest =>
      if Ascii.eqb c dquote then Some (EmptyString, rest)
      else if Ascii.eqb c "\"%char then
        match rest with
        | String e rest' =>
            match simple_escape e with
            | Some ch => cons_char ch (string_body rest')
            | None =>
                if Ascii.eqb e "u"%char then
                  match rest' with
                  | String h1 (String h2 (String h3 (String h4 rest''))) =>
                      match hex_digit h1, hex_digit h2, hex_digit h3, hex_digit h4 with
                      | Some 0%Z, Some 0%Z, Some d3, Some d4 =>
                          cons_char (ascii_of_nat (Z.to_nat (16 * d3 + d4)))
                                    (string_body rest'')
                      | _, _, _, _ => None
                      end
                  | _ => None
                  end
                else None
            end
        | EmptyString => None
        end
      else if (nat_of_ascii c <? 32)%nat then None
      else cons_char c (string_body rest)
  end.

(** The digits at the head of a string: their value, their number, the rest. *)
Fixpoint digits (s : string) (acc : Z) (count : nat) : Z * nat * string :=
  match s with
  | EmptyString => (acc, count, s)
  | String c rest =>
      match digit c with
      | Some d => digits rest (10 * acc + d)%Z (S count)
      | None => (acc, count, s)
      end
  end.

Definition float_of_Z (z : Z) : float := PrimFloat.of_uint63 (Uint63.of_Z z).

Definition number (s : string) : option (float * string) :=
  let '(negative, s1) :=
    match s with
    | String "-"%char rest => (true, rest)
    | _ => (false, s)
    end in
  let '(z, count, rest) := digits s1 0%Z 0 in
  let leading_zero :=
    match s1 with
    | String "0"%char _ => (1 <? count)%nat
    | _ => false
    end in
  let goes_on :=
    match rest with
    | String c _ => Ascii.eqb c "."%char || Ascii.eqb c "e"%char || Ascii.eqb c "E"%char
    | EmptyString => false
    end in
  if (count =? 0)%nat || (15 <? count)%nat || leading_zero || goes_on then None
  else Some (if negative then PrimFloat.opp (float_of_Z z) else float_of_Z z, rest).

(** [props] with [k] set to [v]: in place when the key is there already. *)
Fixpoint set_prop (k : string) (v : value) (props : list (string * value))
  : list (string * value) :=
  match props with
  | [] => [(k, v)]
  | (k', v') :: rest =>
      if String.eqb k k' then (k, v) :: rest else (k', v') :: set_prop k v rest
  end.

Definition literal (word : string) (v : value) (s : string) : option (value * string) :=
  if String.prefix word s
  then Some (v, String.substring (String.length word)
                                 (String.length s - String.length word) s)
  else None.

(** The elements of an array after [[], and the members of an object after
    [{], given the parser of one value. *)
Fixpoint elements (parse : string -> option (value * string)) (fuel : nat)
    (s : string) (acc : list value) : option (list value * string) :=
  match fuel with
  | O => None
  | S fuel' =>
      match parse s with
      | None => None
      | Some (v, rest) =>
          match skip_ws rest with
          | String ","%char rest' => elements parse fuel' rest' (acc ++ [v])
          | String "]"%char rest' => Some (acc ++ [v], rest')
          | _ => None
          end
      end
  end.

Fixpoint members (parse : string -> option (value * string)) (fuel : nat)
    (s : string) (acc : list (string * value))
  : option (list (string * value) * string) :=
  match fuel with
  | O => None
  | S fuel' =>
      match skip_ws s with
      | String c rest =>
          match (if Ascii.eqb c dquote then string_body rest else None) with
          | None => None
          | Some (key, rest1) =>
              match skip_ws rest1 with
              | String ":"%char rest2 =>
                  match parse rest2 with
                  | None => None
                  | Some (v, rest3) =>
                      match skip_ws rest3 with
                      | String ","%char rest4 =>
                          members parse fuel' rest4 (set_prop key v acc)
                      | String "}"%char rest4 => Some (set_prop key v acc, rest4)
                      | _ => None
                      end
                  end
              | _ => None
              end
          end
      | _ => None
      end
  end.

Fixpoint parse_value (fuel : nat) (s : string) : option (value * string) :=
  match fuel with
  | O => None
  | S fuel' =>
      match skip_ws s with
      | EmptyString => None
      | String c rest as s' =>
          if Ascii.eqb c "{"%char then
            match skip_ws rest with
            | String "}"%char rest' => Some (VObj [], rest')
            | _ =>
                match members (parse_value fuel') fuel' rest [] with
                | Some (props, rest') => Some (VObj props, rest')
                | None => None
                end
            end
          else if Ascii.eqb c "["%char then
            match skip_ws rest with
            | String "]"%char rest' => Some (VArr [], rest')
            | _ =>
                match elements (parse_value fuel') fuel' rest [] with
                | Some (elems, rest') => Some (VArr elems, rest')
                | None => None
                end
            end
          else if Ascii.eqb c dquote then
            match string_body rest with
            | Some (str, rest') => Some (VStr str, rest')
            | None => None
            end
          else if Ascii.eqb c "t"%char then literal "true" (VBool true) s'
          else if Ascii.eqb c "f"%char then literal "false" (VBool false) s'
          else if Ascii.eqb c "n"%char then literal "null" VNull s'
          else
            match number s' with
            | Some (n, rest') => Some (VNum n, rest')
            | None => None
            end
      end
  end.

Definition parse (text : string) : completion value :=
  match parse_value (S (String.length text)) text with
  | Some (v, rest) =>
      match skip_ws rest with
      | EmptyString => Normal v
      | _ => Throw SyntaxError
      end
  | None => Throw SyntaxError
  end.

(** [String(n)], exact on the integers the parser above produces. *)
Definition number_toString (n : float) : string :=
  match Prim2SF n with
  | S754_zero _ => "0"
  | S754_infinity negative => if negative then "-Infinity" else "Infinity"
  | S754_nan => "NaN"
  | S754_finite negative m e =>
      let magnitude := if (0 <=? e)%Z then (Zpos m * 2 ^ e)%Z
                       else (Zpos m / 2 ^ (- e))%Z in
      ((if negative then "-" else "")
       ++ DecimalString.NilZero.string_of_uint (N.to_uint (Z.to_N magnitude)))%string
  end.

Definition hex_char (d : nat) : ascii :=
  ascii_of_nat (if (d <? 10)%nat then 48 + d else 87 + d).

Fixpoint quote_body (s : string) : string :=
  match s with
  | EmptyString => EmptyString
  | String c rest =>
      let n := nat_of_ascii c in
      ((if Ascii.eqb c dquote then String "\" (String dquote "")
        else if Ascii.eqb c "\"%char then "\\"
        else if (n =? 8)%nat then "\b"
        else if (n =? 12)%nat then "\f"
        else if (n =? 10)%nat then "\n"
        else if (n =? 13)%nat then "\r"
        else if (n =? 9)%nat then "\t"
        else if (n <? 32)%nat
             then "\u00" ++ String (hex_char (n / 16)) (String (hex_char (n mod 16)) "")
        else String c "")
       ++ quote_body rest)%string
  end.

Definition quote (s : string) : string :=
  String dquote (quote_body s ++ String dquote "")%string.

Fixpoint commas (items : list string) : string :=
  match items with
  | [] => EmptyString
  | [x] => x
  | x :: rest => (x ++ "," ++ commas rest)%string
  end.

Fixpoint stringify_value (v : value) : string :=
  match v with
  | VUndefined | VNull => "null"
  | VBool b => if b then "true" else "false"
  | VNum n => if PrimFloat.eqb n n && negb (PrimFloat.eqb (PrimFloat.abs n) infinity)
              then number_toString n else "null"
  | VStr s => quote s
  | VArr elems => ("[" ++ commas (map stringify_value elems) ++ "]")%string
  | VObj props =>
      ("{" ++ commas (flat_map (fun kv =>
                                  match kv with
                                  | (_, VUndefined) => []
                                  | (k, v') => [(quote k ++ ":" ++ stringify_value v')%string]
                                  end) props)
           ++ "}")%string
  end.

#[export] Instance runtime : Runtime := {
  JSON_parse := parse;
  JSON_stringify := fun v => Normal (stringify_value v);
  Number_toString := number_toString;
  max_call_arguments := 65536
}.

End Reference.

(** A plain formatter, to run [execute] on examples: the joined text of the
    text events, and one segment per text event. *)
Module PlainFormatting.
Import JS Codex.

Definition text_of (ev : AgentDisplayEvent) : list string :=
  match ev with
  | text (VStr s) => [s]
  | _ => []
  end.

#[export] Instance formatting : OutputFormatting := {
  FormattedSegment := string;
  processAgentEvents := fun events => String.concat "" (flat_map text_of events);
  processAgentEventsToSegments := fun events => flat_map text_of events
}.

End PlainFormatting.


(** ** Concrete inputs

    The inputs on which Part II runs the embedding: JSON lines and chunks
    for the adapter, hosts for the sandbox detection and the process runner,
    and the scenarios of the Worker's test suite. *)

Module Inputs.
Import JS Codex Reference PlainFormatting.

Definition nl : string := String newline "".

(** A callback that takes whatever it is handed, and one that fails. *)
Definition accepting {fmt : OutputFormatting} {A} : callback A :=
  fun _ _ => Normal tt.

Definition failing {fmt : OutputFormatting} {A} (message : string) : callback A :=
  fun _ _ => Throw (Error message).

Definition demo_options : AgentExecuteOptions :=
  {| onStdout := Some accepting;
     onStdoutSegments := Some accepting;
     onJsonlMessage := None |}.

(** A caller that wants both views, and whose renderer of segments fails. *)
Definition failing_renderer : AgentExecuteOptions :=
  {| onStdout := Some accepting;
     onStdoutSegments := Some (failing "render failed");
     onJsonlMessage := None |}.

(** A formatter that shows the events as they are, one segment each, and
    a caller that takes the segments only. *)
Definition raw_formatting : OutputFormatting :=
  {| FormattedSegment := AgentDisplayEvent;
     processAgentEvents := fun _ => "";
     processAgentEventsToSegments := fun events => events |}.

Definition segments_only : @AgentExecuteOptions raw_formatting :=
  {| onStdout := None;
     onStdoutSegments := Some accepting;
     onJsonlMessage := None |}.

(** A caller that only traces raw records, and whose tracer fails. *)
Definition failing_tracer : AgentExecuteOptions :=
  {| onStdout := None;
     onStdoutSegments := None;
     onJsonlMessage := Some (failing "trace failed") |}.

Definition hello_chunk : string :=
  ((json "{'type':'text','text':'hello'}") ++ nl)%string.

(** An engine that takes eight arguments at most: the limit of a real
    engine at small scale. *)
Definition tight_runtime : Runtime :=
  {| JSON_parse := parse;
     JSON_stringify := fun v => Normal (stringify_value v);
     Number_toString := number_toString;
     max_call_arguments := 8 |}.

(** One message with nine text parts. *)
Definition nine_parts_chunk : string :=
  ((json "{'type':'message','content':[{'type':'text','text':'1'},{'type':'text','text':'2'},{'type':'text','text':'3'},{'type':'text','text':'4'},{'type':'text','text':'5'},{'type':'text','text':'6'},{'type':'text','text':'7'},{'type':'text','text':'8'},{'type':'text','text':'9'}]}")
   ++ nl)%string.

(** Two records and the beginning of a third, cut in the middle of records. *)
Definition demo_chunks : list string :=
  [ (json "{'type':'text','te");
    ((json "xt':'hello'}") ++ nl ++ (json "{'type':'function_call',"))%string;
    ((json "'name':'bash','arguments':'ls'}") ++ nl ++ (json "{'type':'te"))%string ].

Definition user_echo_line : string :=
  (json "{'type':'message','role':'user','content':'fix the bug'}").

Definition user_echo_record : value :=
  VObj [("type", VStr "message"); ("role", VStr "user");
        ("content", VStr "fix the bug")].

(** Hosts for the sandbox detection. *)

Definition linux_with_bwrap : Sandbox.Host :=
  {| Sandbox.platform := "linux";
     Sandbox.spawn_exited := fun argv =>
       match argv with
       | ["which"; "bwrap"] => Normal 0%Z
       | _ => Normal 1%Z
       end |}.

Definition linux_bare : Sandbox.Host :=
  {| Sandbox.platform := "linux";
     Sandbox.spawn_exited := fun _ => Normal 1%Z |}.

Definition linux_spawn_failing : Sandbox.Host :=
  {| Sandbox.platform := "linux";
     Sandbox.spawn_exited := fun _ => Throw (Error "ENOENT") |}.

Definition macos : Sandbox.Host :=
  {| Sandbox.platform := "darwin";
     Sandbox.spawn_exited := fun argv =>
       match argv with
       | ["which"; "sandbox-exec"] => Normal 0%Z
       | _ => Normal 1%Z
       end |}.

Definition windows_with_everything : Sandbox.Host :=
  {| Sandbox.platform := "win32";
     Sandbox.spawn_exited := fun _ => Normal 0%Z |}.

(** Children and a host for the process runner. *)

Definition quiet (code : Z) : Process.streams :=
  {| Process.stdout_text := Process.fulfilled "";
     Process.stderr_text := Process.fulfilled "";
     Process.exited := Process.fulfilled code |}.

(** [bun -e 'setTimeout(() => {}, 10000)']: a child that stays for ten
    seconds and does not handle SIGTERM: the signal ends it, and the exit
    code reported is not 0 (143 here). *)
Definition sleeper : Process.child :=
  {| Process.outlives := fun ms => (ms <? 10000)%Z;
     Process.undisturbed := quiet 0;
     Process.signalled := quiet 143 |}.

(** The same child with a SIGTERM handler that exits with code 0. *)
Definition trapping_sleeper : Process.child :=
  {| Process.outlives := fun ms => (ms <? 10000)%Z;
     Process.undisturbed := quiet 0;
     Process.signalled := quiet 0 |}.

(** A child that ignores SIGTERM and never ends. *)
Definition immortal : Process.child :=
  {| Process.outlives := fun _ => true;
     Process.undisturbed := {| Process.stdout_text := Process.pending;
                               Process.stderr_text := Process.pending;
                               Process.exited := Process.pending |};
     Process.signalled := {| Process.stdout_text := Process.pending;
                             Process.stderr_text := Process.pending;
                             Process.exited := Process.pending |} |}.

Definition sleep_script : string := "setTimeout(() => {}, 10000)".

Definition trap_script : string :=
  "process.on('SIGTERM', () => process.exit(0)); setTimeout(() => {}, 10000)".

Definition ignore_script : string :=
  "process.on('SIGTERM', () => {}); setInterval(() => {}, 1000)".

Definition exit1_script : string := "process.exit(1)".

(** A machine on which [bun] runs the scripts above and nothing else is
    installed. *)
Definition bun_host : Process.Host :=
  {| Process.Bun_spawn := fun argv _ _ =>
       match argv with
       | ["bun"; "-e"; script] =>
           if String.eqb script sleep_script then Normal sleeper
           else if String.eqb script trap_script then Normal trapping_sleeper
           else if String.eqb script ignore_script then Normal immortal
           else if String.eqb script exit1_script then
             Normal {| Process.outlives := fun _ => false;
                       Process.undisturbed := quiet 1;
                       Process.signalled := quiet 143 |}
           else Normal {| Process.outlives := fun _ => false;
                          Process.undisturbed := quiet 0;
                          Process.signalled := quiet 143 |}
       | _ => Throw (Error "Executable not found in $PATH")
       end |}.

Definition within (ms : Z) : Process.RunOptions :=
  {| Process.cwd := None; Process.env := None; Process.timeout := Some ms |}.

Definition unbounded : Process.RunOptions :=
  {| Process.cwd := None; Process.env := None; Process.timeout := None |}.

(** The Worker of the test suite and the runs its fake engines script. *)

Definition T1 : Worker.TrackerTask :=
  {| Worker.task_id := "T1"; Worker.title := "Task T1";
     Worker.task_status := "open"; Worker.priority := 2 |}.

Definition w1_config : Worker.WorkerConfig :=
  {| Worker.id := "w1"; Worker.task := T1;
     Worker.worktreePath := "/tmp/worktrees/w1";
     Worker.branchName := "ralph-parallel/T1";
     Worker.cwd := "/tmp/project" |}.

Definition fresh_worker : Worker.t := Worker.create w1_config 10.

Definition bound_worker : Worker.t := Worker.initialize fresh_worker.

Definition one_task_done : Worker.EngineState :=
  {| Worker.tasksCompleted := 1; Worker.engine_currentIteration := 2 |}.

Definition two_commits : Worker.EngineRun :=
  {| Worker.steps := [Worker.emits (Worker.task_auto_committed "abc123");
                      Worker.emits (Worker.task_auto_committed "def456")];
     Worker.ending := Worker.returns;
     Worker.final_state := one_task_done |}.

Definition no_commit : Worker.EngineRun :=
  {| Worker.steps := [];
     Worker.ending := Worker.returns;
     Worker.final_state := one_task_done |}.

(** A commit, the call of [stop()], and two commits while the engine
    halts. *)
Definition stop_then_two_commits : Worker.EngineRun :=
  {| Worker.steps := [Worker.emits (Worker.task_auto_committed "first");
                      Worker.calls_stop;
                      Worker.emits (Worker.task_auto_committed "second");
                      Worker.emits (Worker.task_auto_committed "third")];
     Worker.ending := Worker.returns;
     Worker.final_state := one_task_done |}.

(** A commit, the call of [stop()], and an engine that raises. *)
Definition stop_then_boom : Worker.EngineRun :=
  {| Worker.steps := [Worker.emits (Worker.task_auto_committed "first");
                      Worker.calls_stop];
     Worker.ending := Worker.raises "boom";
     Worker.final_state := one_task_done |}.

Definition commit_then_boom : Worker.EngineRun :=
  {| Worker.steps := [Worker.emits (Worker.task_auto_committed "errorsha")];
     Worker.ending := Worker.raises "boom";
     Worker.final_state := {| Worker.tasksCompleted := 0;
                              Worker.engine_currentIteration := 0 |} |}.

End Inputs.

(** ** Predicates on the characters of a string *)

Module Chars.

(** Every character of the string satisfies [p]. *)
Fixpoint all_chars (p : ascii -> bool) (s : string) : bool :=
  match s with
  | EmptyString => true
  | String c rest => p c && all_chars p rest
  end.

Definition not_newline (c : ascii) : bool := negb (Ascii.eqb c JS.newline).

End Chars.

(** ** The Codex plugin object: configuration, arguments, detection *)

Module CodexPlugin.
Import JS.

(** [Record<string, unknown>]: the configuration handed to [initialize]. *)
Definition config := list (string * value).

(** The fields of the base class the subclass reads and writes. *)
Record base_fields := {
  commandPath : option string;
  defaultTimeout : float
}.

(** What the Codex plugin imports from ../base.js, which is outside the
    verified sources: the base class's [initialize], and [findCommandPath]
    with its result [{found, path}]. *)
Class BaseAgentPlugin := {
  super_initialize : config -> base_fields -> completion base_fields;
  findCommandPath : string -> completion (bool * string)
}.

Record plugin := {
  base : base_fields;
  model : option string;
  fullAuto : bool;
  sandbox : string
}.

(** [new CodexAgentPlugin()]: the field initializers of the class. *)
Definition create (b : base_fields) : plugin :=
  {| base := {| commandPath := commandPath b; defaultTimeout := 0%float |};
     model := None;
     fullAuto := true;
     sandbox := "workspace-write" |}.

Definition sandbox_modes : list string :=
  ["read-only"; "workspace-write"; "danger-full-access"].

(** [modes.includes(s)] *)
Definition includes_string (modes : list string) (s : string) : bool :=
  existsb (String.eqb s) modes.

Section WithBase.
Context {base_class : BaseAgentPlugin}.

Definition initialize (cfg : config) (p : plugin) : completion plugin :=
  bind (super_initialize cfg (base p)) (fun b =>
  let model1 :=
    match lookup "model" cfg with
    | VStr m => if (0 <? String.length m)%nat then Some m else model p
    | _ => model p
    end in
  let fullAuto1 :=
    match lookup "fullAuto" cfg with
    | VBool b => b
    | _ => fullAuto p
    end in
  let sandbox1 :=
    match lookup "sandbox" cfg with
    | VStr s => if includes_string sandbox_modes s then s else sandbox p
    | _ => sandbox p
    end in
  let b1 :=
    match lookup "timeout" cfg with
    | VNum t => if PrimFloat.ltb 0%float t
                then {| commandPath := commandPath b; defaultTimeout := t |}
                else b
    | _ => b
    end in
  Normal {| base := b1; model := model1; fullAuto := fullAuto1;
            sandbox := sandbox1 |}).

(** [if (this.model)]: set and not empty. *)
Definition model_given (p : plugin) : option string :=
  match model p with
  | Some m => if String.eqb m "" then None else Some m
  | None => None
  end.

Definition buildArgs (p : plugin) (_prompt : string) : list string :=
  let args := [] in
  let args := args ++ ["exec"] in
  let args := if fullAuto p then args ++ ["--full-auto"] else args in
  let args := args ++ ["--json"] in
  let args := match model_given p with
              | Some m => args ++ ["--model"; m]
              | None => args
              end in
  let args := args ++ ["--sandbox"; sandbox p] in
  args.

Definition getStdinInput (p : plugin) (prompt : string) : string := prompt.

End WithBase.

(** [stdout.match(/(\d+\.\d+\.\d+)/)]: the leftmost three dot-separated runs
    of digits. *)
Definition is_digit (c : ascii) : bool :=
  let n := nat_of_ascii c in (48 <=? n)%nat && (n <=? 57)%nat.

(** The longest run of digits at the head of a string, and the rest. *)
Fixpoint span_digits (s : string) : string * string :=
  match s with
  | EmptyString => (EmptyString, EmptyString)
  | String c rest =>
      if is_digit c then
        let '(ds, r) := span_digits rest in (String c ds, r)
      else (EmptyString, s)
  end.

(** The match of [\d+\.\d+\.\d+] starting at the head of the string: each
    [\d+] can only take its whole run of digits, a shorter one being followed
    by a digit where the pattern wants a dot. *)
Definition match_version_here (s : string) : option string :=
  let '(d1, r1) := span_digits s in
  if String.eqb d1 "" then None else
  match r1 with
  | String "."%char r2 =>
      let '(d2, r3) := span_digits r2 in
      if String.eqb d2 "" then None else
      match r3 with
      | String "."%char r4 =>
          let '(d3, _) := span_digits r4 in
          if String.eqb d3 "" then None
          else Some (d1 ++ "." ++ d2 ++ "." ++ d3)%string
      | _ => None
      end
  | _ => None
  end.

Fixpoint match_version (s : string) : option string :=
  match match_version_here s with
  | Some v => Some v
  | None =>
      match s with
      | EmptyString => None
      | String _ rest => match_version rest
      end
  end.

(** What [runVersion] resolves to. *)
Record version_result := {
  success : bool;
  version : option string;
  error : option string
}.

(** What happens to the spawned [--version] process, in the order the
    event loop delivers it: output arrives, the process fails to start,
    the process closes (with its exit code, [null] when a signal ended it),
    the 5000 ms timer fires. *)
Inductive proc_event :=
| stdout_data (data : string)
| stderr_data (data : string)
| error_event (message : string)
| close_event (code : option Z)
| timeout_5000.

(** The variables of the promise executor: the two accumulators and the
    value the promise was resolved with, if it was. *)
Record version_run := {
  stdout : string;
  stderr : string;
  resolved : option version_result
}.

(** [resolve(r)]: only the first call settles the promise. *)
Definition resolve (r : version_result) (st : version_run) : version_run :=
  match resolved st with
  | Some _ => st
  | None => {| stdout := stdout st; stderr := stderr st; resolved := Some r |}
  end.

(** [`${code}`] *)
Definition code_to_string (code : option Z) : string :=
  match code with
  | None => "null"
  | Some z =>
      DecimalString.NilZero.string_of_int (Z.to_int z)
  end.

Definition on_event (ev : proc_event) (st : version_run) : version_run :=
  match ev with
  | stdout_data data =>
      {| stdout := stdout st ++ data; stderr := stderr st;
         resolved := resolved st |}
  | stderr_data data =>
      {| stdout := stdout st; stderr := stderr st ++ data;
         resolved := resolved st |}
  | error_event message =>
      resolve {| success := false; version := None;
                 error := Some ("Failed to execute: " ++ message)%string |} st
  | close_event code =>
      match code with
      | Some 0%Z =>
          match match_version (stdout st) with
          | None =>
              resolve {| success := false; version := None;
                         error := Some ("Unable to parse codex version output: "
                                        ++ stdout st)%string |} st
          | Some v =>
              resolve {| success := true; version := Some v; error := None |} st
          end
      | _ =>
          resolve {| success := false; version := None;
                     error := Some (if String.eqb (stderr st) ""
                                    then ("Exited with code "
                                          ++ code_to_string code)%string
                                    else stderr st) |} st
      end
  | timeout_5000 =>
      resolve {| success := false; version := None;
                 error := Some "Timeout waiting for --version" |} st
  end.

(** [runVersion]: the promise after the given events; [None] while it is
    still pending. *)
Definition runVersion (events : list proc_event) : option version_result :=
  resolved (fold_left (fun st ev => on_event ev st) events
                      {| stdout := ""; stderr := ""; resolved := None |}).

(** [AgentDetectResult] *)
Record detect_result := {
  available : bool;
  detected_version : option string;
  executablePath : option string;
  detect_error : option string
}.

Section Detect.
Context {base_class : BaseAgentPlugin}.

(** [detect()], given what happens to the version process it starts; the
    plugin comes back with the detected path stored.  A version process that
    never settles leaves [detect] pending ([None]). *)
Definition detect (events : list proc_event) (p : plugin)
  : completion (option (detect_result * plugin)) :=
  let command := match commandPath (base p) with
                 | Some c => c
                 | None => "codex"
                 end in
  bind (findCommandPath command) (fun findResult =>
  let '(found, path) := findResult in
  if negb found then
    Normal (Some ({| available := false; detected_version := None;
                     executablePath := None;
                     detect_error := Some "Codex CLI not found in PATH. Install from: https://github.com/openai/codex" |},
                  p))
  else
    match runVersion events with
    | None => Normal None
    | Some versionResult =>
        if negb (success versionResult) then
          Normal (Some ({| available := false; detected_version := None;
                           executablePath := Some path;
                           detect_error := error versionResult |}, p))
        else
          Normal (Some ({| available := true;
                           detected_version := version versionResult;
                           executablePath := Some path;
                           detect_error := None |},
                        {| base := {| commandPath := Some path;
                                      defaultTimeout := defaultTimeout (base p) |};
                           model := model p; fullAuto := fullAuto p;
                           sandbox := sandbox p |}))
    end).

End Detect.

(** What every plugin reached through [initialize] satisfies: the sandbox
    mode is one of the three, and a model that is set is not empty. *)
Definition configured (p : plugin) : Prop :=
  In (sandbox p) sandbox_modes /\ model p <> Some "".

(** A non-empty run of digits. *)
Definition digit_run (s : string) : Prop :=
  s <> "" /\ Chars.all_chars is_digit s = true.

(** Three runs of digits separated by dots. *)
Definition version_shaped (v : string) : Prop :=
  exists d1 d2 d3, digit_run d1 /\ digit_run d2 /\ digit_run d3 /\
                   v = (d1 ++ "." ++ d2 ++ "." ++ d3)%string.

(** [v] occurs in [s]. *)
Definition occurs_in (v s : string) : Prop :=
  exists pre post, s = (pre ++ v ++ post)%string.

(** The output received in the course of an event list. *)
Definition stdout_of (events : list proc_event) : string :=
  fold_left (fun acc ev => match ev with
                           | stdout_data d => (acc ++ d)%string
                           | _ => acc
                           end) events "".

Definition data_event (ev : proc_event) : bool :=
  match ev with
  | stdout_data _ | stderr_data _ => true
  | _ => false
  end.

(** What holds of a run at every moment: a successful result carries a
    well-formed version found in the output received so far, a failed one
    carries an error message. *)
Definition sound_result (out : string) (r : version_result) : Prop :=
  if success r
  then exists v, version r = Some v /\ error r = None /\
                 version_shaped v /\ occurs_in v out
  else error r <> None.

Definition sound_run (st : version_run) : Prop :=
  forall r, resolved st = Some r -> sound_result (stdout st) r.

End CodexPlugin.

(** ** Slicing, as [String.prototype.slice] and [Array.prototype.slice] do it *)

Module Slice.

(** A relative index: negative ones count from the end; the result is
    clamped to [0 .. len]. *)
Definition clamp (len i : Z) : Z :=
  if (i <? 0)%Z then Z.max (len + i) 0 else Z.min i len.

(** [xs.slice(start, end)] for integer arguments; [None] for an [end] left
    out. *)
Definition slice {A} (xs : list A) (start : Z) (end_ : option Z) : list A :=
  let len := Z.of_nat (List.length xs) in
  let from := clamp len start in
  let to := match end_ with
            | Some e => clamp len e
            | None => len
            end in
  firstn (Z.to_nat (Z.max (to - from) 0)) (skipn (Z.to_nat from) xs).

End Slice.

(** ** The helpers of the file browser (src/tui/components/FileBrowser.tsx)
       and of the progress dashboard *)

Module FileBrowser.
Import JS.

(** [homedir()] of node:os and [sep] of node:path. *)
Class Os := {
  homedir : string;
  sep : string
}.

(** [s.slice(n)] on a string, for [0 <= n]. *)
Fixpoint drop (n : nat) (s : string) : string :=
  match n, s with
  | O, _ => s
  | S n', String _ rest => drop n' rest
  | S _, EmptyString => EmptyString
  end.

Definition formatPath {os : Os} (path : string) : string :=
  let home := homedir in
  if String.eqb path home || String.prefix (home ++ sep) path
  then ("~" ++ drop (String.length home) path)%string
  else path.

(** Texts that may hold any UTF-16 code unit: the ellipsis is U+2026. *)
Definition code_unit := N.
Definition ustring := list code_unit.

Definition ellipsis : code_unit := 8230%N.

(** The code units of a string of the Latin-1 range. *)
Definition of_string (s : string) : ustring :=
  map N_of_ascii (list_ascii_of_string s).

(** [truncateText] of the file browser, for an integer width. *)
Definition truncateText (text : ustring) (maxWidth : Z) : ustring :=
  if (Z.of_nat (List.length text) <=? maxWidth)%Z then text
  else Slice.slice text 0 (Some (maxWidth - 1)%Z) ++ [ellipsis].

End FileBrowser.

Module ProgressDashboard.
Import FileBrowser.

(** [truncateText] of the progress dashboard, for an integer width. *)
Definition truncateText (text : ustring) (maxWidth : Z) : ustring :=
  if (Z.of_nat (List.length text) <=? maxWidth)%Z then text
  else if (maxWidth <=? 3)%Z then Slice.slice text 0 (Some maxWidth)
  else Slice.slice text 0 (Some (maxWidth - 1)%Z) ++ [ellipsis].

End ProgressDashboard.

(** ** Shared output formatting (plugins/agents/output-formatting.ts):
       [formatCommand] *)

Module AgentOutput.
Import JS.

(** [command.replace(/\n/g, ' ')] *)
Fixpoint replace_newlines (s : string) : string :=
  match s with
  | EmptyString => EmptyString
  | String c rest =>
      String (if Ascii.eqb c newline then " "%char else c) (replace_newlines rest)
  end.

(** [\w]: a letter, a digit or the underscore. *)
Definition is_word (c : ascii) : bool :=
  let n := nat_of_ascii c in
  ((48 <=? n)%nat && (n <=? 57)%nat) || ((65 <=? n)%nat && (n <=? 90)%nat)
  || ((97 <=? n)%nat && (n <=? 122)%nat) || (n =? 95)%nat.

(** The rest of a string after its longest head of characters satisfying
    [p], and whether that head is empty. *)
Fixpoint skip_while (p : ascii -> bool) (s : string) : string :=
  match s with
  | EmptyString => EmptyString
  | String c rest => if p c then skip_while p rest else s
  end.

Definition starts_with_a (p : ascii -> bool) (s : string) : bool :=
  match s with
  | EmptyString => false
  | String c _ => p c
  end.

(** One round of the group [\s*\w+=[^\s]*\s+] at the head of the string:
    what is left after it.  Every quantified class is followed by something
    outside the class, so only the longest run can match. *)
Definition env_assignment (s : string) : option string :=
  let s1 := skip_while is_space s in
  if negb (starts_with_a is_word s1) then None else
  match skip_while is_word s1 with
  | String "="%char s2 =>
      let s3 := skip_while (fun c => negb (is_space c)) s2 in
      if starts_with_a is_space s3 then Some (skip_while is_space s3) else None
  | _ => None
  end.

(** [/^(\s*\w+=[^\s]*\s+)+/]: as many rounds as there are; what is left
    after the match, [None] when there is no match. *)
Fixpoint env_assignments (fuel : nat) (s : string) : option string :=
  match fuel with
  | O => None
  | S fuel' =>
      match env_assignment s with
      | None => None
      | Some rest =>
          match env_assignments fuel' rest with
          | Some rest' => Some rest'
          | None => Some rest
          end
      end
  end.

Definition envVarPattern (s : string) : option string :=
  env_assignments (S (String.length s)) s.

(** [cmd.slice(0, n)] on a string. *)
Fixpoint take (n : nat) (s : string) : string :=
  match n, s with
  | S n', String c rest => String c (take n' rest)
  | _, _ => EmptyString
  end.

Definition formatCommand (command : string) : string :=
  let cmd := trim (replace_newlines command) in
  let cmd :=
    if includes cmd ";" then
      let parts := split ";"%char cmd in
      trim (last parts "")
    else cmd in
  let cmd :=
    match envVarPattern cmd with
    | Some rest => trim rest
    | None => cmd
    end in
  let cmd :=
    if (100 <? String.length cmd)%nat then (take 100 cmd ++ "...")%string
    else cmd in
  ("$ " ++ cmd)%string.

End AgentOutput.

(** ** Fuzzy search (src/utils/fuzzy-search.ts) *)

Module Fuzzy.
Import JS.

(** [basename] of node:path and [String.prototype.localeCompare], which
    depend on the platform and on the locale. *)
Class Env := {
  basename : string -> string;
  localeCompare : string -> string -> float
}.

(** [s.toLowerCase()] on the code units below 256: the letters A-Z, and
    U+00C0..U+00DE but the multiplication sign. *)
Definition lower_char (c : ascii) : ascii :=
  let n := nat_of_ascii c in
  if ((65 <=? n)%nat && (n <=? 90)%nat)
     || ((192 <=? n)%nat && (n <=? 222)%nat && negb (n =? 215)%nat)
  then ascii_of_nat (n + 32) else c.

Fixpoint toLowerCase (s : string) : string :=
  match s with
  | EmptyString => EmptyString
  | String c rest => String (lower_char c) (toLowerCase rest)
  end.

(** A length or a count as a number. *)
Definition number_of_nat (n : nat) : float :=
  PrimFloat.of_uint63 (Uint63.of_Z (Z.of_nat n)).

(** [Math.min(a, b)] *)
Definition Math_min (a b : float) : float :=
  if PrimFloat.is_nan a || PrimFloat.is_nan b then PrimFloat.nan
  else if PrimFloat.ltb a b then a
  else if PrimFloat.ltb b a then b
  else if PrimFloat.get_sign a then a else b.

Record FuzzyMatch := {
  item : string;
  score : float
}.

(** The [while] loop of [calculateSequentialScore]: what is left of the
    query when the item is used up, and the bonus collected. *)
Fixpoint scan (item query : string) (itemIndex consecutiveBonus lastMatchIndex : Z)
  : string * Z :=
  match item, query with
  | String c item', String q query' =>
      if Ascii.eqb c q then
        scan item' query' (itemIndex + 1)
             (if (itemIndex =? lastMatchIndex + 1)%Z
              then (consecutiveBonus + 10)%Z else consecutiveBonus)
             itemIndex
      else scan item' query (itemIndex + 1) consecutiveBonus lastMatchIndex
  | _, _ => (query, consecutiveBonus)
  end.

Definition calculateSequentialScore (item query : string) : float :=
  let '(unmatched, consecutiveBonus) := scan item query 0 0 (-2) in
  if (0 <? String.length unmatched)%nat then 0%float
  else
    let matchRatio := (number_of_nat (String.length query)
                       / number_of_nat (String.length item))%float in
    let baseScore := (50 + matchRatio * 50
                      + PrimFloat.of_uint63 (Uint63.of_Z consecutiveBonus))%float in
    Math_min 100 baseScore.

Section WithEnv.
Context {env : Env}.

Definition calculateScore (item query : string) : float :=
  let normalizedItem := toLowerCase item in
  let filename := toLowerCase (basename item) in
  if String.eqb normalizedItem query then 1000%float
  else if String.eqb filename query then 800%float
  else if String.prefix query filename then
    (600 + (number_of_nat (String.length query)
            / number_of_nat (String.length filename)) * 50)%float
  else if includes filename query then
    (400 + (number_of_nat (String.length query)
            / number_of_nat (String.length filename)) * 50)%float
  else if includes normalizedItem query then
    (200 + (number_of_nat (String.length query)
            / number_of_nat (String.length normalizedItem)) * 50)%float
  else
    let sequentialScore := calculateSequentialScore normalizedItem query in
    if PrimFloat.ltb 0 sequentialScore then sequentialScore
    else 0%float.

(** [items.sort()]: by code units.  Strings that compare equal are equal,
    so every sort gives this list. *)
Fixpoint insert_string (x : string) (sorted : list string) : list string :=
  match sorted with
  | [] => [x]
  | y :: rest =>
      if String.leb x y then x :: sorted else y :: insert_string x rest
  end.

Definition sort_strings (items : list string) : list string :=
  fold_right insert_string [] items.

(** [results.sort(compare)]: the sort is stable, so for a consistent
    comparator the outcome is that of a stable insertion: an element stays
    in front of the later ones unless the comparator puts one of them
    first. *)
Fixpoint insert_by {A} (compare : A -> A -> float) (x : A) (sorted : list A)
  : list A :=
  match sorted with
  | [] => [x]
  | y :: rest =>
      if PrimFloat.ltb 0 (compare x y) then y :: insert_by compare x rest
      else x :: sorted
  end.

Definition sort_by {A} (compare : A -> A -> float) (xs : list A) : list A :=
  fold_right (insert_by compare) [] xs.

(** The comparator of [fuzzySearch]: by score, higher first, then by
    [localeCompare]. *)
Definition by_score (a b : FuzzyMatch) : float :=
  if negb (PrimFloat.eqb (score b) (score a)) then (score b - score a)%float
  else localeCompare (item a) (item b).

(** [fuzzySearch], for an integer [limit] (the default of 10 is filled in
    by the caller). *)
Definition fuzzySearch (items : list string) (query : string) (limit : Z)
  : list FuzzyMatch :=
  if String.eqb query "" || (String.length (trim query) =? 0)%nat then
    map (fun item => {| item := item; score := 0 |})
        (Slice.slice (sort_strings items) 0 (Some limit))
  else
    let normalizedQuery := toLowerCase query in
    let results :=
      flat_map (fun item =>
                  let score := calculateScore item normalizedQuery in
                  if PrimFloat.ltb 0 score
                  then [{| item := item; score := score |}] else [])
               items in
    Slice.slice (sort_by by_score results) 0 (Some limit).

Definition fuzzyFilter (items : list string) (query : string) : list string :=
  map item (fuzzySearch items query (Z.of_nat (List.length items))).

(** The matches before sorting. *)
Definition candidates (items : list string) (q : string) : list FuzzyMatch :=
  flat_map (fun item =>
              let score := calculateScore item q in
              if PrimFloat.ltb 0 score
              then [{| item := item; score := score |}] else [])
           items.

End WithEnv.

(** The order of [items.sort()]. *)
Definition string_le (a b : string) : Prop := String.leb a b = true.

(** In order, not necessarily next to each other. *)
Inductive Subsequence : string -> string -> Prop :=
| subsequence_nil : forall s, Subsequence EmptyString s
| subsequence_take : forall c q s,
    Subsequence q s -> Subsequence (String c q) (String c s)
| subsequence_skip : forall c q s,
    Subsequence q s -> Subsequence q (String c s).

End Fuzzy.

(** ** Notions the theorems on the adapter are stated with *)

Module CodexNotions.
Import JS Codex.


(** The calls that forward a raw record. *)
Definition is_jsonl_call {fmt : OutputFormatting} (c : callback_call) : bool :=
  negb (is_display_call c).

End CodexNotions.

(** ** More hosts and inputs for the examples *)

Module Samples.
Import JS Reference.

(** A POSIX machine: [basename] drops trailing slashes and keeps what
    follows the last slash left. *)
Definition is_slash (c : ascii) : bool := Ascii.eqb c "/"%char.

Fixpoint strip_trailing_slashes (s : string) : string :=
  match s with
  | EmptyString => EmptyString
  | String c rest =>
      match strip_trailing_slashes rest with
      | EmptyString => if is_slash c then EmptyString else String c EmptyString
      | r => String c r
      end
  end.

Fixpoint after_last_slash (s : string) : string :=
  match s with
  | EmptyString => EmptyString
  | String c rest =>
      if includes rest "/" then after_last_slash rest
      else if is_slash c then rest else s
  end.

Definition posix_basename (path : string) : string :=
  after_last_slash (strip_trailing_slashes path).

(** Collation by code units. *)
Definition code_unit_compare (a b : string) : float :=
  match String.compare a b with
  | Lt => PrimFloat.opp 1
  | Eq => 0%float
  | Gt => 1%float
  end.

Definition posix : Fuzzy.Env :=
  {| Fuzzy.basename := posix_basename;
     Fuzzy.localeCompare := code_unit_compare |}.

Definition dev_home : FileBrowser.Os :=
  {| FileBrowser.homedir := "/home/dev"; FileBrowser.sep := "/" |}.

(** A base class that accepts every configuration, on a machine where the
    commands are found under /usr/local/bin. *)
Definition installed : CodexPlugin.BaseAgentPlugin :=
  {| CodexPlugin.super_initialize := fun _ b => Normal b;
     CodexPlugin.findCommandPath :=
       fun command => Normal (true, ("/usr/local/bin/" ++ command)%string) |}.

Definition fresh_base : CodexPlugin.base_fields :=
  {| CodexPlugin.commandPath := None; CodexPlugin.defaultTimeout := 0%float |}.

Definition review_config : CodexPlugin.config :=
  [("model", VStr "gpt-5"); ("fullAuto", VBool false);
   ("sandbox", VStr "read-only"); ("timeout", VNum 60000%float)].

Definition careless_config : CodexPlugin.config :=
  [("model", VStr ""); ("fullAuto", VStr "yes");
   ("sandbox", VStr "none"); ("timeout", VNum 0%float)].

Definition review_plugin : CodexPlugin.plugin :=
  {| CodexPlugin.base :=
       {| CodexPlugin.commandPath := None;
          CodexPlugin.defaultTimeout := 60000%float |};
     CodexPlugin.model := Some "gpt-5";
     CodexPlugin.fullAuto := false;
     CodexPlugin.sandbox := "read-only" |}.

(** The version output arriving in two pieces, then a clean exit. *)
Definition version_events : list CodexPlugin.proc_event :=
  [CodexPlugin.stdout_data "codex-cli 0.4";
   CodexPlugin.stdout_data "2.1";
   CodexPlugin.close_event (Some 0%Z)].

Definition version_found : CodexPlugin.version_result :=
  {| CodexPlugin.success := true;
     CodexPlugin.version := Some "0.42.1";
     CodexPlugin.error := None |}.

Definition codex_detected : CodexPlugin.detect_result :=
  {| CodexPlugin.available := true;
     CodexPlugin.detected_version := Some "0.42.1";
     CodexPlugin.executablePath := Some "/usr/local/bin/codex";
     CodexPlugin.detect_error := None |}.

Definition null_error_line : string := json "{'type':'tool_result','error':null}".

Definition null_error_props : list (string * value) :=
  [("type", VStr "tool_result"); ("error", VNull)].

Definition null_part_line : string :=
  json "{'type':'message','content':[{'type':'text','text':'kept?'},null]}".

Definition null_part_parts : list value :=
  [VObj [("type", VStr "text"); ("text", VStr "kept?")]; VNull].

Definition null_part_props : list (string * value) :=
  [("type", VStr "message"); ("content", VArr null_part_parts)].


Definition timed_out_sleeper : Process.ProcessResult :=
  {| Process.exitCode := Some 143%Z; Process.signal := Some "SIGTERM";
     Process.stdout := ""; Process.stderr := "";
     Process.success := false |}.

Definition prd_match : Fuzzy.FuzzyMatch :=
  {| Fuzzy.item := "src/prd.json"; Fuzzy.score := 618.75%float |}.

End Samples.

(* ===================================================================== *)
(** * Part II.  Lemmas and theorems                                       *)
(* ===================================================================== *)

(** ** Splitting and joining *)

Import JS Codex.

Section SplitFacts.
Variable sep : ascii.

Lemma split_not_nil (s : string) : split sep s <> [].
Proof.
  destruct s as [|c s]; simpl; [discriminate|].
  destruct (Ascii.eqb c sep); [discriminate|].
  destruct (split sep s); discriminate.
Qed.

Lemma unsplit_cons_inv c l :
  unsplit sep (String c l) -> Ascii.eqb c sep = false /\ unsplit sep l.
Proof.
  unfold unsplit; simpl.
  destruct (Ascii.eqb c sep).
  - intros H; inversion H.
  - destruct (split sep l) as [|x xs] eqn:E.
    + exfalso; eapply split_not_nil; eauto.
    + intros H; inversion H; subst; auto.
Qed.

Lemma split_pieces_unsplit (s : string) : Forall (unsplit sep) (split sep s).
Proof.
  induction s as [|c s IH]; simpl.
  - repeat constructor.
  - destruct (Ascii.eqb c sep) eqn:Ec.
    + constructor; [reflexivity | exact IH].
    + destruct (split sep s) as [|x xs] eqn:E.
      * repeat constructor. unfold unsplit; simpl. rewrite Ec. reflexivity.
      * inversion IH as [|? ? Hx Hxs]; subst.
        constructor; [|exact Hxs].
        unfold unsplit in *; simpl. rewrite Ec, Hx. reflexivity.
Qed.

Lemma split_app_sep l t :
  unsplit sep l -> split sep (l ++ String sep t)%string = l :: split sep t.
Proof.
  induction l as [|c l IH]; intros Hl; simpl.
  - rewrite Ascii.eqb_refl. reflexivity.
  - apply unsplit_cons_inv in Hl as [Ec Hl].
    rewrite Ec, (IH Hl). reflexivity.
Qed.

Lemma split_join (ls : list string) :
  ls <> [] -> Forall (unsplit sep) ls -> split sep (join sep ls) = ls.
Proof.
  induction ls as [|l rest IH]; intros Hne Hall; [congruence|].
  inversion Hall as [|? ? Hl Hrest]; subst.
  destruct rest as [|l' rest'].
  - exact Hl.
  - change (join sep (l :: l' :: rest'))
      with (l ++ String sep (join sep (l' :: rest')))%string.
    rewrite (split_app_sep _ _ Hl), IH; [reflexivity|discriminate|exact Hrest].
Qed.

(** Splitting a concatenation: the pieces of the first part but its last,
    then the pieces of that last piece followed by the second part. *)
Lemma split_app (a b : string) :
  split sep (a ++ b)%string =
  removelast (split sep a) ++ split sep (last (split sep a) "" ++ b)%string.
Proof.
  induction a as [|c a IH].
  - reflexivity.
  - cbn [split append].
    destruct (Ascii.eqb c sep) eqn:Ec.
    + rewrite IH.
      destruct (split sep a) as [|x xs] eqn:E;
        [exfalso; eapply split_not_nil; eauto|].
      reflexivity.
    + rewrite IH.
      destruct (split sep a) as [|x xs] eqn:E;
        [exfalso; eapply split_not_nil; eauto|].
      destruct xs as [|y ys].
      * cbn [removelast last app append split]. rewrite Ec. reflexivity.
      * reflexivity.
Qed.

Lemma endsWith_app (a d : string) :
  endsWith d sep = true -> endsWith (a ++ d)%string sep = true.
Proof.
  intros Hd. induction a as [|c a IH]; [exact Hd|].
  cbn [append]. simpl. destruct (a ++ d)%string eqn:E; [|exact IH].
  destruct a; destruct d; simpl in *; discriminate.
Qed.

Lemma split_single_empty (s : string) : split sep s = [""] -> s = "".
Proof.
  destruct s as [|c s]; [reflexivity|]. simpl.
  destruct (Ascii.eqb c sep).
  - intros H. inversion H as [H']. exfalso; eapply split_not_nil; eauto.
  - destruct (split sep s); discriminate.
Qed.

Lemma split_endsWith (s : string) :
  endsWith s sep = true -> last (split sep s) "" = "".
Proof.
  induction s as [|c s IH]; [discriminate|].
  intros H. cbn [split].
  destruct s as [|c' s'].
  - simpl in H. rewrite H. reflexivity.
  - assert (Hs : endsWith (String c' s') sep = true) by exact H.
    specialize (IH Hs).
    destruct (split sep (String c' s')) as [|x xs] eqn:E;
      [exfalso; eapply split_not_nil; eauto|].
    destruct (Ascii.eqb c sep).
    + exact IH.
    + destruct xs; [|exact IH].
      simpl in IH. subst x.
      apply split_single_empty in E. discriminate.
Qed.

End SplitFacts.

(** ** The Codex adapter *)

Section CodexFacts.
Context {rt : Runtime} {fmt : OutputFormatting}.

Lemma parseCodexJsonLine_returns (line : string) :
  exists evs, parseCodexJsonLine line = Normal evs.
Proof.
  unfold parseCodexJsonLine.
  destruct (String.eqb line "" || (String.length line =? 0)%nat); [eauto|].
  destruct (bind (JSON_parse line) (fun event => parseEvent event)); simpl; eauto.
Qed.

Lemma parseCodexJsonLine_events_of_record (record : string) :
  parseCodexJsonLine (trim record) = Normal (events_of_record record).
Proof.
  unfold events_of_record.
  destruct (parseCodexJsonLine_returns (trim record)) as [evs ->]. reflexivity.
Qed.

Lemma events_of_record_empty : events_of_record "" = [].
Proof. reflexivity. Qed.

Lemma within_limit_empty : within_limit "" = true.
Proof.
  unfold within_limit. rewrite events_of_record_empty.
  apply N.leb_le, N.le_0_l.
Qed.

(** The loop of [parseCodexOutputToEvents]: it gives the events of the
    lines, unless one of them has more events than a call takes. *)
Lemma parse_lines_from (lines : list string) (acc : list AgentDisplayEvent) :
  for_of (fun line allEvents =>
            bind (parseCodexJsonLine (trim line))
                 (fun events => push_spread allEvents events))
         lines acc
  = if forallb within_limit lines
    then Normal (acc ++ flat_map events_of_record lines)
    else Throw RangeError.
Proof.
  revert acc. induction lines as [|l ls IH]; intros acc; cbn [for_of forallb flat_map].
  - rewrite app_nil_r. reflexivity.
  - rewrite parseCodexJsonLine_events_of_record. cbn [bind].
    unfold push_spread, within_limit at 1.
    destruct (N.of_nat (List.length (events_of_record l)) <=? max_call_arguments)%N;
      cbn [bind andb]; [|reflexivity].
    rewrite IH, app_assoc. reflexivity.
Qed.

Lemma parseCodexOutputToEvents_lines (data : string) :
  parseCodexOutputToEvents data
  = if forallb within_limit (split newline data)
    then Normal (flat_map events_of_record (split newline data))
    else Throw RangeError.
Proof. unfold parseCodexOutputToEvents. apply parse_lines_from. Qed.

(** Joining complete lines and splitting them again loses no event. *)
Lemma events_of_joined (lines : list string) :
  Forall (unsplit newline) lines ->
  flat_map events_of_record (split newline (join newline lines))
  = flat_map events_of_record lines.
Proof.
  intros Hall. destruct lines as [|l ls].
  - reflexivity.
  - rewrite split_join; [reflexivity|discriminate|exact Hall].
Qed.

Lemma within_limit_joined (lines : list string) :
  Forall (unsplit newline) lines ->
  forallb within_limit (split newline (join newline lines))
  = forallb within_limit lines.
Proof.
  intros Hall. destruct lines as [|l ls].
  - cbn. rewrite within_limit_empty. reflexivity.
  - rewrite split_join; [reflexivity|discriminate|exact Hall].
Qed.

Lemma Forall_removelast {A} (P : A -> Prop) (l : list A) :
  Forall P l -> Forall P (removelast l).
Proof.
  induction 1 as [|x l Hx Hl IH]; simpl; [constructor|].
  destruct l; [constructor|]. constructor; assumption.
Qed.

Lemma pop_last (l : list string) :
  l <> [] -> pop l = (Some (last l ""), removelast l).
Proof.
  intros Hne. destruct (exists_last Hne) as [l' [x ->]].
  unfold pop. rewrite rev_app_distr. simpl.
  rewrite rev_involutive, last_last, removelast_last. reflexivity.
Qed.

Lemma flat_map_removelast_empty (l : list string) :
  l <> [] -> last l "" = "" ->
  flat_map events_of_record l = flat_map events_of_record (removelast l).
Proof.
  intros Hne Hlast. destruct (exists_last Hne) as [l' [x ->]].
  rewrite last_last in Hlast. subst x.
  rewrite removelast_last, flat_map_app. simpl. rewrite app_nil_r. reflexivity.
Qed.

Lemma within_limit_removelast_empty (l : list string) :
  l <> [] -> last l "" = "" ->
  forallb within_limit l = forallb within_limit (removelast l).
Proof.
  intros Hne Hlast. destruct (exists_last Hne) as [l' [x ->]].
  rewrite last_last in Hlast. subst x.
  rewrite removelast_last, forallb_app. cbn [forallb].
  rewrite within_limit_empty, andb_true_r. reflexivity.
Qed.

Lemma forwarded_records_app (l1 l2 : list string) :
  forwarded_records (l1 ++ l2) = forwarded_records l1 ++ forwarded_records l2.
Proof. unfold forwarded_records. apply flat_map_app. Qed.

Lemma forwarded_records_removelast_empty (l : list string) :
  l <> [] -> last l "" = "" ->
  forwarded_records l = forwarded_records (removelast l).
Proof.
  intros Hne Hlast. destruct (exists_last Hne) as [l' [x ->]].
  rewrite last_last in Hlast. subst x.
  rewrite removelast_last, forwarded_records_app. cbn. rewrite app_nil_r.
  reflexivity.
Qed.

(** The forwarding loop never throws, whatever the callback does: it makes
    one call per raw record. *)
Lemma forwardLine_calls (cb : callback value) (line : string)
    (calls : list callback_call) :
  forwardLine cb line calls = (calls ++ forwarded_records [line], Normal tt).
Proof.
  unfold forwardLine, forwarded_records. cbn [flat_map]. rewrite app_nil_r.
  destruct (negb (String.eqb (trim line) "") && startsWith (trim line) "{"%char);
    [|unfold ret; rewrite app_nil_r; reflexivity].
  unfold catch, then_, lift, invoke, ret.
  destruct (JSON_parse (trim line)) as [parsed|e].
  - destruct (cb calls parsed) as [[]|e]; reflexivity.
  - rewrite app_nil_r. reflexivity.
Qed.

Lemma for_each_forwardLine (cb : callback value) (lines : list string)
    (calls : list callback_call) :
  for_each (forwardLine cb) lines calls
  = (calls ++ forwarded_records lines, Normal tt).
Proof.
  revert calls. induction lines as [|l ls IH]; intros calls; cbn [for_each].
  - unfold ret. cbn. rewrite app_nil_r. reflexivity.
  - unfold then_. rewrite forwardLine_calls, IH.
    change (l :: ls) with ([l] ++ ls).
    rewrite forwarded_records_app, app_assoc. reflexivity.
Qed.

(** Callbacks that return: the events of a chunk reach the caller as the
    views of that chunk. *)
Lemma displayEvents_calls (options : AgentExecuteOptions)
    (events : list AgentDisplayEvent) (calls : list callback_call) :
  display_callbacks_return options ->
  displayEvents options events calls
  = (calls ++ views_of_chunk options events, Normal tt).
Proof.
  intros [Hseg Htext]. unfold displayEvents, views_of_chunk.
  destruct events as [|ev evs];
    [cbn; unfold ret; rewrite app_nil_r; reflexivity|].
  change (0 <? List.length (ev :: evs))%nat with true. cbv iota.
  unfold then_.
  destruct (onStdoutSegments options) as [cb1|] eqn:H1;
    destruct (onStdout options) as [cb2|] eqn:H2; cbn [supplied]; cbv zeta;
    repeat match goal with
           | |- context [processAgentEventsToSegments ?e] =>
               destruct (processAgentEventsToSegments e) eqn:?;
               cbn [List.length Nat.ltb Nat.leb]
           | |- context [processAgentEvents ?e] =>
               destruct (processAgentEvents e) eqn:?;
               cbn [String.length Nat.ltb Nat.leb String.eqb]
           end;
    unfold invoke, ret;
    rewrite ?(Hseg _ eq_refl), ?(Htext _ eq_refl), ?app_nil_r, <- ?app_assoc;
    reflexivity.
Qed.

(** One call of the wrapper: the buffer becomes the unterminated tail of
    buffer ++ chunk. *)
Lemma onStdout_wrapper_buffer (options : AgentExecuteOptions) (buf data : string) :
  fst (onStdout_wrapper options buf data) = pending_record (buf ++ data).
Proof.
  unfold onStdout_wrapper, pending_record.
  pose proof (split_not_nil newline (buf ++ data)) as Hne.
  destruct (endsWith data newline) eqn:Hend; cbn [negb].
  - cbn [fst]. symmetry.
    apply (split_endsWith newline), (endsWith_app newline buf data Hend).
  - rewrite (pop_last _ Hne). cbn [fst].
    destruct (last (split newline (buf ++ data)) "") eqn:E; reflexivity.
Qed.

(** What the wrapper forwards and parses are the completed records of
    buffer ++ chunk. *)
Lemma onStdout_wrapper_body (options : AgentExecuteOptions) (buf data : string)
    (calls : list callback_call) :
  snd (onStdout_wrapper options buf data) calls
  = then_ (lift (if forallb within_limit (completed_records (buf ++ data))
                 then Normal (events_of_completed_records (buf ++ data))
                 else Throw RangeError))
          (fun events => displayEvents options events)
          (calls ++ (if supplied (onJsonlMessage options)
                     then forwarded_records (completed_records (buf ++ data))
                     else [])).
Proof.
  unfold onStdout_wrapper, events_of_completed_records, completed_records.
  pose proof (split_not_nil newline (buf ++ data)) as Hne.
  pose proof (split_pieces_unsplit newline (buf ++ data)) as Hall.
  assert (Hforward : forall lines,
             (match onJsonlMessage options with
              | Some cb => for_each (forwardLine cb) lines
              | None => ret tt
              end) calls
             = (calls ++ (if supplied (onJsonlMessage options)
                          then forwarded_records lines else []), Normal tt)).
  { intros lines. destruct (onJsonlMessage options) as [cb|]; cbn [supplied].
    - apply for_each_forwardLine.
    - unfold ret. rewrite app_nil_r. reflexivity. }
  destruct (endsWith data newline) eqn:Hend; cbn [negb].
  - pose proof (split_endsWith newline _ (endsWith_app newline buf data Hend)) as Hlast.
    cbn [snd]. unfold then_ at 1. rewrite Hforward.
    rewrite parseCodexOutputToEvents_lines, (events_of_joined _ Hall),
      (within_limit_joined _ Hall).
    rewrite (flat_map_removelast_empty _ Hne Hlast),
      (within_limit_removelast_empty _ Hne Hlast),
      (forwarded_records_removelast_empty _ Hne Hlast).
    reflexivity.
  - rewrite (pop_last _ Hne). cbn [snd]. unfold then_ at 1. rewrite Hforward.
    rewrite parseCodexOutputToEvents_lines,
      (events_of_joined _ (Forall_removelast _ _ Hall)),
      (within_limit_joined _ (Forall_removelast _ _ Hall)).
    reflexivity.
Qed.

(** A chunk whose records are within the limit, handed to callbacks that
    return: the raw records are forwarded, then the views are delivered. *)
Lemma onStdout_wrapper_step (options : AgentExecuteOptions) (buf data : string)
    (calls : list callback_call) :
  display_callbacks_return options ->
  forallb within_limit (completed_records (buf ++ data)) = true ->
  snd (onStdout_wrapper options buf data) calls
  = (calls
     ++ (if supplied (onJsonlMessage options)
         then forwarded_records (completed_records (buf ++ data)) else [])
     ++ views_of_chunk options (events_of_completed_records (buf ++ data)),
     Normal tt).
Proof.
  intros Hret Hlimit. rewrite onStdout_wrapper_body, Hlimit.
  unfold then_, lift. rewrite (displayEvents_calls _ _ _ Hret), <- app_assoc.
  reflexivity.
Qed.

(** A chunk that completes a record beyond the limit: the raw records are
    forwarded, then the [RangeError] leaves the wrapper before any view is
    delivered. *)
Lemma onStdout_wrapper_beyond_limit (options : AgentExecuteOptions)
    (buf data : string) (calls : list callback_call) :
  forallb within_limit (completed_records (buf ++ data)) = false ->
  snd (onStdout_wrapper options buf data) calls
  = (calls
     ++ (if supplied (onJsonlMessage options)
         then forwarded_records (completed_records (buf ++ data)) else []),
     Throw RangeError).
Proof.
  intros Hlimit. rewrite onStdout_wrapper_body, Hlimit. reflexivity.
Qed.

End CodexFacts.

Section ExecuteFacts.
Context {rt : Runtime} {fmt : OutputFormatting}.

Lemma last_app_nonempty {A} (l l' : list A) (d : A) :
  l' <> [] -> last (l ++ l') d = last l' d.
Proof.
  intros Hne. induction l as [|x l IH]; [reflexivity|].
  cbn [app]. rewrite <- IH. simpl.
  destruct (l ++ l') eqn:E; [|reflexivity].
  apply app_eq_nil in E as [_ E]. contradiction.
Qed.

Lemma pending_record_app (stream data : string) :
  pending_record (stream ++ data) = pending_record (pending_record stream ++ data).
Proof.
  unfold pending_record. rewrite (split_app newline stream data).
  apply last_app_nonempty. apply split_not_nil.
Qed.

Lemma completed_records_app (stream data : string) :
  completed_records (stream ++ data)
  = completed_records stream ++ completed_records (pending_record stream ++ data).
Proof.
  unfold completed_records, pending_record.
  rewrite (split_app newline stream data).
  apply removelast_app. apply split_not_nil.
Qed.

Lemma events_of_completed_records_app (stream data : string) :
  events_of_completed_records (stream ++ data)
  = events_of_completed_records stream
    ++ events_of_completed_records (pending_record stream ++ data).
Proof.
  unfold events_of_completed_records.
  rewrite completed_records_app, flat_map_app. reflexivity.
Qed.

Lemma append_assoc (a b c : string) : ((a ++ b) ++ c = a ++ (b ++ c))%string.
Proof. induction a as [|x a IH]; simpl; [reflexivity|]. rewrite IH. reflexivity. Qed.

Lemma append_empty_r (a : string) : (a ++ "")%string = a.
Proof. induction a as [|x a IH]; simpl; [reflexivity|]. rewrite IH. reflexivity. Qed.

(** The records the chunks complete one after the other are the completed
    records of everything received, and so are their events. *)
Lemma records_per_chunk_concat (chunks : list string) (stream : string) :
  completed_records stream
  ++ concat (records_per_chunk (pending_record stream) chunks)
  = completed_records (stream ++ received chunks).
Proof.
  revert stream. induction chunks as [|data chunks IH]; intros stream.
  - cbn. rewrite app_nil_r, append_empty_r. reflexivity.
  - cbn [records_per_chunk concat received fold_right].
    rewrite <- pending_record_app, app_assoc, <- completed_records_app, IH,
      append_assoc.
    reflexivity.
Qed.

Lemma events_per_chunk_records (chunks : list string) (buffer : string) :
  events_per_chunk buffer chunks
  = map (flat_map events_of_record) (records_per_chunk buffer chunks).
Proof.
  revert buffer. induction chunks as [|data chunks IH]; intros buffer;
    [reflexivity|].
  cbn [events_per_chunk records_per_chunk map]. rewrite IH. reflexivity.
Qed.

Lemma concat_map_flat_map {A B} (f : A -> list B) (xss : list (list A)) :
  concat (map (flat_map f) xss) = flat_map f (concat xss).
Proof.
  induction xss as [|xs xss IH]; [reflexivity|].
  cbn [map flat_map concat]. rewrite flat_map_app, IH. reflexivity.
Qed.

Lemma events_per_chunk_concat (chunks : list string) :
  concat (events_per_chunk "" chunks)
  = events_of_completed_records (received chunks).
Proof.
  rewrite events_per_chunk_records.
  unfold events_of_completed_records.
  pose proof (records_per_chunk_concat chunks "") as Hrecords.
  change (concat (records_per_chunk "" chunks)
          = completed_records (received chunks)) in Hrecords.
  rewrite <- Hrecords. apply concat_map_flat_map.
Qed.

Lemma forwarded_records_no_display (lines : list string) :
  filter is_display_call (forwarded_records lines) = [].
Proof.
  unfold forwarded_records. induction lines as [|l ls IH]; [reflexivity|].
  cbn [flat_map]. rewrite filter_app, IH, app_nil_r.
  destruct (negb (String.eqb (trim l) "") && startsWith (trim l) "{"%char);
    [|reflexivity].
  destruct (JSON_parse (trim l)); reflexivity.
Qed.

Lemma views_of_chunk_all_display (options : AgentExecuteOptions)
    (events : list AgentDisplayEvent) :
  filter is_display_call (views_of_chunk options events)
  = views_of_chunk options events.
Proof.
  unfold views_of_chunk. destruct events as [|ev evs]; [reflexivity|].
  rewrite filter_app. f_equal.
  - destruct (supplied (onStdoutSegments options)); [|reflexivity].
    destruct (processAgentEventsToSegments (ev :: evs)); reflexivity.
  - destruct (supplied (onStdout options)); [|reflexivity].
    destruct (String.eqb (processAgentEvents (ev :: evs)) ""); reflexivity.
Qed.

Lemma display_calls_of_chunks (options : AgentExecuteOptions)
    (records : list (list string)) :
  filter is_display_call (flat_map (calls_of_chunk options) records)
  = views options (map (flat_map events_of_record) records).
Proof.
  unfold views. induction records as [|r rs IH]; [reflexivity|].
  cbn [flat_map map]. rewrite filter_app, IH. f_equal.
  unfold calls_of_chunk. rewrite filter_app, views_of_chunk_all_display.
  destruct (supplied (onJsonlMessage options)); [|reflexivity].
  rewrite forwarded_records_no_display. reflexivity.
Qed.

(** The invariant of an execution whose wrapper is installed, whose display
    callbacks return and whose records are within the limit. *)
Lemma execute_from (options : AgentExecuteOptions) :
  supplied (onStdout options) || supplied (onStdoutSegments options)
  || supplied (onJsonlMessage options) = true ->
  display_callbacks_return options ->
  forall (chunks : list string) (st : execution) (stream : string),
    thrown st = None ->
    jsonlBuffer st = pending_record stream ->
    forallb within_limit
            (concat (records_per_chunk (pending_record stream) chunks)) = true ->
    let st' := fold_left (fun st data => deliver options data st) chunks st in
    thrown st' = None /\
    jsonlBuffer st' = pending_record (stream ++ received chunks) /\
    called st'
    = called st
      ++ flat_map (calls_of_chunk options)
                  (records_per_chunk (pending_record stream) chunks).
Proof.
  intros Hcb Hret. induction chunks as [|data chunks IH];
    intros st stream Hthrown Hbuf Hlimit.
  - cbn. rewrite append_empty_r, app_nil_r. auto.
  - cbn [fold_left records_per_chunk concat flat_map received fold_right] in *.
    rewrite forallb_app in Hlimit. apply andb_true_iff in Hlimit as [Hl1 Hl2].
    assert (Hstep : deliver options data st
                    = {| jsonlBuffer := pending_record (stream ++ data);
                         called := called st
                                   ++ calls_of_chunk options
                                        (completed_records
                                           (pending_record stream ++ data));
                         thrown := None |}).
    { unfold deliver, parsedOptions_onStdout. rewrite Hthrown, Hcb.
      pose proof (onStdout_wrapper_buffer options (jsonlBuffer st) data) as Hb.
      pose proof (onStdout_wrapper_step options (jsonlBuffer st) data (called st)
                    Hret) as Hs.
      rewrite Hbuf in Hb, Hs |- *. specialize (Hs Hl1).
      destruct (onStdout_wrapper options (pending_record stream) data)
        as [buffer body].
      cbn [fst snd] in Hb, Hs. rewrite Hs, Hb, <- pending_record_app.
      reflexivity. }
    rewrite Hstep.
    cbv zeta in *.
    match goal with
    | |- context [fold_left _ chunks ?s] =>
        specialize (IH s (stream ++ data)%string eq_refl eq_refl)
    end.
    rewrite <- pending_record_app in Hl2. specialize (IH Hl2).
    cbv zeta in *. destruct IH as [Ht [Hb Hc]].
    split; [exact Ht|]. split.
    + rewrite Hb, append_assoc. reflexivity.
    + rewrite Hc. cbn [called]. rewrite <- app_assoc, <- pending_record_app.
      reflexivity.
Qed.

(** Without any callback nothing is parsed and nothing is called. *)
Lemma execute_without_callbacks (options : AgentExecuteOptions) (chunks : list string) :
  supplied (onStdout options) || supplied (onStdoutSegments options)
  || supplied (onJsonlMessage options) = false ->
  execute options chunks = execute_start.
Proof.
  intros Hcb. unfold execute. generalize execute_start.
  induction chunks as [|data chunks IH]; intros st; [reflexivity|].
  cbn [fold_left].
  assert (Hstep : deliver options data st = st).
  { unfold deliver, parsedOptions_onStdout. rewrite Hcb.
    destruct (thrown st); reflexivity. }
  rewrite Hstep. apply IH.
Qed.

Lemma execute_calls (options : AgentExecuteOptions) (chunks : list string) :
  supplied (onStdout options) || supplied (onStdoutSegments options)
  || supplied (onJsonlMessage options) = true ->
  display_callbacks_return options ->
  forallb within_limit (completed_records (received chunks)) = true ->
  thrown (execute options chunks) = None /\
  jsonlBuffer (execute options chunks) = pending_record (received chunks) /\
  called (execute options chunks)
  = flat_map (calls_of_chunk options) (records_per_chunk "" chunks).
Proof.
  intros Hcb Hret Hlimit.
  pose proof (records_per_chunk_concat chunks "") as Hrecords.
  change (concat (records_per_chunk "" chunks)
          = completed_records (received chunks)) in Hrecords.
  rewrite <- Hrecords in Hlimit.
  exact (execute_from options Hcb Hret chunks execute_start "" eq_refl eq_refl
           Hlimit).
Qed.

(** C1, as the code has it: whatever the stdout chunks handed to the Codex
    plugin's [execute] (with some callback supplied, so that the wrapper is
    installed), when the display callbacks return normally and no completed
    record yields more events than a call takes arguments, no exception
    leaves the handler; the unterminated tail is what stays in the buffer;
    the caller receives, chunk by chunk, the views of exactly the events of
    the records that chunk completed; these events, chunk after chunk, are
    the events of the completed records of everything received, each once
    and in order; and they are the events whose views the caller receives
    when the whole stream arrives as one chunk. *)
Theorem execute_events_of_completed_records
    (options : AgentExecuteOptions) (chunks : list string) :
  supplied (onStdout options) || supplied (onStdoutSegments options)
  || supplied (onJsonlMessage options) = true ->
  display_callbacks_return options ->
  forallb within_limit (completed_records (received chunks)) = true ->
  thrown (execute options chunks) = None /\
  jsonlBuffer (execute options chunks) = pending_record (received chunks) /\
  filter is_display_call (called (execute options chunks))
  = views options (events_per_chunk "" chunks) /\
  concat (events_per_chunk "" chunks)
  = events_of_completed_records (received chunks) /\
  thrown (execute options [received chunks]) = None /\
  jsonlBuffer (execute options [received chunks])
  = pending_record (received chunks) /\
  filter is_display_call (called (execute options [received chunks]))
  = views options [events_of_completed_records (received chunks)].
Proof.
  intros Hcb Hret Hlimit.
  destruct (execute_calls options chunks Hcb Hret Hlimit) as [Ht [Hb Hc]].
  assert (Hwhole : received [received chunks] = received chunks)
    by (cbn; apply append_empty_r).
  assert (Hlimit1 : forallb within_limit
                      (completed_records (received [received chunks])) = true)
    by (rewrite Hwhole; exact Hlimit).
  destruct (execute_calls options [received chunks] Hcb Hret Hlimit1)
    as [Ht1 [Hb1 Hc1]].
  rewrite Hwhole in Hb1.
  split; [exact Ht|]. split; [exact Hb|]. split.
  { rewrite Hc, display_calls_of_chunks, events_per_chunk_records. reflexivity. }
  split; [apply events_per_chunk_concat|].
  split; [exact Ht1|]. split; [exact Hb1|].
  rewrite Hc1, display_calls_of_chunks. reflexivity.
Qed.

End ExecuteFacts.

Section ParserFacts.
Context {rt : Runtime}.

(** C6: [parseCodexJsonLine] is total: for every line it returns a list of
    events and never throws; a line [JSON.parse] refuses yields the empty
    list, and so does a parsed record whose shape is none of the recognized
    ones. *)
Theorem parseCodexJsonLine_total (line : string) :
  exists evs,
    parseCodexJsonLine line = Normal evs /\
    match JSON_parse line with
    | Throw _ => evs = []
    | Normal event => if recognized_shape event then True else evs = []
    end.
Proof.
  unfold parseCodexJsonLine.
  destruct (String.eqb line "" || (String.length line =? 0)%nat).
  - exists []. split; [reflexivity|].
    destruct (JSON_parse line) as [event|]; [|reflexivity].
    destruct (recognized_shape event); auto.
  - destruct (JSON_parse line) as [event|e]; cbn [bind try_catch].
    + destruct (recognized_shape event) eqn:Hshape.
      * destruct (parseEvent event); simpl; eauto.
      * exists []. split; [|reflexivity].
        destruct event as [| |b|n|s|elems|props]; try reflexivity.
        cbn [recognized_shape] in Hshape.
        repeat (apply orb_false_iff in Hshape as [Hshape ?]).
        unfold parseEvent, cond_or, cond_and. cbn [get bind].
        repeat match goal with
               | H : ?b = false |- context [?b] => rewrite H; cbn [bind orb andb]
               end.
        destruct (is_str (lookup "type" props) "text"); cbn [bind andb] in *;
        repeat match goal with
               | H : ?b = false |- context [?b] => rewrite H; cbn [bind orb andb]
               end; reflexivity.
    + exists []. split; reflexivity.
Qed.

(** C10: a line that parses to a record of message kind whose [role] is
    ['user'] (an echo of the input prompt) yields no display event. *)
Theorem user_message_yields_no_events (line : string) (event : value) :
  JSON_parse line = Normal event ->
  is_message_record event = true ->
  role_of event = VStr "user" ->
  parseCodexJsonLine line = Normal [].
Proof.
  intros Hparse Hmsg Hrole.
  unfold parseCodexJsonLine.
  destruct (String.eqb line "" || (String.length line =? 0)%nat); [reflexivity|].
  rewrite Hparse. cbn [bind].
  destruct event as [| |b|n|s|elems|props]; try discriminate.
  cbn [is_message_record role_of] in *.
  unfold parseEvent, cond_or. cbn [get bind]. rewrite Hrole.
  destruct (is_str (lookup "type" props) "message"); cbn [bind orb] in *.
  - reflexivity.
  - rewrite Hmsg. reflexivity.
Qed.

End ParserFacts.

(** *** The adapter on concrete input, under the reference runtime *)

Import Reference PlainFormatting Inputs.

Example execute_demo_chunks :
  @execute Reference.runtime PlainFormatting.formatting demo_options demo_chunks
  = {| jsonlBuffer := (json "{'type':'te");
       called := [call_onStdoutSegments ["hello"]; call_onStdout "hello"];
       thrown := None |}.
Proof. vm_compute. reflexivity. Qed.

Example execute_demo_whole :
  @execute Reference.runtime PlainFormatting.formatting demo_options
           [received demo_chunks]
  = {| jsonlBuffer := (json "{'type':'te");
       called := [call_onStdoutSegments ["hello"]; call_onStdout "hello"];
       thrown := None |}.
Proof. vm_compute. reflexivity. Qed.

Example events_of_demo_chunks :
  @events_per_chunk Reference.runtime "" demo_chunks
  = [[]; [text (VStr "hello")]; [tool_use (VStr "bash") (VStr "ls")]].
Proof. vm_compute. reflexivity. Qed.

(** With the events shown as they are, the caller receives the events of
    each chunk's completed records, and nothing for a chunk that completes
    none. *)
Example execute_demo_raw :
  @execute Reference.runtime raw_formatting segments_only demo_chunks
  = {| jsonlBuffer := (json "{'type':'te");
       called := [@call_onStdoutSegments raw_formatting [text (VStr "hello")];
                  @call_onStdoutSegments raw_formatting
                    [tool_use (VStr "bash") (VStr "ls")]];
       thrown := None |}.
Proof. vm_compute. reflexivity. Qed.

(** A tracer that fails costs nothing: its throw is caught with the parse. *)
Example execute_failing_tracer :
  @execute Reference.runtime PlainFormatting.formatting failing_tracer
           [hello_chunk; "not a record"; hello_chunk]
  = {| jsonlBuffer := "";
       called := [call_onJsonlMessage (VObj [("type", VStr "text");
                                             ("text", VStr "hello")])];
       thrown := None |}.
Proof. vm_compute. reflexivity. Qed.

Lemma demo_options_return :
  @display_callbacks_return PlainFormatting.formatting demo_options.
Proof. split; intros cb H; injection H as <-; reflexivity. Qed.

Lemma execute_events_of_completed_records_witness :
  supplied (onStdout demo_options) || supplied (onStdoutSegments demo_options)
  || supplied (onJsonlMessage demo_options) = true /\
  display_callbacks_return demo_options /\
  forallb (@within_limit Reference.runtime)
          (completed_records (received demo_chunks)) = true /\
  thrown (@execute Reference.runtime PlainFormatting.formatting
            demo_options demo_chunks) = None /\
  jsonlBuffer (@execute Reference.runtime PlainFormatting.formatting
                 demo_options demo_chunks) = (json "{'type':'te") /\
  filter is_display_call
         (called (@execute Reference.runtime PlainFormatting.formatting
                    demo_options demo_chunks))
  = [call_onStdoutSegments ["hello"]; call_onStdout "hello"] /\
  @events_of_completed_records Reference.runtime (received demo_chunks)
  = [text (VStr "hello"); tool_use (VStr "bash") (VStr "ls")].
Proof.
  assert (Hcb : supplied (onStdout demo_options)
                || supplied (onStdoutSegments demo_options)
                || supplied (onJsonlMessage demo_options) = true) by reflexivity.
  assert (Hlimit : forallb (@within_limit Reference.runtime)
                     (completed_records (received demo_chunks)) = true)
    by (vm_compute; reflexivity).
  split; [exact Hcb|]. split; [exact demo_options_return|].
  split; [exact Hlimit|].
  destruct (@execute_events_of_completed_records Reference.runtime
              PlainFormatting.formatting demo_options demo_chunks
              Hcb demo_options_return Hlimit)
    as [Hthrown [Hbuf [Hviews [Hevents _]]]].
  split; [exact Hthrown|].
  split; [rewrite Hbuf; vm_compute; reflexivity|].
  split; [rewrite Hviews; vm_compute; reflexivity|].
  rewrite <- Hevents. vm_compute. reflexivity.
Defined.

(** The claim C1 fails here, in two ways.  First, a caller that asked for
    both views and whose segments callback throws: the record is completed
    and taken out of the buffer, its event is handed to the segments
    callback, whose exception leaves the wrapper, and the text callback is
    never called, so the joined text does not reflect the event.  Second, on
    an engine that takes eight arguments at most, a record with nine parts:
    the [RangeError] of the spread leaves the wrapper and the nine events
    reach nobody, while the record before it reaches the caller or not
    according to where the stream was cut. *)
Lemma execute_completed_records_counterexample :
  (supplied (onStdout failing_renderer)
   || supplied (onStdoutSegments failing_renderer)
   || supplied (onJsonlMessage failing_renderer) = true /\
   @events_of_completed_records Reference.runtime hello_chunk
   = [text (VStr "hello")] /\
   @execute Reference.runtime PlainFormatting.formatting failing_renderer
            [hello_chunk]
   = {| jsonlBuffer := "";
        called := [call_onStdoutSegments ["hello"]];
        thrown := Some (Error "render failed") |} /\
   ~ (filter is_display_call
             (called (@execute Reference.runtime PlainFormatting.formatting
                        failing_renderer [hello_chunk]))
      = views failing_renderer
              (@events_per_chunk Reference.runtime "" [hello_chunk]))) /\
  (List.length (@events_of_completed_records tight_runtime nine_parts_chunk) = 9 /\
   @execute tight_runtime PlainFormatting.formatting demo_options
            [hello_chunk; nine_parts_chunk]
   = {| jsonlBuffer := "";
        called := [call_onStdoutSegments ["hello"]; call_onStdout "hello"];
        thrown := Some RangeError |} /\
   @execute tight_runtime PlainFormatting.formatting demo_options
            [received [hello_chunk; nine_parts_chunk]]
   = {| jsonlBuffer := ""; called := []; thrown := Some RangeError |} /\
   ~ (filter is_display_call
             (called (@execute tight_runtime PlainFormatting.formatting
                        demo_options [received [hello_chunk; nine_parts_chunk]]))
      = views demo_options
              [@events_of_completed_records tight_runtime
                 (received [hello_chunk; nine_parts_chunk])])).
Proof.
  split.
  - split; [reflexivity|]. split; [vm_compute; reflexivity|].
    split; [vm_compute; reflexivity|].
    vm_compute. discriminate.
  - split; [vm_compute; reflexivity|]. split; [vm_compute; reflexivity|].
    split; [vm_compute; reflexivity|].
    vm_compute. discriminate.
Qed.

Example parse_assistant_message :
  @parseCodexJsonLine Reference.runtime
    (json "{'type':'message','role':'assistant','content':[{'type':'text','text':'done'},{'type':'tool_use','name':'read','input':{'path':'a.ts'}}]}")
  = Normal [text (VStr "done");
            tool_use (VStr "read") (VObj [("path", VStr "a.ts")])].
Proof. vm_compute. reflexivity. Qed.

Example parse_tool_result_error :
  @parseCodexJsonLine Reference.runtime
    (json "{'type':'function_call_output','error':{'message':'denied'}}")
  = Normal [error "denied"; tool_result].
Proof. vm_compute. reflexivity. Qed.

Example parse_not_json :
  @parseCodexJsonLine Reference.runtime "Reading prompt from stdin..." = Normal [].
Proof. vm_compute. reflexivity. Qed.

Example parse_null_record :
  @parseCodexJsonLine Reference.runtime "null" = Normal [].
Proof. vm_compute. reflexivity. Qed.

Example parse_null_part_discards_all :
  @parseCodexJsonLine Reference.runtime
    (json "{'type':'message','content':[{'type':'text','text':'kept?'},null]}")
  = Normal [].
Proof. vm_compute. reflexivity. Qed.

Example parse_unrecognized_shape :
  @parseCodexJsonLine Reference.runtime (json "{'type':'session.created','id':7}")
  = Normal [].
Proof. vm_compute. reflexivity. Qed.

Lemma user_message_yields_no_events_witness :
  @JSON_parse Reference.runtime user_echo_line = Normal user_echo_record /\
  is_message_record user_echo_record = true /\
  role_of user_echo_record = VStr "user" /\
  @parseCodexJsonLine Reference.runtime user_echo_line = Normal [].
Proof.
  assert (Hparse : @JSON_parse Reference.runtime user_echo_line
                   = Normal user_echo_record) by (vm_compute; reflexivity).
  split; [exact Hparse|]. split; [reflexivity|]. split; [reflexivity|].
  apply (@user_message_yields_no_events Reference.runtime
           user_echo_line user_echo_record Hparse); reflexivity.
Defined.

(** ** Sandbox detection *)

Section SandboxFacts.
Import Sandbox.
Context {host : Sandbox.Host}.

Lemma commandExists_found (command : string) :
  trim command <> "" ->
  commandExists command = Normal (found_on_PATH command).
Proof.
  intros Hne. unfold commandExists, found_on_PATH.
  destruct (String.eqb_spec command "") as [->|_]; [exfalso; apply Hne; reflexivity|].
  destruct (String.eqb_spec (trim command) "") as [E|_]; [contradiction|].
  cbn [orb].
  destruct (spawn_exited _); reflexivity.
Qed.

Lemma commandExists_returns (command : string) :
  exists found, commandExists command = Normal found.
Proof.
  unfold commandExists.
  destruct (String.eqb command "" || String.eqb (trim command) ""); [eauto|].
  destruct (spawn_exited _); simpl; eauto.
Qed.

(** C5: resolving 'auto' never throws and never gives 'auto'; on Linux it
    gives 'bwrap' exactly when [bwrap] is found on PATH and 'off' otherwise,
    on macOS 'sandbox-exec' exactly when [sandbox-exec] is found and 'off'
    otherwise, and 'off' on every other platform. *)
Theorem detectSandboxMode_resolves_auto :
  exists mode,
    detectSandboxMode = Normal mode /\
    mode <> "auto" /\
    (platform = "linux" ->
     mode = if found_on_PATH "bwrap" then "bwrap" else "off") /\
    (platform = "darwin" ->
     mode = if found_on_PATH "sandbox-exec" then "sandbox-exec" else "off") /\
    (platform <> "linux" -> platform <> "darwin" -> mode = "off").
Proof.
  unfold detectSandboxMode.
  destruct (String.eqb_spec platform "linux") as [Hl|Hl].
  - rewrite commandExists_found by (vm_compute; discriminate).
    cbn [bind].
    assert (Hd : String.eqb platform "darwin" = false)
      by (rewrite Hl; reflexivity).
    rewrite Hd. cbn [bind].
    destruct (found_on_PATH "bwrap"); eexists; (split; [reflexivity|]);
      (split; [discriminate|]); (split; [reflexivity|]);
      (split; [intros Hx; rewrite Hl in Hx; discriminate | intros Hx; contradiction]).
  - cbn [bind].
    destruct (String.eqb_spec platform "darwin") as [Hd|Hd].
    + rewrite commandExists_found by (vm_compute; discriminate).
      cbn [bind].
      destruct (found_on_PATH "sandbox-exec"); eexists; (split; [reflexivity|]);
        (split; [discriminate|]); (split; [intros Hx; contradiction|]);
        (split; [reflexivity | intros _ Hx; contradiction]).
    + cbn [bind]. eexists; (split; [reflexivity|]);
        (split; [discriminate|]); (split; [intros Hx; contradiction|]);
        (split; [intros Hx; contradiction | reflexivity]).
Qed.

End SandboxFacts.

(** *** Detection on concrete hosts *)

Example detect_linux_with_bwrap :
  @Sandbox.detectSandboxMode linux_with_bwrap = Normal "bwrap".
Proof. reflexivity. Qed.

Example detect_linux_bare :
  @Sandbox.detectSandboxMode linux_bare = Normal "off".
Proof. reflexivity. Qed.

Example detect_linux_spawn_failing :
  @Sandbox.detectSandboxMode linux_spawn_failing = Normal "off".
Proof. reflexivity. Qed.

Example detect_macos :
  @Sandbox.detectSandboxMode macos = Normal "sandbox-exec".
Proof. reflexivity. Qed.

Example detect_windows :
  @Sandbox.detectSandboxMode windows_with_everything = Normal "off".
Proof. reflexivity. Qed.

Example commandExists_blank :
  @Sandbox.commandExists windows_with_everything "   " = Normal false.
Proof. reflexivity. Qed.

Lemma detectSandboxMode_resolves_auto_witness :
  exists mode,
    @Sandbox.detectSandboxMode linux_with_bwrap = Normal mode /\
    mode <> "auto" /\
    mode = "bwrap".
Proof.
  destruct (@detectSandboxMode_resolves_auto linux_with_bwrap)
    as [mode [Hrun [Hauto [Hlinux _]]]].
  exists mode. split; [exact Hrun|]. split; [exact Hauto|].
  exact (Hlinux eq_refl).
Defined.

(** ** The process runner *)

Section ProcessFacts.
Import Process.
Context {host : Process.Host}.

(** The runner's promise never rejects. *)
Lemma runProcess_never_rejects command args options :
  forall e, runProcess command args options <> rejected e.
Proof.
  intros e. unfold runProcess.
  destruct (Bun_spawn _ _ _) as [proc|error]; [|discriminate].
  match goal with |- try_await ?b _ <> _ => destruct b end; discriminate.
Qed.

(** Every result has [success] exactly when the exit code is 0. *)
Lemma runProcess_success_iff command args options r :
  runProcess command args options = fulfilled r ->
  success r = true <-> exitCode r = Some 0%Z.
Proof.
  unfold runProcess.
  destruct (Bun_spawn _ _ _) as [proc|error].
  - set (seen := if _ : bool then signalled proc else undisturbed proc).
    destruct (stdout_text seen) as [out|e|]; cbn [await try_await];
      [|intros H; inversion H; subst; cbn; split; discriminate|discriminate].
    destruct (stderr_text seen) as [err|e|]; cbn [await try_await];
      [|intros H; inversion H; subst; cbn; split; discriminate|discriminate].
    destruct (exited seen) as [code|e|]; cbn [await try_await];
      [|intros H; inversion H; subst; cbn; split; discriminate|discriminate].
    intros H; inversion H; subst; cbn.
    rewrite Z.eqb_eq. split; [intros ->; reflexivity | intros E; inversion E; reflexivity].
  - intros H; inversion H; subst; cbn; split; discriminate.
Qed.

(** C4, as the code has it: the runner never raises; a spawn failure
    resolves to [success=false] with the error's message in [stderr]; every
    result has [success] exactly when the exit code is 0; a child that is
    not timed out (no positive timeout, or it ends within it) gives a result
    with its own output and exit code and no signal, so a non-zero exit
    gives [success=false] with that exit code; when [timeout>0] and the
    child outlives the bound, once the output and exit of the signalled
    child are read the result has [signal='SIGTERM'], and [success=false]
    exactly when the exit code the signalled child reports is not 0; and an
    error raised while the output or the exit is awaited resolves to
    [success=false] with its message in [stderr]. *)
Theorem runProcess_outcomes command args options :
  (forall e, runProcess command args options <> rejected e) /\
  (forall error,
      Bun_spawn (command :: args) (cwd options) (env options) = Throw error ->
      runProcess command args options =
      fulfilled {| exitCode := None; signal := None; stdout := "";
                   stderr := exn_message error; success := false |}) /\
  (forall r,
      runProcess command args options = fulfilled r ->
      (success r = true <-> exitCode r = Some 0%Z)) /\
  (forall proc out err code,
      Bun_spawn (command :: args) (cwd options) (env options) = Normal proc ->
      (0 < timeout_of options)%Z ->
      outlives proc (timeout_of options) = true ->
      stdout_text (signalled proc) = fulfilled out ->
      stderr_text (signalled proc) = fulfilled err ->
      exited (signalled proc) = fulfilled code ->
      runProcess command args options =
      fulfilled {| exitCode := Some code; signal := Some "SIGTERM";
                   stdout := out; stderr := err;
                   success := Z.eqb code 0 |}) /\
  (forall proc out err code,
      Bun_spawn (command :: args) (cwd options) (env options) = Normal proc ->
      (timeout_of options <= 0)%Z \/ outlives proc (timeout_of options) = false ->
      stdout_text (undisturbed proc) = fulfilled out ->
      stderr_text (undisturbed proc) = fulfilled err ->
      exited (undisturbed proc) = fulfilled code ->
      runProcess command args options =
      fulfilled {| exitCode := Some code; signal := None;
                   stdout := out; stderr := err;
                   success := Z.eqb code 0 |} /\
      (code <> 0%Z ->
       exists r, runProcess command args options = fulfilled r /\
                 success r = false /\ exitCode r = Some code)) /\
  (forall proc error,
      Bun_spawn (command :: args) (cwd options) (env options) = Normal proc ->
      let seen := if (0 <? timeout_of options)%Z && outlives proc (timeout_of options)
                  then signalled proc else undisturbed proc in
      stdout_text seen = rejected error \/
      (exists out, stdout_text seen = fulfilled out /\
                   stderr_text seen = rejected error) \/
      (exists out err, stdout_text seen = fulfilled out /\
                       stderr_text seen = fulfilled err /\
                       exited seen = rejected error) ->
      runProcess command args options =
      fulfilled {| exitCode := None; signal := None; stdout := "";
                   stderr := exn_message error; success := false |}).
Proof.
  split; [apply runProcess_never_rejects|].
  split.
  { intros error Hspawn. unfold runProcess. rewrite Hspawn. reflexivity. }
  split; [intros r; apply runProcess_success_iff|].
  split.
  { intros proc out err code Hspawn Hpos Hout Hso Hse Hex.
    unfold runProcess. rewrite Hspawn.
    apply Z.ltb_lt in Hpos. rewrite Hpos, Hout. cbn [andb].
    rewrite Hso, Hse, Hex. reflexivity. }
  split.
  { intros proc out err code Hspawn Huntimed Hso Hse Hex.
    assert (Hrun : runProcess command args options =
                   fulfilled {| exitCode := Some code; signal := None;
                                stdout := out; stderr := err;
                                success := Z.eqb code 0 |}).
    { unfold runProcess. rewrite Hspawn.
      assert (Hkilled : (0 <? timeout_of options)%Z
                        && outlives proc (timeout_of options) = false).
      { destruct Huntimed as [Hle|Hin].
        - apply Z.ltb_ge in Hle. rewrite Hle. reflexivity.
        - rewrite Hin. apply andb_false_r. }
      rewrite Hkilled, Hso, Hse, Hex. reflexivity. }
    split; [exact Hrun|].
    intros Hcode. eexists. split; [exact Hrun|]. cbn.
    split; [apply Z.eqb_neq; exact Hcode|reflexivity]. }
  intros proc error Hspawn seen Hrejected.
  unfold runProcess. rewrite Hspawn. fold seen.
  destruct Hrejected as [Hso|[[out [Hso Hse]]|[out [err [Hso [Hse Hex]]]]]].
  - rewrite Hso. reflexivity.
  - rewrite Hso, Hse. reflexivity.
  - rewrite Hso, Hse, Hex. reflexivity.
Qed.

End ProcessFacts.

(** *** The runner on concrete hosts *)

Example run_missing_command :
  @Process.runProcess bun_host "nonexistent-command-xyz" [] unbounded
  = Process.fulfilled
      {| Process.exitCode := None; Process.signal := None;
         Process.stdout := ""; Process.stderr := "Executable not found in $PATH";
         Process.success := false |}.
Proof. reflexivity. Qed.

Example run_nonzero_exit :
  @Process.runProcess bun_host "bun" ["-e"; exit1_script] unbounded
  = Process.fulfilled
      {| Process.exitCode := Some 1%Z; Process.signal := None;
         Process.stdout := ""; Process.stderr := "";
         Process.success := false |}.
Proof. reflexivity. Qed.

Example run_timeout_kills_sleeper :
  @Process.runProcess bun_host "bun" ["-e"; sleep_script] (within 100)
  = Process.fulfilled
      {| Process.exitCode := Some 143%Z; Process.signal := Some "SIGTERM";
         Process.stdout := ""; Process.stderr := "";
         Process.success := false |}.
Proof. reflexivity. Qed.

Example run_immortal_never_settles :
  @Process.runProcess bun_host "bun" ["-e"; ignore_script] (within 100)
  = Process.pending.
Proof. reflexivity. Qed.

(** The claim C4 fails here: the timeout is positive, the child outlives
    it and is sent SIGTERM, yet the result has [success = true], because the
    child handles the signal and exits with code 0. *)
Lemma runProcess_timeout_success_counterexample :
  (0 < Process.timeout_of (within 100))%Z /\
  Process.outlives trapping_sleeper (Process.timeout_of (within 100)) = true /\
  @Process.runProcess bun_host "bun" ["-e"; trap_script] (within 100)
  = Process.fulfilled
      {| Process.exitCode := Some 0%Z; Process.signal := Some "SIGTERM";
         Process.stdout := ""; Process.stderr := "";
         Process.success := true |} /\
  ~ (forall r,
        @Process.runProcess bun_host "bun" ["-e"; trap_script] (within 100)
        = Process.fulfilled r ->
        Process.signal r = Some "SIGTERM" /\ Process.success r = false).
Proof.
  split; [reflexivity|]. split; [reflexivity|]. split; [reflexivity|].
  intros H. destruct (H _ eq_refl) as [_ Hs]. discriminate Hs.
Qed.

Lemma runProcess_outcomes_witness :
  (0 < Process.timeout_of (within 100))%Z /\
  Process.outlives sleeper (Process.timeout_of (within 100)) = true /\
  @Process.runProcess bun_host "bun" ["-e"; sleep_script] (within 100)
  = Process.fulfilled
      {| Process.exitCode := Some 143%Z; Process.signal := Some "SIGTERM";
         Process.stdout := ""; Process.stderr := "";
         Process.success := false |} /\
  (Process.timeout_of unbounded <= 0)%Z /\
  @Process.runProcess bun_host "bun" ["-e"; exit1_script] unbounded
  = Process.fulfilled
      {| Process.exitCode := Some 1%Z; Process.signal := None;
         Process.stdout := ""; Process.stderr := "";
         Process.success := false |}.
Proof.
  assert (Htimeout : (Process.timeout_of unbounded <= 0)%Z) by (cbn; lia).
  split; [reflexivity|]. split; [reflexivity|]. split.
  - apply (proj1 (proj2 (proj2 (proj2
             (@runProcess_outcomes bun_host "bun" ["-e"; sleep_script]
                (within 100)))))
             sleeper "" "" 143%Z); reflexivity.
  - split; [exact Htimeout|].
    refine (proj1 (proj1 (proj2 (proj2 (proj2 (proj2
              (@runProcess_outcomes bun_host "bun" ["-e"; exit1_script]
                 unbounded)))))
              _ "" "" 1%Z eq_refl (or_introl Htimeout) eq_refl eq_refl eq_refl)).
Defined.

(** ** The Worker *)

Section WorkerFacts.
Import Worker.

(** What observing the steps of a run does to the accumulators, the status
    of the engine binding, and the registries. *)
Lemma run_step_commits (step : engine_step) (w : t) :
  run_commitCount (run_step step w)
  = run_commitCount w + List.length (commit_shas [step]) /\
  run_commitSha (run_step step w)
  = match latest (commit_shas [step]) with
    | Some sha => Some sha
    | None => run_commitSha w
    end.
Proof.
  destruct step as [[sha|n|out|ty]|]; cbn; unfold stop;
    try destruct (engine w); cbn; split; auto; lia.
Qed.

Lemma latest_app (xs ys : list string) :
  latest (xs ++ ys) = match latest ys with
                      | Some sha => Some sha
                      | None => latest xs
                      end.
Proof.
  unfold latest. rewrite rev_app_distr.
  destruct (rev ys); reflexivity.
Qed.

Lemma commit_shas_app (xs ys : list engine_step) :
  commit_shas (xs ++ ys) = commit_shas xs ++ commit_shas ys.
Proof. apply flat_map_app. Qed.

Lemma run_steps_commits (steps : list engine_step) (w : t) :
  let w' := fold_left (fun w step => run_step step w) steps w in
  run_commitCount w' = run_commitCount w + List.length (commit_shas steps) /\
  run_commitSha w' = match latest (commit_shas steps) with
                     | Some sha => Some sha
                     | None => run_commitSha w
                     end.
Proof.
  revert w. induction steps as [|step steps IH]; intros w; cbn [fold_left].
  - cbn. split; [lia|reflexivity].
  - destruct (IH (run_step step w)) as [Hn Hs].
    destruct (run_step_commits step w) as [Hn1 Hs1].
    cbv zeta. rewrite Hn, Hs, Hn1, Hs1.
    change (step :: steps) with ([step] ++ steps).
    rewrite commit_shas_app, length_app, latest_app.
    split; [lia|].
    destruct (latest (commit_shas steps)); reflexivity.
Qed.

Lemma run_step_engine (step : engine_step) (w : t) :
  engine w <> None -> engine (run_step step w) <> None.
Proof.
  destruct step as [[sha|n|out|ty]|]; cbn; auto.
  unfold stop. destruct (engine w); cbn; [discriminate|auto].
Qed.

Lemma run_steps_engine (steps : list engine_step) (w : t) :
  engine w <> None ->
  engine (fold_left (fun w step => run_step step w) steps w) <> None.
Proof.
  revert w. induction steps as [|step steps IH]; intros w H; cbn [fold_left];
    [exact H|]. apply IH, run_step_engine, H.
Qed.

(** Once cancelled, observing more of the run leaves the Worker cancelled. *)
Lemma run_steps_cancelled (steps : list engine_step) (w : t) :
  status w = cancelled ->
  status (fold_left (fun w step => run_step step w) steps w) = cancelled.
Proof.
  revert w. induction steps as [|step steps IH]; intros w H; cbn [fold_left];
    [exact H|]. apply IH.
  destruct step as [[sha|n|out|ty]|]; cbn; auto.
Qed.

Lemma start_bound (now : nat) (run : EngineRun) (w : t) :
  engine w <> None ->
  exists w' result,
    start now run w = (w', Normal result) /\
    commitCount result = List.length (commit_shas (steps run)) /\
    commitSha result = latest (commit_shas (steps run)) /\
    run_commitCount w' = commitCount result /\
    run_commitSha w' = commitSha result /\
    engine w' <> None.
Proof.
  intros Hbound. unfold start.
  destruct (engine w) as [e|] eqn:He; [|contradiction].
  set (w1 := fold_left _ (steps run) (begin_run now w)).
  assert (Hc : run_commitCount w1 = List.length (commit_shas (steps run)) /\
               run_commitSha w1 = latest (commit_shas (steps run))).
  { destruct (run_steps_commits (steps run) (begin_run now w)) as [Hn Hs].
    fold w1 in Hn, Hs. cbn in Hn, Hs. split; [exact Hn|].
    rewrite Hs. destruct (latest (commit_shas (steps run))); reflexivity. }
  assert (Hb : engine w1 <> None).
  { apply run_steps_engine. cbn. rewrite He. discriminate. }
  destruct Hc as [Hn Hs].
  destruct (ending run); [destruct (is_cancelled (status w1))|
                          destruct (is_cancelled (status w1))];
    eexists; eexists; (split; [reflexivity|]); cbn; auto.
Qed.

(** C2: every [start()] on an initialized Worker resets the accumulators
    before the engine runs, and resolves to a result whose [commitCount] is
    the number of auto-commit events observed during that call and whose
    [commitSha] is the identifier of the latest of them, whatever the
    accumulators held before and however the run ends; the display state
    shows the same identifier; and a second [start()] on the Worker left by
    the first reflects the events of the second run only. *)
Theorem start_counts_commits_of_this_run
    (w : t) (e : Engine) (now : nat) (run : EngineRun) :
  engine w = Some e ->
  run_commitCount (begin_run now w) = 0 /\
  run_commitSha (begin_run now w) = None /\
  (forall sha w0,
      run_commitCount (handleEngineEvent (task_auto_committed sha) w0)
      = S (run_commitCount w0)) /\
  exists w' result,
    start now run w = (w', Normal result) /\
    commitCount result = List.length (commit_shas (steps run)) /\
    commitSha result = latest (commit_shas (steps run)) /\
    (forall later, ds_commitSha (getDisplayState later w')
                   = latest (commit_shas (steps run))) /\
    forall now2 run2,
    exists w'' result2,
      start now2 run2 w' = (w'', Normal result2) /\
      commitCount result2 = List.length (commit_shas (steps run2)) /\
      commitSha result2 = latest (commit_shas (steps run2)).
Proof.
  intros He.
  split; [reflexivity|]. split; [reflexivity|]. split; [reflexivity|].
  destruct (start_bound now run w) as [w' [result [Hrun [Hn [Hs [_ [Hs' Hb]]]]]]];
    [rewrite He; discriminate|].
  exists w', result. repeat split; try assumption.
  - intros later. cbn. rewrite Hs'. exact Hs.
  - intros now2 run2.
    destruct (start_bound now2 run2 w' Hb)
      as [w'' [result2 [Hrun2 [Hn2 [Hs2 _]]]]].
    exists w'', result2. auto.
Qed.

(** C3, as the modelled Worker has it: when [stop()] is called on the
    Worker while it awaits the engine, [start()] resolves (it does not
    throw) to [success=false], whatever the engine does afterwards; the
    error is 'Worker was cancelled' when the engine then returns, and the
    raised message when it then raises; [commitCount] is the number of
    auto-commit events observed during the run, those before the call of
    [stop()] and those the engine still emits after it, so none is
    discarded, and it is the number observed before the call exactly when
    none follows; the Worker is left cancelled. *)
Theorem start_cancelled_keeps_commits
    (w : t) (e : Engine) (now : nat)
    (before after : list engine_step) (ending : engine_end)
    (final : EngineState) :
  engine w = Some e ->
  exists w' result,
    start now {| steps := before ++ calls_stop :: after;
                 ending := ending;
                 final_state := final |} w
    = (w', Normal result) /\
    success result = false /\
    error_message result
    = Some (match ending with
            | returns => "Worker was cancelled"
            | raises message => message
            end) /\
    commitCount result
    = List.length (commit_shas before) + List.length (commit_shas after) /\
    List.length (commit_shas before) <= commitCount result /\
    (commitCount result = List.length (commit_shas before) <->
     commit_shas after = []) /\
    getStatus w' = cancelled.
Proof.
  intros He. unfold start. rewrite He. cbn [steps Worker.ending final_state].
  set (w1 := fold_left _ (before ++ calls_stop :: after) (begin_run now w)).
  assert (Hst : status w1 = cancelled).
  { unfold w1. rewrite fold_left_app. cbn [fold_left].
    apply run_steps_cancelled. reflexivity. }
  assert (Hn : run_commitCount w1
               = List.length (commit_shas before) + List.length (commit_shas after)).
  { destruct (run_steps_commits (before ++ calls_stop :: after) (begin_run now w))
      as [Hn _]. fold w1 in Hn. rewrite Hn.
    rewrite commit_shas_app, length_app. reflexivity. }
  assert (Hiff : run_commitCount w1 = List.length (commit_shas before) <->
                 commit_shas after = []).
  { rewrite Hn. split.
    - intros Hlen. destruct (commit_shas after); [reflexivity|].
      cbn [List.length] in Hlen. lia.
    - intros ->. cbn. lia. }
  rewrite Hst. cbn [is_cancelled].
  destruct ending as [|message];
    eexists; eexists; (split; [reflexivity|]);
    cbn [result_of success error_message commitCount getStatus];
    repeat split; try assumption; try reflexivity;
    try (rewrite Hn; lia); apply Hiff.
Qed.

(** C7: on a Worker with no bound engine, [start()] fails with a message
    containing "not initialized"; [stop()] still makes the status
    [cancelled] and may be repeated without further effect; [pause()] and
    [resume()] return leaving the Worker, and so its status, as it was. *)
Theorem unbound_worker_operations (w : t) (now : nat) (run : EngineRun) :
  engine w = None ->
  (exists message,
      start now run w = (w, Throw (Error message)) /\
      includes message "not initialized" = true) /\
  getStatus (stop w) = cancelled /\
  stop (stop w) = stop w /\
  stop (stop (stop w)) = stop w /\
  pause w = w /\ resume w = w /\
  getStatus (pause w) = getStatus w /\ getStatus (resume w) = getStatus w.
Proof.
  intros He. unfold start, stop, pause, resume, getStatus. rewrite He.
  cbn. rewrite He. cbn. rewrite He.
  repeat split; try reflexivity.
  eexists. split; reflexivity.
Qed.

(** C8: the display state of a freshly constructed Worker, at any time
    before a [start()], is idle with nothing observed, and carries the
    static configuration unchanged; binding an engine does not change it. *)
Theorem getDisplayState_before_start
    (cfg : WorkerConfig) (maxIter now : nat) :
  getDisplayState now (create cfg maxIter)
  = {| ds_id := id cfg;
       ds_status := idle;
       ds_task := task cfg;
       ds_currentIteration := 0;
       ds_maxIterations := maxIter;
       ds_lastOutput := "";
       ds_elapsedMs := 0;
       ds_commitSha := None;
       ds_worktreePath := worktreePath cfg;
       ds_branchName := branchName cfg |} /\
  getDisplayState now (initialize (create cfg maxIter))
  = getDisplayState now (create cfg maxIter).
Proof. split; reflexivity. Qed.

Lemma drop_handle_idempotent (h : nat) (registry : list (nat * string)) :
  drop_handle h (drop_handle h registry) = drop_handle h registry.
Proof.
  unfold drop_handle. induction registry as [|[h' l] rest IH]; [reflexivity|].
  cbn [filter fst]. destruct (Nat.eqb h' h) eqn:E; cbn [negb].
  - exact IH.
  - cbn [filter fst]. rewrite E. cbn [negb]. rewrite IH. reflexivity.
Qed.

Lemma drop_handle_removes (h : nat) (l : string) (registry : list (nat * string)) :
  ~ In (h, l) (drop_handle h registry).
Proof.
  unfold drop_handle. intros Hin. apply filter_In in Hin as [_ Hneq].
  cbn in Hneq. rewrite Nat.eqb_refl in Hneq. discriminate.
Qed.

(** C9: the function returned by [on()] (and by [onEngineEvent()]) removes
    the registration it was returned for; calling it again, in whatever
    state the Worker is by then, changes nothing, so that any number of
    calls in a row, three in particular, leave the Worker as one call
    does. *)
Theorem unsubscribe_idempotent
    (w : t) (listener : string) (later : t) (n : nat) :
  let '(w1, h) := on listener w in
  let '(w2, k) := onEngineEvent listener w in
  In (h, listener) (listeners w1) /\
  ~ In (h, listener) (listeners (unsubscribe h w1)) /\
  unsubscribe h (unsubscribe h later) = unsubscribe h later /\
  unsubscribe h (unsubscribe h (unsubscribe h w1)) = unsubscribe h w1 /\
  Nat.iter (S n) (unsubscribe h) later = unsubscribe h later /\
  In (k, listener) (engineListeners w2) /\
  ~ In (k, listener) (engineListeners (unsubscribeEngine k w2)) /\
  unsubscribeEngine k (unsubscribeEngine k later) = unsubscribeEngine k later /\
  unsubscribeEngine k (unsubscribeEngine k (unsubscribeEngine k w2))
  = unsubscribeEngine k w2 /\
  Nat.iter (S n) (unsubscribeEngine k) later = unsubscribeEngine k later.
Proof.
  cbn [on onEngineEvent].
  assert (Hu : forall h x, unsubscribe h (unsubscribe h x) = unsubscribe h x).
  { intros h x. unfold unsubscribe, set_listeners. cbn -[drop_handle].
    rewrite drop_handle_idempotent. reflexivity. }
  assert (Hv : forall h x, unsubscribeEngine h (unsubscribeEngine h x)
                           = unsubscribeEngine h x).
  { intros h x. unfold unsubscribeEngine, set_listeners. cbn -[drop_handle].
    rewrite drop_handle_idempotent. reflexivity. }
  repeat split.
  - cbn. apply in_or_app. right. left. reflexivity.
  - apply drop_handle_removes.
  - apply Hu.
  - rewrite !Hu. reflexivity.
  - induction n as [|n IH]; [reflexivity|].
    change (Nat.iter (S (S n)) (unsubscribe (next_handle w)) later)
      with (unsubscribe (next_handle w)
              (Nat.iter (S n) (unsubscribe (next_handle w)) later)).
    rewrite IH. apply Hu.
  - cbn. apply in_or_app. right. left. reflexivity.
  - apply drop_handle_removes.
  - apply Hv.
  - rewrite !Hv. reflexivity.
  - induction n as [|n IH]; [reflexivity|].
    change (Nat.iter (S (S n)) (unsubscribeEngine (next_handle w)) later)
      with (unsubscribeEngine (next_handle w)
              (Nat.iter (S n) (unsubscribeEngine (next_handle w)) later)).
    rewrite IH. apply Hv.
Qed.

End WorkerFacts.

(** *** The scenarios of the test suite *)

Example start_two_commits :
  snd (Worker.start 0 two_commits bound_worker)
  = Normal {| Worker.success := true; Worker.taskCompleted := true;
              Worker.commitCount := 2; Worker.commitSha := Some "def456";
              Worker.error_message := None |} /\
  Worker.ds_commitSha
    (Worker.getDisplayState 5 (fst (Worker.start 0 two_commits bound_worker)))
  = Some "def456".
Proof. split; reflexivity. Qed.

Example start_twice_resets :
  let after_first := fst (Worker.start 0 two_commits bound_worker) in
  snd (Worker.start 9 no_commit after_first)
  = Normal {| Worker.success := true; Worker.taskCompleted := true;
              Worker.commitCount := 0; Worker.commitSha := None;
              Worker.error_message := None |} /\
  Worker.ds_commitSha
    (Worker.getDisplayState 9 (fst (Worker.start 9 no_commit after_first)))
  = None.
Proof. split; reflexivity. Qed.

Example start_engine_raises :
  snd (Worker.start 0 commit_then_boom bound_worker)
  = Normal {| Worker.success := false; Worker.taskCompleted := false;
              Worker.commitCount := 1; Worker.commitSha := Some "errorsha";
              Worker.error_message := Some "boom" |}.
Proof. reflexivity. Qed.

Example start_cancelled_during_run :
  snd (Worker.start 0
         {| Worker.steps := [Worker.emits (Worker.task_auto_committed "cancelsha");
                             Worker.calls_stop];
            Worker.ending := Worker.returns;
            Worker.final_state := one_task_done |}
         bound_worker)
  = Normal {| Worker.success := false; Worker.taskCompleted := false;
              Worker.commitCount := 1; Worker.commitSha := Some "cancelsha";
              Worker.error_message := Some "Worker was cancelled" |}.
Proof. reflexivity. Qed.

Lemma start_counts_commits_of_this_run_witness :
  Worker.engine bound_worker
  = Some {| Worker.pause_flag := false; Worker.stop_requested := false |} /\
  exists w' result,
    Worker.start 0 two_commits bound_worker = (w', Normal result) /\
    Worker.commitCount result = 2 /\
    Worker.commitSha result = Some "def456".
Proof.
  split; [reflexivity|].
  destruct (start_counts_commits_of_this_run bound_worker
              {| Worker.pause_flag := false; Worker.stop_requested := false |}
              0 two_commits eq_refl)
    as [_ [_ [_ [w' [result [Hrun [Hn [Hs _]]]]]]]].
  exists w', result. split; [exact Hrun|]. split; [exact Hn | exact Hs].
Defined.

Lemma start_cancelled_keeps_commits_witness :
  Worker.engine bound_worker
  = Some {| Worker.pause_flag := false; Worker.stop_requested := false |} /\
  exists w' result,
    Worker.start 0
      {| Worker.steps := [Worker.emits (Worker.task_auto_committed "cancelsha")]
                         ++ Worker.calls_stop :: [];
         Worker.ending := Worker.returns;
         Worker.final_state := one_task_done |}
      bound_worker
    = (w', Normal result) /\
    Worker.success result = false /\
    Worker.error_message result = Some "Worker was cancelled" /\
    Worker.commitCount result = 1.
Proof.
  split; [reflexivity|].
  destruct (start_cancelled_keeps_commits bound_worker
              {| Worker.pause_flag := false; Worker.stop_requested := false |}
              0 [Worker.emits (Worker.task_auto_committed "cancelsha")] []
              Worker.returns one_task_done eq_refl)
    as [w' [result [Hrun [Hok [Herr [Hn _]]]]]].
  exists w', result.
  split; [exact Hrun|]. split; [exact Hok|]. split; [exact Herr | exact Hn].
Defined.

(** The claim C3 fails on the modelled Worker in two ways: an auto-commit
    the engine emits while it halts, after the call of [stop()], is counted
    like the others, so one commit before the call and two after it give
    [commitCount = 3], not 1; and when the engine raises after the call of
    [stop()], the error of the result is the raised message, not 'Worker
    was cancelled'. *)
Lemma start_cancelled_counterexample :
  List.length (Worker.commit_shas
                 [Worker.emits (Worker.task_auto_committed "first")]) = 1 /\
  snd (Worker.start 0 stop_then_two_commits bound_worker)
  = Normal {| Worker.success := false; Worker.taskCompleted := false;
              Worker.commitCount := 3; Worker.commitSha := Some "third";
              Worker.error_message := Some "Worker was cancelled" |} /\
  snd (Worker.start 0 stop_then_boom bound_worker)
  = Normal {| Worker.success := false; Worker.taskCompleted := false;
              Worker.commitCount := 1; Worker.commitSha := Some "first";
              Worker.error_message := Some "boom" |} /\
  ~ (forall (before after : list Worker.engine_step)
            (ending : Worker.engine_end) (final : Worker.EngineState),
        exists result,
          snd (Worker.start 0
                 {| Worker.steps := before ++ Worker.calls_stop :: after;
                    Worker.ending := ending;
                    Worker.final_state := final |}
                 bound_worker)
          = Normal result /\
          Worker.success result = false /\
          Worker.error_message result = Some "Worker was cancelled" /\
          Worker.commitCount result = List.length (Worker.commit_shas before)).
Proof.
  split; [reflexivity|]. split; [reflexivity|]. split; [reflexivity|].
  intros Hclaim.
  destruct (Hclaim [Worker.emits (Worker.task_auto_committed "first")]
                   [Worker.emits (Worker.task_auto_committed "second");
                    Worker.emits (Worker.task_auto_committed "third")]
                   Worker.returns one_task_done)
    as [result [Hrun [_ [_ Hcount]]]].
  cbn in Hrun. injection Hrun as <-. discriminate Hcount.
Qed.

Lemma unbound_worker_operations_witness :
  Worker.engine fresh_worker = None /\
  (exists message,
      Worker.start 0 two_commits fresh_worker
      = (fresh_worker, Throw (Error message)) /\
      includes message "not initialized" = true) /\
  Worker.getStatus (Worker.stop fresh_worker) = Worker.cancelled /\
  Worker.getStatus (Worker.pause fresh_worker) = Worker.idle /\
  Worker.getStatus (Worker.resume fresh_worker) = Worker.idle.
Proof.
  split; [reflexivity|].
  destruct (unbound_worker_operations fresh_worker 0 two_commits eq_refl)
    as [Hstart [Hstop [_ [_ [_ [_ [Hpause Hresume]]]]]]].
  split; [exact Hstart|]. split; [exact Hstop|].
  split; [exact Hpause | exact Hresume].
Defined.

Example unsubscribe_three_times :
  let '(w1, unsub) := Worker.on "listener" fresh_worker in
  Worker.unsubscribe unsub (Worker.unsubscribe unsub (Worker.unsubscribe unsub w1))
  = Worker.unsubscribe unsub w1 /\
  Worker.listeners (Worker.unsubscribe unsub w1) = [].
Proof. split; reflexivity. Qed.

(** ** The events of the parser *)

Import Chars CodexNotions.

Section ParserInvariants.
Context {rt : Runtime}.









End ParserInvariants.

Section ErrorMessageFacts.
Context {rt : Runtime}.

Lemma extractErrorMessage_returns (err : value) :
  exists s, extractErrorMessage err = Normal s.
Proof.
  unfold extractErrorMessage.
  destruct (truthy err) eqn:Ht; cbn [negb]; [|eauto].
  destruct err as [| |b|n|s|elems|props]; try discriminate; eauto.
  - cbn [get bind lookup]. destruct (JSON_stringify (VArr elems)); cbn; eauto.
  - cbn [get bind].
    destruct (lookup "message" props); eauto;
      destruct (lookup "error" props); eauto;
      destruct (JSON_stringify (VObj props)); cbn; eauto.
Qed.

Lemma extractErrorMessage_falsy (err : value) :
  truthy err = false -> extractErrorMessage err = Normal "".
Proof. intros H. unfold extractErrorMessage. rewrite H. reflexivity. Qed.

(** X3: [extractErrorMessage] never throws, even when [JSON.stringify] does;
    a falsy value gives the empty string, a string gives itself, an object
    gives its string [message] (even an empty one), else its string [error],
    else its JSON text or ['Unknown error']. *)
Theorem extractErrorMessage_total (err : value) :
  exists s,
    extractErrorMessage err = Normal s /\
    (truthy err = false -> s = "") /\
    (forall m, err = VStr m -> s = m) /\
    (forall props m,
        err = VObj props -> lookup "message" props = VStr m -> s = m) /\
    (forall props m,
        err = VObj props ->
        (forall m', lookup "message" props <> VStr m') ->
        lookup "error" props = VStr m -> s = m) /\
    (forall props,
        err = VObj props ->
        (forall m', lookup "message" props <> VStr m') ->
        (forall m', lookup "error" props <> VStr m') ->
        s = match JSON_stringify err with
            | Normal json_text => json_text
            | Throw _ => "Unknown error"
            end).
Proof.
  destruct (extractErrorMessage_returns err) as [s Hs]. exists s.
  split; [exact Hs|]. split; [|split; [|split; [|split]]].
  - intros Hf. rewrite (extractErrorMessage_falsy _ Hf) in Hs.
    injection Hs as <-. reflexivity.
  - intros m ->. unfold extractErrorMessage in Hs. cbn [truthy] in Hs.
    destruct (String.eqb_spec m "") as [E|Hne]; cbn [negb] in Hs;
      injection Hs as <-; [symmetry; exact E|reflexivity].
  - intros props m -> Hm. unfold extractErrorMessage in Hs.
    cbn [truthy negb get bind] in Hs. rewrite Hm in Hs.
    injection Hs as <-. reflexivity.
  - intros props m -> Hnm He. unfold extractErrorMessage in Hs.
    cbn [truthy negb get bind] in Hs. rewrite He in Hs.
    destruct (lookup "message" props) as [| |b|n|m0|elems|ps];
      try (injection Hs as <-; reflexivity).
    exfalso. exact (Hnm m0 eq_refl).
  - intros props -> Hnm Hne. unfold extractErrorMessage in Hs.
    cbn [truthy negb get bind] in Hs.
    destruct (lookup "message" props) as [| |b|n|m0|elems|ps];
      try (exfalso; exact (Hnm m0 eq_refl));
      (destruct (lookup "error" props) as [| |b'|n'|m1|elems'|ps'];
       try (exfalso; exact (Hne m1 eq_refl));
       destruct (JSON_stringify (VObj props)); cbn [try_catch] in Hs;
       injection Hs as <-; reflexivity).
Qed.

Lemma get_object (props : list (string * value)) (k : string) :
  get (VObj props) k = Normal (lookup k props).
Proof. reflexivity. Qed.

Lemma parseCodexJsonLine_nonempty (line : string) :
  line <> "" ->
  parseCodexJsonLine line
  = try_catch (bind (JSON_parse line) parseEvent) (fun _ => Normal []).
Proof.
  intros Hne. unfold parseCodexJsonLine.
  destruct (String.eqb_spec line "") as [|_]; [contradiction|].
  destruct line; [contradiction Hne; reflexivity|]. reflexivity.
Qed.

(** X4: a record of type ['function_call_output'] or ['tool_result'] that
    carries neither a [message] nor a [function_call] yields the tool-result
    event alone, or preceded by exactly one error event when [is_error] is
    [true] or an [error] field is present; a falsy [error] (such as [null])
    is reported as ['tool execution failed']. *)
Theorem tool_result_record_events
    (line ty : string) (props : list (string * value)) :
  line <> "" ->
  JSON_parse line = Normal (VObj props) ->
  lookup "type" props = VStr ty ->
  ty = "function_call_output" \/ ty = "tool_result" ->
  truthy (lookup "message" props) = false ->
  truthy (lookup "function_call" props) = false ->
  exists msg,
    extractErrorMessage (lookup "error" props) = Normal msg /\
    (truthy (lookup "error" props) = false -> msg = "") /\
    parseCodexJsonLine line
    = Normal (if is_true (lookup "is_error" props)
                 || is_defined (lookup "error" props)
              then [error (if String.eqb msg "" then "tool execution failed"
                           else msg);
                    tool_result]
              else [tool_result]).
Proof.
  intros Hne Hparse Hty Hkind Hmsg Hcall.
  destruct (extractErrorMessage_returns (lookup "error" props)) as [msg Hm].
  exists msg. split; [exact Hm|]. split.
  { intros Hf. rewrite (extractErrorMessage_falsy _ Hf) in Hm.
    injection Hm as <-. reflexivity. }
  rewrite (parseCodexJsonLine_nonempty _ Hne), Hparse. cbn [bind].
  unfold parseEvent, cond_or, cond_and. rewrite !get_object. cbn [bind].
  rewrite Hty, Hmsg, Hcall.
  assert (Hflags : is_str (VStr ty) "message" = false /\
                   is_str (VStr ty) "function_call" = false /\
                   is_str (VStr ty) "function_call_output"
                   || is_str (VStr ty) "tool_result" = true)
    by (destruct Hkind as [-> | ->]; repeat split; reflexivity).
  destruct Hflags as [H1 [H2 H3]]. rewrite H1, H2. cbn [bind].
  destruct (is_str (VStr ty) "function_call_output") eqn:H4; cbn [bind orb] in *.
  - destruct (is_true (lookup "is_error" props)); cbn [bind orb].
    + rewrite Hm. cbn [bind app]. reflexivity.
    + destruct (is_defined (lookup "error" props)); cbn [bind].
      * rewrite Hm. cbn [bind app]. reflexivity.
      * reflexivity.
  - rewrite H3. cbn [bind].
    destruct (is_true (lookup "is_error" props)); cbn [bind orb].
    + rewrite Hm. cbn [bind app]. reflexivity.
    + destruct (is_defined (lookup "error" props)); cbn [bind].
      * rewrite Hm. cbn [bind app]. reflexivity.
      * reflexivity.
Qed.

Lemma parsePart_null (acc : list AgentDisplayEvent) :
  parsePart VNull acc = Throw TypeError.
Proof. reflexivity. Qed.

Lemma for_of_parsePart_null (parts : list value) (acc : list AgentDisplayEvent) :
  In VNull parts -> exists e, for_of parsePart parts acc = Throw e.
Proof.
  revert acc. induction parts as [|part parts IH]; intros acc Hin; [contradiction|].
  cbn [for_of].
  destruct Hin as [-> | Hin]; [rewrite parsePart_null; cbn [bind]; eauto|].
  destruct (parsePart part acc) as [acc1|e]; cbn [bind]; [|eauto].
  apply IH. exact Hin.
Qed.

(** X5: a message record whose [content] array holds a [null] part yields
    no event at all: the parts before it are discarded with it. *)
Theorem null_part_discards_the_record
    (line : string) (props : list (string * value)) (parts : list value) :
  JSON_parse line = Normal (VObj props) ->
  is_message_record (VObj props) = true ->
  lookup "content" props = VArr parts ->
  In VNull parts ->
  parseCodexJsonLine line = Normal [].
Proof.
  intros Hparse Hmsg Hcontent Hin.
  unfold parseCodexJsonLine.
  destruct (String.eqb line "" || (String.length line =? 0)%nat); [reflexivity|].
  rewrite Hparse. cbn [bind].
  unfold parseEvent, cond_or. rewrite !get_object. cbn [bind].
  cbn [is_message_record] in Hmsg.
  assert (Hkind : (if is_str (lookup "type" props) "message" then Normal true
                   else Normal (truthy (lookup "message" props)))
                  = Normal true).
  { destruct (is_str (lookup "type" props) "message"); [reflexivity|].
    cbn [orb] in Hmsg. rewrite Hmsg. reflexivity. }
  rewrite Hkind. cbn [bind].
  destruct (is_str (lookup "role" props) "user"); [reflexivity|].
  unfold or_else. cbn [bind]. rewrite Hcontent. cbn [truthy].
  cbn [bind]. destruct (for_of_parsePart_null parts [] Hin) as [e ->]. reflexivity.
Qed.

End ErrorMessageFacts.

Section OutputFacts.
Context {rt : Runtime}.

Lemma split_app_newline (sep : ascii) (a b : string) :
  split sep (a ++ String sep b) = split sep a ++ split sep b.
Proof.
  induction a as [|c a IH]; cbn [append split].
  - rewrite Ascii.eqb_refl. reflexivity.
  - rewrite IH. destruct (Ascii.eqb c sep); [reflexivity|].
    destruct (split sep a) as [|x xs] eqn:E; [|reflexivity].
    exfalso. eapply split_not_nil. exact E.
Qed.

(** X6: [parseCodexOutputToEvents] throws exactly when one of its lines
    yields more events than a call takes arguments, and what it throws is a
    [RangeError]; otherwise it gives the events of its lines in order.  So
    the events of two outputs joined by a newline are the events of the
    first followed by those of the second when both are parsed, and the
    joined output throws when either does. *)
Theorem parseCodexOutputToEvents_concat (a b : string) :
  (parseCodexOutputToEvents a = Throw RangeError <->
   forallb within_limit (split newline a) = false) /\
  (forall ea, parseCodexOutputToEvents a = Normal ea ->
              ea = flat_map events_of_record (split newline a)) /\
  (forall ea eb,
      parseCodexOutputToEvents a = Normal ea ->
      parseCodexOutputToEvents b = Normal eb ->
      parseCodexOutputToEvents (a ++ String newline b) = Normal (ea ++ eb)) /\
  (forall e,
      parseCodexOutputToEvents a = Throw e \/
      parseCodexOutputToEvents b = Throw e ->
      e = RangeError /\
      parseCodexOutputToEvents (a ++ String newline b) = Throw RangeError).
Proof.
  rewrite !parseCodexOutputToEvents_lines, split_app_newline, forallb_app,
    flat_map_app.
  destruct (forallb within_limit (split newline a));
    destruct (forallb within_limit (split newline b)); cbn [andb];
    (split; [split; intros H; (discriminate || reflexivity)|]);
    (split; [intros ea H; (discriminate || (injection H as <-; reflexivity))|]);
    (split;
     [intros ea eb Ha Hb; try discriminate;
      injection Ha as <-; injection Hb as <-; reflexivity|]);
    intros e [H|H]; try discriminate; injection H as <-; auto.
Qed.

End OutputFacts.

Section ForwardingFacts.
Context {rt : Runtime} {fmt : OutputFormatting}.

Lemma forwarded_records_all_jsonl (lines : list string) :
  filter is_jsonl_call (forwarded_records lines) = forwarded_records lines.
Proof.
  unfold forwarded_records. induction lines as [|l ls IH]; [reflexivity|].
  cbn [flat_map]. rewrite filter_app, IH. f_equal.
  destruct (negb (String.eqb (trim l) "") && startsWith (trim l) "{"%char);
    [|reflexivity].
  destruct (JSON_parse (trim l)); reflexivity.
Qed.

Lemma views_of_chunk_no_jsonl (options : AgentExecuteOptions)
    (events : list AgentDisplayEvent) :
  filter is_jsonl_call (views_of_chunk options events) = [].
Proof.
  unfold views_of_chunk. destruct events as [|ev evs]; [reflexivity|].
  rewrite filter_app.
  destruct (supplied (onStdoutSegments options)),
    (supplied (onStdout options)); cbn [filter app];
    repeat match goal with
           | |- context [processAgentEventsToSegments ?e] =>
               destruct (processAgentEventsToSegments e)
           | |- context [String.eqb ?s ""] => destruct (String.eqb s "")
           end; reflexivity.
Qed.

Lemma jsonl_calls_of_chunks (options : AgentExecuteOptions)
    (records : list (list string)) :
  filter is_jsonl_call (flat_map (calls_of_chunk options) records)
  = if supplied (onJsonlMessage options)
    then forwarded_records (concat records) else [].
Proof.
  induction records as [|r rs IH].
  - destruct (supplied (onJsonlMessage options)); reflexivity.
  - cbn [flat_map concat]. rewrite filter_app, IH. unfold calls_of_chunk.
    rewrite filter_app, views_of_chunk_no_jsonl, app_nil_r.
    destruct (supplied (onJsonlMessage options)); [|reflexivity].
    rewrite forwarded_records_all_jsonl, forwarded_records_app. reflexivity.
Qed.

(** X7: whatever the chunks, when the display callbacks return normally
    and no completed record yields more events than a call takes arguments,
    no exception leaves the handler of [execute], even when [onJsonlMessage]
    throws at every call; and the values handed to [onJsonlMessage] are the
    raw records among the completed lines of everything received, in order,
    independently of where the chunks were cut (none without that
    callback). *)
Theorem execute_forwards_completed_records
    (options : AgentExecuteOptions) (chunks : list string) :
  display_callbacks_return options ->
  forallb within_limit (completed_records (received chunks)) = true ->
  thrown (execute options chunks) = None /\
  filter is_jsonl_call (called (execute options chunks))
  = (if supplied (onJsonlMessage options)
     then forwarded_records (completed_records (received chunks)) else []).
Proof.
  intros Hret Hlimit.
  destruct (supplied (onStdout options) || supplied (onStdoutSegments options)
            || supplied (onJsonlMessage options)) eqn:Hcb.
  - destruct (execute_calls options chunks Hcb Hret Hlimit) as [Ht [_ Hc]].
    split; [exact Ht|].
    rewrite Hc, jsonl_calls_of_chunks.
    pose proof (records_per_chunk_concat chunks "") as Hrecords.
    change (concat (records_per_chunk "" chunks)
            = completed_records (received chunks)) in Hrecords.
    rewrite Hrecords. reflexivity.
  - rewrite (execute_without_callbacks options chunks Hcb).
    apply orb_false_iff in Hcb as [_ ->]. split; reflexivity.
Qed.

(** X24: when the chunks so far were within the limit and the next chunk
    completes a record that yields more events than a call takes arguments,
    a [RangeError] leaves the handler of [execute]: the buffer has been
    renewed and the raw records of the chunk forwarded, but no view of the
    chunk is delivered, so the caller has received the views of the
    earlier chunks only. *)
Theorem execute_record_beyond_limit
    (options : AgentExecuteOptions) (chunks : list string) (data : string) :
  supplied (onStdout options) || supplied (onStdoutSegments options)
  || supplied (onJsonlMessage options) = true ->
  display_callbacks_return options ->
  forallb within_limit (completed_records (received chunks)) = true ->
  forallb within_limit
          (completed_records (pending_record (received chunks) ++ data)) = false ->
  thrown (execute options (chunks ++ [data])) = Some RangeError /\
  jsonlBuffer (execute options (chunks ++ [data]))
  = pending_record (received chunks ++ data) /\
  filter is_display_call (called (execute options (chunks ++ [data])))
  = views options (events_per_chunk "" chunks) /\
  filter is_jsonl_call (called (execute options (chunks ++ [data])))
  = (if supplied (onJsonlMessage options)
     then forwarded_records (completed_records (received chunks ++ data))
     else []).
Proof.
  intros Hcb Hret Hlimit Hbeyond.
  destruct (execute_calls options chunks Hcb Hret Hlimit) as [Ht [Hb Hc]].
  unfold execute in *. rewrite fold_left_app. cbn [fold_left].
  set (st := fold_left (fun st data => deliver options data st) chunks
                       execute_start) in *.
  assert (Hstep : deliver options data st
                  = {| jsonlBuffer := pending_record (received chunks ++ data);
                       called := called st
                                 ++ (if supplied (onJsonlMessage options)
                                     then forwarded_records
                                            (completed_records
                                               (pending_record (received chunks)
                                                ++ data))
                                     else []);
                       thrown := Some RangeError |}).
  { unfold deliver, parsedOptions_onStdout. rewrite Ht, Hcb.
    pose proof (onStdout_wrapper_buffer options (jsonlBuffer st) data) as Hbuf.
    pose proof (onStdout_wrapper_beyond_limit options (jsonlBuffer st) data
                  (called st)) as Hbody.
    rewrite Hb in Hbuf, Hbody |- *. specialize (Hbody Hbeyond).
    destruct (onStdout_wrapper options (pending_record (received chunks)) data)
      as [buffer body].
    cbn [fst snd] in Hbuf, Hbody. rewrite Hbody, Hbuf, <- pending_record_app.
    reflexivity. }
  rewrite Hstep. cbn [thrown jsonlBuffer called].
  split; [reflexivity|]. split; [reflexivity|]. split.
  - rewrite filter_app, Hc, display_calls_of_chunks, events_per_chunk_records.
    destruct (supplied (onJsonlMessage options)); cbn [filter];
      rewrite ?forwarded_records_no_display, app_nil_r; reflexivity.
  - rewrite filter_app, Hc, jsonl_calls_of_chunks.
    pose proof (records_per_chunk_concat chunks "") as Hrecords.
    change (concat (records_per_chunk "" chunks)
            = completed_records (received chunks)) in Hrecords.
    rewrite Hrecords.
    destruct (supplied (onJsonlMessage options)); [|reflexivity].
    rewrite forwarded_records_all_jsonl, <- forwarded_records_app,
      <- completed_records_app.
    reflexivity.
Qed.

End ForwardingFacts.

(** ** The sandbox probe and the signal of the runner *)

Section SandboxProbeFacts.
Import Sandbox.
Context {host : Sandbox.Host}.

(** X8: [commandExists] never throws; it answers [false] for a blank
    command and when the spawn fails, and [true] only when the PATH lookup
    ([where] on Windows, [which] elsewhere) ran on the command and exited
    with code 0. *)
Theorem commandExists_sound (command : string) :
  exists found,
    commandExists command = Normal found /\
    (trim command = "" -> found = false) /\
    (found = true ->
     trim command <> "" /\
     spawn_exited [if String.eqb platform "win32" then "where" else "which";
                   command] = Normal 0%Z) /\
    (forall e,
        spawn_exited [if String.eqb platform "win32" then "where" else "which";
                      command] = Throw e ->
        found = false).
Proof.
  unfold commandExists.
  destruct (String.eqb_spec command "") as [->|Hc]; cbn [orb].
  { exists false. repeat split; try reflexivity; discriminate. }
  destruct (String.eqb_spec (trim command) "") as [Ht|Ht].
  { exists false. repeat split; try reflexivity; discriminate. }
  destruct (String.eqb platform "win32");
    (destruct (spawn_exited _) as [code|e] eqn:Hspawn; cbn [bind try_catch];
     [exists (Z.eqb code 0); split; [reflexivity|];
      split; [intros E; contradiction|];
      split; [intros Hz; apply Z.eqb_eq in Hz; subst; auto|discriminate]
     |exists false; split; [reflexivity|];
      split; [reflexivity|]; split; [discriminate|reflexivity]]).
Qed.

End SandboxProbeFacts.

Section ProcessSignalFacts.
Import Process.
Context {host : Process.Host}.

(** X9: a result of [runProcess] has [signal] either [null] or ['SIGTERM'];
    ['SIGTERM'] only when the timeout is positive, the child outlived it,
    and the exit code is that of the signalled child; a result without an
    exit code has no signal, no output and [success = false]; and without a
    positive timeout the signal is always [null]. *)
Theorem runProcess_signal_only_after_timeout
    (command : string) (args : list string) (options : RunOptions)
    (r : ProcessResult) :
  runProcess command args options = fulfilled r ->
  (signal r = None \/ signal r = Some "SIGTERM") /\
  (signal r = Some "SIGTERM" ->
   (0 < timeout_of options)%Z /\
   exists proc code,
     Bun_spawn (command :: args) (cwd options) (env options) = Normal proc /\
     outlives proc (timeout_of options) = true /\
     exited (signalled proc) = fulfilled code /\
     exitCode r = Some code) /\
  (exitCode r = None ->
   signal r = None /\ stdout r = "" /\ success r = false) /\
  ((timeout_of options <= 0)%Z -> signal r = None).
Proof.
  unfold runProcess.
  destruct (Bun_spawn _ _ _) as [proc|error] eqn:Hspawn.
  - destruct ((0 <? timeout_of options)%Z) eqn:Hpos; cbn [andb].
    + destruct (outlives proc (timeout_of options)) eqn:Hout.
      * destruct (stdout_text (signalled proc)) as [out|e|]; cbn [await try_await];
          [|intros H; injection H as <-; cbn;
            repeat split; auto; try discriminate; apply Z.ltb_lt in Hpos; lia
           |discriminate].
        destruct (stderr_text (signalled proc)) as [err|e|]; cbn [await try_await];
          [|intros H; injection H as <-; cbn;
            repeat split; auto; try discriminate; apply Z.ltb_lt in Hpos; lia
           |discriminate].
        destruct (exited (signalled proc)) as [code|e|] eqn:Hex;
          cbn [await try_await];
          [|intros H; injection H as <-; cbn;
            repeat split; auto; try discriminate; apply Z.ltb_lt in Hpos; lia
           |discriminate].
        intros H; injection H as <-; cbn.
        apply Z.ltb_lt in Hpos.
        split; [auto|]. split; [|split; [discriminate|lia]].
        intros _. split; [exact Hpos|]. exists proc, code. auto.
      * destruct (stdout_text (undisturbed proc)) as [out|e|]; cbn [await try_await];
          [|intros H; injection H as <-; cbn;
            repeat split; auto; discriminate
           |discriminate].
        destruct (stderr_text (undisturbed proc)) as [err|e|]; cbn [await try_await];
          [|intros H; injection H as <-; cbn;
            repeat split; auto; discriminate
           |discriminate].
        destruct (exited (undisturbed proc)) as [code|e|];
          cbn [await try_await];
          [|intros H; injection H as <-; cbn;
            repeat split; auto; discriminate
           |discriminate].
        intros H; injection H as <-; cbn.
        repeat split; auto; discriminate.
    + destruct (stdout_text (undisturbed proc)) as [out|e|]; cbn [await try_await];
        [|intros H; injection H as <-; cbn;
          repeat split; auto; discriminate
         |discriminate].
      destruct (stderr_text (undisturbed proc)) as [err|e|]; cbn [await try_await];
        [|intros H; injection H as <-; cbn;
          repeat split; auto; discriminate
         |discriminate].
      destruct (exited (undisturbed proc)) as [code|e|];
        cbn [await try_await];
        [|intros H; injection H as <-; cbn;
          repeat split; auto; discriminate
         |discriminate].
      intros H; injection H as <-; cbn.
      repeat split; auto; discriminate.
  - intros H; injection H as <-; cbn. repeat split; auto; discriminate.
Qed.

End ProcessSignalFacts.

(** ** The Codex plugin object *)

Section PluginFacts.
Import JS CodexPlugin.
Context {base_class : BaseAgentPlugin}.

Lemma create_configured (b : base_fields) : configured (create b).
Proof. split; [cbn; auto|discriminate]. Qed.

Lemma includes_string_In (modes : list string) (s : string) :
  includes_string modes s = true -> In s modes.
Proof.
  unfold includes_string. rewrite existsb_exists.
  intros [x [Hin Heq]]. apply String.eqb_eq in Heq. subst. exact Hin.
Qed.

Lemma initialize_configured (cfg : config) (p p' : plugin) :
  configured p -> initialize cfg p = Normal p' -> configured p'.
Proof.
  intros [Hs Hm]. unfold initialize.
  destruct (super_initialize cfg (base p)) as [b|]; cbn [bind]; [|discriminate].
  intros H. injection H as <-. split; cbn [sandbox model].
  - destruct (lookup "sandbox" cfg); try exact Hs.
    match goal with
    | |- In (if ?c then _ else _) _ => destruct c eqn:E; [|exact Hs]
    end.
    apply includes_string_In. exact E.
  - destruct (lookup "model" cfg); try exact Hm.
    destruct s; cbn [String.length Nat.ltb Nat.leb]; [exact Hm|discriminate].
Qed.

Lemma initialize_all_configured (cfgs : list config) (p p' : plugin) :
  configured p ->
  Codex.for_of initialize cfgs p = Normal p' ->
  configured p'.
Proof.
  revert p. induction cfgs as [|cfg cfgs IH]; intros p Hp; cbn [Codex.for_of].
  - intros H; inversion H; subst; exact Hp.
  - destruct (initialize cfg p) as [p1|] eqn:E; cbn [bind]; [|discriminate].
    apply IH. eapply initialize_configured; eassumption.
Qed.

(** X10: after any sequence of successful [initialize] calls on a new
    plugin the sandbox mode is one of the three accepted; [buildArgs] gives
    [exec], [--full-auto] when enabled, [--json], [--model m] when a model
    is set, [--sandbox mode], in this order, with no empty argument and
    without the prompt, which is what [getStdinInput] returns. *)
Theorem buildArgs_after_initialize
    (b : base_fields) (cfgs : list config) (p : plugin) (prompt : string) :
  Codex.for_of initialize cfgs (create b) = Normal p ->
  In (sandbox p) sandbox_modes /\
  buildArgs p prompt
  = ["exec"] ++ (if fullAuto p then ["--full-auto"] else []) ++ ["--json"]
    ++ (match model p with Some m => ["--model"; m] | None => [] end)
    ++ ["--sandbox"; sandbox p] /\
  ~ In "" (buildArgs p prompt) /\
  getStdinInput p prompt = prompt.
Proof.
  intros Hinit.
  destruct (initialize_all_configured cfgs _ _ (create_configured b) Hinit)
    as [Hs Hm].
  split; [exact Hs|].
  assert (Hargs : buildArgs p prompt
            = ["exec"] ++ (if fullAuto p then ["--full-auto"] else []) ++ ["--json"]
              ++ (match model p with Some m => ["--model"; m] | None => [] end)
              ++ ["--sandbox"; sandbox p]).
  { unfold buildArgs, model_given.
    destruct (fullAuto p); destruct (model p) as [m|]; try reflexivity;
      (destruct (String.eqb_spec m ""); [subst; contradiction Hm; reflexivity|];
       reflexivity). }
  split; [exact Hargs|]. split; [|reflexivity].
  rewrite Hargs. intros Hin.
  assert (Hsand : sandbox p <> "").
  { intros E. rewrite E in Hs. cbn in Hs.
    destruct Hs as [H|[H|[H|[]]]]; discriminate. }
  cbn in Hin.
  destruct Hin as [H|Hin]; [discriminate|].
  apply in_app_or in Hin as [Hin|Hin].
  { destruct (fullAuto p); cbn in Hin; [destruct Hin as [H|[]]; discriminate|contradiction]. }
  cbn in Hin. destruct Hin as [H|Hin]; [discriminate|].
  apply in_app_or in Hin as [Hin|Hin].
  { destruct (model p) as [m|]; cbn in Hin; [|contradiction].
    destruct Hin as [H|[H|[]]]; [discriminate|]. subst. apply Hm. reflexivity. }
  cbn in Hin. destruct Hin as [H|[H|[]]]; [discriminate|]. apply Hsand. exact H.
Qed.

End PluginFacts.

Section VersionFacts.
Import JS CodexPlugin.

Lemma span_digits_spec (s : string) :
  let '(ds, r) := span_digits s in
  s = (ds ++ r)%string /\ all_chars is_digit ds = true.
Proof.
  induction s as [|c s IH]; cbn [span_digits]; [split; reflexivity|].
  destruct (is_digit c) eqn:E; [|split; reflexivity].
  destruct (span_digits s) as [ds r]. destruct IH as [-> Hd].
  split; [reflexivity|]. cbn. rewrite E. exact Hd.
Qed.

Lemma match_version_here_spec (s v : string) :
  match_version_here s = Some v ->
  version_shaped v /\ exists post, s = (v ++ post)%string.
Proof.
  unfold match_version_here.
  pose proof (span_digits_spec s) as H1.
  destruct (span_digits s) as [d1 r1]. destruct H1 as [Hs Hd1].
  destruct (String.eqb_spec d1 "") as [|Hn1]; [discriminate|].
  destruct r1 as [|c1 r2]; [discriminate|].
  destruct (Ascii.eqb_spec c1 "."%char) as [->|Hc1];
    [|destruct c1 as [[] [] [] [] [] [] [] []]; try discriminate;
      contradiction Hc1; reflexivity].
  pose proof (span_digits_spec r2) as H2.
  destruct (span_digits r2) as [d2 r3]. destruct H2 as [Hr2 Hd2].
  destruct (String.eqb_spec d2 "") as [|Hn2]; [discriminate|].
  destruct r3 as [|c2 r4]; [discriminate|].
  destruct (Ascii.eqb_spec c2 "."%char) as [->|Hc2];
    [|destruct c2 as [[] [] [] [] [] [] [] []]; try discriminate;
      contradiction Hc2; reflexivity].
  pose proof (span_digits_spec r4) as H3.
  destruct (span_digits r4) as [d3 r5]. destruct H3 as [Hr4 Hd3].
  destruct (String.eqb_spec d3 "") as [|Hn3]; [discriminate|].
  intros H; inversion H; subst; clear H. split.
  - exists d1, d2, d3. repeat split; assumption.
  - exists r5. cbn.
    rewrite !append_assoc. cbn. rewrite !append_assoc. reflexivity.
Qed.

Lemma match_version_spec (s v : string) :
  match_version s = Some v -> version_shaped v /\ occurs_in v s.
Proof.
  induction s as [|c s IH]; cbn [match_version].
  - destruct (match_version_here "") as [v'|] eqn:E; [|discriminate].
    intros H; inversion H; subst.
    destruct (match_version_here_spec _ _ E) as [Hv [post Hp]].
    split; [exact Hv|]. exists "", post. exact Hp.
  - destruct (match_version_here (String c s)) as [v'|] eqn:E.
    + intros H; inversion H; subst.
      destruct (match_version_here_spec _ _ E) as [Hv [post Hp]].
      split; [exact Hv|]. exists "", post. exact Hp.
    + intros H. destruct (IH H) as [Hv [pre [post ->]]].
      split; [exact Hv|]. exists (String c pre), post. reflexivity.
Qed.

Lemma on_event_settled (ev : proc_event) (st : version_run) (r : version_result) :
  resolved st = Some r -> resolved (on_event ev st) = Some r.
Proof.
  intros H. destruct ev as [d|d|m|code|]; cbn; try exact H;
    unfold resolve; try (rewrite H; exact H).
  destruct code as [[| |]|]; try (rewrite H; exact H).
  destruct (match_version (stdout st)); rewrite H; exact H.
Qed.

Lemma run_settled (events : list proc_event) (st : version_run) (r : version_result) :
  resolved st = Some r ->
  resolved (fold_left (fun st ev => on_event ev st) events st) = Some r.
Proof.
  revert st. induction events as [|ev events IH]; intros st H; [exact H|].
  cbn [fold_left]. apply IH, on_event_settled, H.
Qed.

Lemma on_event_settles (ev : proc_event) (st : version_run) :
  data_event ev = false -> resolved (on_event ev st) <> None.
Proof.
  intros Hev. destruct ev as [d|d|m|code|]; try discriminate; cbn; unfold resolve.
  - destruct (resolved st) eqn:E; cbn; [rewrite E|]; discriminate.
  - destruct code as [[| |]|];
      try (destruct (resolved st) eqn:E; cbn; [rewrite E|]; discriminate).
    destruct (match_version (stdout st));
      destruct (resolved st) eqn:E; cbn; try rewrite E; discriminate.
  - destruct (resolved st) eqn:E; cbn; [rewrite E|]; discriminate.
Qed.

Lemma on_event_stdout (ev : proc_event) (st : version_run) :
  stdout (on_event ev st)
  = match ev with
    | stdout_data d => (stdout st ++ d)%string
    | _ => stdout st
    end.
Proof.
  destruct ev as [d|d|m|code|]; cbn; unfold resolve; try reflexivity;
    try (destruct (resolved st); reflexivity).
  destruct code as [[| |]|]; try (destruct (resolved st); reflexivity).
  destruct (match_version (stdout st)); destruct (resolved st); reflexivity.
Qed.

Lemma occurs_in_app (v s d : string) : occurs_in v s -> occurs_in v (s ++ d).
Proof.
  intros [pre [post ->]]. exists pre, (post ++ d)%string.
  rewrite !append_assoc. reflexivity.
Qed.

Lemma sound_result_app (out d : string) (r : version_result) :
  sound_result out r -> sound_result (out ++ d) r.
Proof.
  unfold sound_result. destruct (success r); [|auto].
  intros [v [Hv [He [Hshape Hocc]]]]. exists v.
  repeat split; try assumption. apply occurs_in_app. exact Hocc.
Qed.

Lemma on_event_sound (ev : proc_event) (st : version_run) :
  sound_run st -> sound_run (on_event ev st).
Proof.
  intros Hst r Hr.
  destruct (resolved st) as [r1|] eqn:E.
  - rewrite (on_event_settled ev st r1 E) in Hr. injection Hr as <-.
    specialize (Hst r1 E). rewrite on_event_stdout.
    destruct ev; try exact Hst. apply sound_result_app. exact Hst.
  - assert (Hnew : forall r', resolved (resolve r' st) = Some r')
      by (intros r'; unfold resolve; rewrite E; reflexivity).
    destruct ev as [d|d|m|code|]; cbn [on_event] in Hr.
    + cbn in Hr. congruence.
    + cbn in Hr. congruence.
    + rewrite Hnew in Hr. injection Hr as <-. cbn. discriminate.
    + destruct code as [[|c|c]|];
        try (rewrite Hnew in Hr; injection Hr as <-; cbn; discriminate).
      destruct (match_version (stdout st)) as [v|] eqn:Ev;
        rewrite Hnew in Hr; injection Hr as <-; [|cbn; discriminate].
      destruct (match_version_spec _ _ Ev) as [Hshape Hocc].
      rewrite on_event_stdout. cbn. exists v. repeat split; assumption.
    + rewrite Hnew in Hr. injection Hr as <-. cbn. discriminate.
Qed.

Lemma run_sound (events : list proc_event) (st : version_run) :
  sound_run st ->
  sound_run (fold_left (fun st ev => on_event ev st) events st).
Proof.
  revert st. induction events as [|ev events IH]; intros st H; [exact H|].
  cbn [fold_left]. apply IH, on_event_sound, H.
Qed.

Lemma run_stdout (events : list proc_event) (st : version_run) :
  stdout (fold_left (fun st ev => on_event ev st) events st)
  = fold_left (fun acc ev => match ev with
                             | stdout_data d => (acc ++ d)%string
                             | _ => acc
                             end) events (stdout st).
Proof.
  revert st. induction events as [|ev events IH]; intros st; [reflexivity|].
  cbn [fold_left]. rewrite IH, on_event_stdout. reflexivity.
Qed.

Lemma runVersion_sound (events : list proc_event) (r : version_result) :
  runVersion events = Some r -> sound_result (stdout_of events) r.
Proof.
  unfold runVersion. intros H.
  pose proof (run_sound events {| stdout := ""; stderr := ""; resolved := None |})
    as Hsound.
  specialize (Hsound (fun r0 Hr0 => ltac:(discriminate)) r H).
  rewrite run_stdout in Hsound. exact Hsound.
Qed.

(** X11: the result of [runVersion] is that of the first event that settles
    it: later events never change it; once the 5000 ms timer has fired the
    promise is settled; and when only output arrived before the timer the
    result is the timeout failure. *)
Theorem runVersion_first_resolution_stands (events later : list proc_event) :
  (forall r, runVersion events = Some r ->
             runVersion (events ++ later) = Some r) /\
  (In timeout_5000 events -> runVersion events <> None) /\
  (Forall (fun ev => data_event ev = true) events ->
   runVersion (events ++ [timeout_5000])
   = Some {| success := false; version := None;
             error := Some "Timeout waiting for --version" |}).
Proof.
  unfold runVersion. split; [|split].
  - intros r H. rewrite fold_left_app. apply run_settled. exact H.
  - intros Hin. apply in_split in Hin as [pre [post ->]].
    rewrite fold_left_app. cbn [fold_left].
    intros H.
    destruct (resolved (on_event timeout_5000
                (fold_left (fun st ev => on_event ev st) pre
                   {| stdout := ""; stderr := ""; resolved := None |})))
      as [r|] eqn:E.
    + rewrite (run_settled post _ r E) in H. discriminate.
    + exact (on_event_settles timeout_5000 _ eq_refl E).
  - intros Hdata. rewrite fold_left_app. cbn [fold_left on_event].
    assert (Hpending : forall st,
               resolved st = None ->
               resolved (fold_left (fun st ev => on_event ev st) events st) = None).
    { induction Hdata as [|ev evs Hev Hevs IH]; intros st Hst; [exact Hst|].
      cbn [fold_left]. apply IH.
      destruct ev; try discriminate; exact Hst. }
    unfold resolve. rewrite Hpending by reflexivity. reflexivity.
Qed.

(** X12: a successful [runVersion] result carries a version made of three
    dot-separated runs of digits that occurs in the output received, and no
    error; a failed one carries an error message. *)
Theorem runVersion_success_has_a_version
    (events : list proc_event) (r : version_result) :
  runVersion events = Some r ->
  (success r = true ->
   exists v, version r = Some v /\ error r = None /\
             version_shaped v /\ occurs_in v (stdout_of events)) /\
  (success r = false -> error r <> None).
Proof.
  intros H. pose proof (runVersion_sound events r H) as Hsound.
  unfold sound_result in Hsound.
  destruct (success r); split; try discriminate; intros _; exact Hsound.
Qed.

Context {base_class : BaseAgentPlugin}.

(** X13: [detect] reports the agent available only when the command was
    found and its version parsed: the result then carries that path and a
    well-formed version, and the path is stored for [execute]; when it is
    not available the plugin is unchanged and the result carries an error;
    the model, full-auto and sandbox settings are never touched. *)
Theorem detect_available_only_with_a_version
    (events : list proc_event) (p p' : plugin) (r : detect_result) :
  detect events p = Normal (Some (r, p')) ->
  (available r = true ->
   exists path v,
     findCommandPath (match commandPath (base p) with
                      | Some c => c
                      | None => "codex"
                      end) = Normal (true, path) /\
     executablePath r = Some path /\
     detected_version r = Some v /\ version_shaped v /\
     detect_error r = None /\
     commandPath (base p') = Some path) /\
  (available r = false -> p' = p /\ detect_error r <> None) /\
  model p' = model p /\ fullAuto p' = fullAuto p /\ sandbox p' = sandbox p.
Proof.
  unfold detect.
  destruct (findCommandPath _) as [[found path]|] eqn:Hfind; cbn [bind];
    [|discriminate].
  destruct found; cbn [negb].
  - destruct (runVersion events) as [vr|] eqn:Hrun; [|discriminate].
    pose proof (runVersion_sound events vr Hrun) as Hsound.
    unfold sound_result in Hsound.
    destruct (success vr) eqn:Hs; cbn [negb]; intros H; injection H as <- <-.
    + destruct Hsound as [v [Hv [_ [Hshape _]]]].
      split; [intros _; exists path, v; cbn; repeat split; auto|].
      split; [discriminate|]. cbn. auto.
    + split; [discriminate|].
      split; [|auto]. intros _. split; [reflexivity|]. cbn. exact Hsound.
  - intros H; injection H as <- <-.
    split; [discriminate|]. split; [|auto].
    intros _. split; [reflexivity|discriminate].
Qed.

End VersionFacts.

(** ** The display helpers *)

Section SliceFacts.
Context {A : Type}.

Lemma slice_from_start (xs : list A) (n : Z) :
  (0 <= n)%Z ->
  Slice.slice xs 0 (Some n) = firstn (Z.to_nat n) xs.
Proof.
  intros Hn. unfold Slice.slice, Slice.clamp.
  destruct (Z.ltb_spec n 0); [lia|].
  change (0 <? 0)%Z with false. cbv iota.
  rewrite (Z.min_l 0) by lia. cbn [Z.to_nat skipn].
  destruct (Z.le_gt_cases n (Z.of_nat (List.length xs))) as [Hle|Hgt].
  - f_equal. lia.
  - rewrite !firstn_all2 by lia. reflexivity.
Qed.

Lemma slice_length_le (xs : list A) (start : Z) (end_ : option Z) :
  List.length (Slice.slice xs start end_) <= List.length xs.
Proof.
  unfold Slice.slice. rewrite length_firstn, length_skipn. lia.
Qed.

Lemma In_firstn (n : nat) (xs : list A) (x : A) :
  In x (firstn n xs) -> In x xs.
Proof.
  intros H. rewrite <- (firstn_skipn n xs). apply in_or_app. left. exact H.
Qed.

Lemma In_skipn (n : nat) (xs : list A) (x : A) :
  In x (skipn n xs) -> In x xs.
Proof.
  intros H. rewrite <- (firstn_skipn n xs). apply in_or_app. right. exact H.
Qed.

Lemma slice_incl (xs : list A) (start : Z) (end_ : option Z) :
  incl (Slice.slice xs start end_) xs.
Proof.
  unfold Slice.slice. intros x Hin.
  apply In_firstn in Hin. apply In_skipn in Hin. exact Hin.
Qed.

End SliceFacts.

Section TruncateFacts.
Import FileBrowser.

(** X14: for a width of at least 1 the file browser's [truncateText] gives
    a text that fits the width: the text itself when it fits, else its first
    [maxWidth - 1] code units followed by the ellipsis, exactly [maxWidth]
    long. *)
Theorem FileBrowser_truncateText_fits (text : ustring) (maxWidth : Z) :
  (1 <= maxWidth)%Z ->
  (Z.of_nat (List.length (truncateText text maxWidth)) <= maxWidth)%Z /\
  ((Z.of_nat (List.length text) <= maxWidth)%Z ->
   truncateText text maxWidth = text) /\
  ((maxWidth < Z.of_nat (List.length text))%Z ->
   truncateText text maxWidth
   = firstn (Z.to_nat (maxWidth - 1)) text ++ [ellipsis] /\
   Z.of_nat (List.length (truncateText text maxWidth)) = maxWidth).
Proof.
  intros Hw. unfold truncateText.
  destruct (Z.leb_spec (Z.of_nat (List.length text)) maxWidth) as [Hfit|Hlong].
  - split; [exact Hfit|]. split; [reflexivity|]. lia.
  - rewrite slice_from_start by lia.
    assert (Hlen : List.length (firstn (Z.to_nat (maxWidth - 1)) text ++ [ellipsis])
                   = Z.to_nat maxWidth).
    { rewrite length_app, length_firstn. cbn [List.length]. lia. }
    rewrite Hlen. split; [lia|]. split; [lia|].
    intros _. split; [reflexivity|lia].
Qed.

(** X15: for a width of 0 or less the file browser's [truncateText] gives a
    non-empty text more than the width allows: the text without its last
    [1 - maxWidth] code units, followed by the ellipsis. *)
Theorem FileBrowser_truncateText_no_room (text : ustring) (maxWidth : Z) :
  (maxWidth <= 0)%Z ->
  text <> [] ->
  truncateText text maxWidth
  = firstn (List.length text - Z.to_nat (1 - maxWidth)) text ++ [ellipsis] /\
  (maxWidth < Z.of_nat (List.length (truncateText text maxWidth)))%Z.
Proof.
  intros Hw Hne. unfold truncateText.
  assert (Hpos : 0 < List.length text) by (destruct text; [contradiction|cbn; lia]).
  destruct (Z.leb_spec (Z.of_nat (List.length text)) maxWidth) as [Hfit|Hlong];
    [lia|].
  unfold Slice.slice, Slice.clamp.
  change (0 <? 0)%Z with false. cbv iota.
  destruct (Z.ltb_spec (maxWidth - 1) 0) as [_|?]; [|lia].
  rewrite (Z.min_l 0) by lia. cbn [Z.to_nat skipn].
  replace (Z.to_nat (Z.max (Z.max (Z.of_nat (List.length text) + (maxWidth - 1)) 0 - 0) 0))
    with (List.length text - Z.to_nat (1 - maxWidth)) by lia.
  split; [reflexivity|].
  rewrite length_app. cbn [List.length]. lia.
Qed.

(** X16: for a width of 0 or more the dashboard's [truncateText] always
    fits the width: the text itself when it fits, a bare cut for widths up
    to 3, else the first [maxWidth - 1] code units and the ellipsis. *)
Theorem ProgressDashboard_truncateText_fits (text : ustring) (maxWidth : Z) :
  (0 <= maxWidth)%Z ->
  (Z.of_nat (List.length (ProgressDashboard.truncateText text maxWidth))
   <= maxWidth)%Z /\
  ((Z.of_nat (List.length text) <= maxWidth)%Z ->
   ProgressDashboard.truncateText text maxWidth = text) /\
  ((maxWidth < Z.of_nat (List.length text))%Z ->
   ProgressDashboard.truncateText text maxWidth
   = if (maxWidth <=? 3)%Z then firstn (Z.to_nat maxWidth) text
     else firstn (Z.to_nat (maxWidth - 1)) text ++ [ellipsis]).
Proof.
  intros Hw. unfold ProgressDashboard.truncateText.
  destruct (Z.leb_spec (Z.of_nat (List.length text)) maxWidth) as [Hfit|Hlong].
  - split; [exact Hfit|]. split; [reflexivity|]. lia.
  - destruct (Z.leb_spec maxWidth 3) as [Hsmall|Hbig].
    + rewrite slice_from_start by lia.
      rewrite length_firstn. split; [lia|]. split; [lia|]. reflexivity.
    + rewrite slice_from_start by lia.
      rewrite length_app, length_firstn. cbn [List.length].
      split; [lia|]. split; [lia|]. reflexivity.
Qed.

End TruncateFacts.

Section FormatPathFacts.
Import JS FileBrowser.
Context {os : Os}.

Lemma prefix_app_drop (p s : string) :
  String.prefix p s = true -> s = (p ++ drop (String.length p) s)%string.
Proof.
  revert s. induction p as [|c p IH]; intros s H.
  - reflexivity.
  - destruct s as [|d s]; [discriminate|]. cbn in H.
    destruct (Ascii.ascii_dec c d) as [->|]; [|discriminate].
    cbn. f_equal. apply IH. exact H.
Qed.

Lemma prefix_app_l (p q s : string) :
  String.prefix (p ++ q) s = true -> String.prefix p s = true.
Proof.
  revert s. induction p as [|c p IH]; intros s H.
  - destruct s; reflexivity.
  - destruct s as [|d s]; [discriminate|]. cbn in *.
    destruct (Ascii.ascii_dec c d); [|discriminate]. apply IH. exact H.
Qed.

Lemma prefix_refl (s : string) : String.prefix s s = true.
Proof.
  induction s as [|c s IH]; [reflexivity|]. cbn.
  destruct (Ascii.ascii_dec c c); [exact IH|contradiction].
Qed.

Lemma drop_app_length (p r : string) : drop (String.length p) (p ++ r) = r.
Proof. induction p as [|c p IH]; [reflexivity|]. exact IH. Qed.

Lemma prefix_app_inv (p r s : string) :
  String.prefix (p ++ r) (p ++ s) = String.prefix r s.
Proof.
  induction p as [|c p IH]; [reflexivity|]. cbn.
  destruct (Ascii.ascii_dec c c); [exact IH|contradiction].
Qed.

Lemma drop_all (s : string) : drop (String.length s) s = "".
Proof. induction s as [|c s IH]; [reflexivity|]. exact IH. Qed.

(** X17: [formatPath] either leaves the path as it is (when it is neither
    the home directory nor below it), or replaces the home directory by [~]
    in front of the rest, which is empty or starts with the separator; the
    path is recovered by putting the home directory back. *)
Theorem formatPath_home_round_trip (path : string) :
  (exists rest,
      path = (homedir ++ rest)%string /\
      (rest = "" \/ String.prefix sep rest = true) /\
      formatPath path = ("~" ++ rest)%string /\
      (homedir ++ drop 1 (formatPath path))%string = path)
  \/
  (formatPath path = path /\
   path <> homedir /\
   String.prefix (homedir ++ sep) path = false).
Proof.
  unfold formatPath.
  destruct (String.eqb_spec path homedir) as [->|Hne]; cbn [orb].
  - left. exists "". rewrite drop_all, append_empty_r.
    repeat split; auto. cbn [drop append]. apply append_empty_r.
  - destruct (String.prefix (homedir ++ sep) path) eqn:Hp.
    + left. pose proof (prefix_app_l _ _ _ Hp) as Hh.
      pose proof (prefix_app_drop _ _ Hh) as Hpath.
      exists (drop (String.length homedir) path).
      split; [exact Hpath|]. split.
      * right. rewrite Hpath in Hp. rewrite prefix_app_inv in Hp. exact Hp.
      * split; [reflexivity|]. cbn [drop append]. symmetry. exact Hpath.
    + right. repeat split; auto.
Qed.

End FormatPathFacts.

Section CharFacts.
Import JS AgentOutput.
Variable p : ascii -> bool.

Lemma all_chars_app (a b : string) :
  all_chars p (a ++ b) = all_chars p a && all_chars p b.
Proof.
  induction a as [|c a IH]; [reflexivity|]. cbn. rewrite IH, andb_assoc. reflexivity.
Qed.

Lemma all_chars_trimStart (s : string) :
  all_chars p s = true -> all_chars p (trimStart s) = true.
Proof.
  induction s as [|c s IH]; [reflexivity|]. cbn [trimStart].
  destruct (is_space c); [|auto].
  cbn. intros H. apply andb_true_iff in H as [_ H]. auto.
Qed.

Lemma all_chars_trimEnd (s : string) :
  all_chars p s = true -> all_chars p (trimEnd s) = true.
Proof.
  induction s as [|c s IH]; [reflexivity|]. cbn [trimEnd all_chars].
  intros H. apply andb_true_iff in H as [Hc Hs]. specialize (IH Hs).
  destruct (trimEnd s) as [|d r].
  - destruct (is_space c); cbn; [reflexivity|]. rewrite Hc. reflexivity.
  - cbn [all_chars]. rewrite Hc. exact IH.
Qed.

Lemma all_chars_trim (s : string) :
  all_chars p s = true -> all_chars p (trim s) = true.
Proof. intros H. apply all_chars_trimEnd, all_chars_trimStart, H. Qed.

Lemma all_chars_split (sep : ascii) (s : string) :
  all_chars p s = true -> Forall (fun l => all_chars p l = true) (split sep s).
Proof.
  induction s as [|c s IH]; intros H; cbn [split].
  - repeat constructor.
  - cbn in H. apply andb_true_iff in H as [Hc Hs]. specialize (IH Hs).
    destruct (Ascii.eqb c sep); [constructor; [reflexivity|exact IH]|].
    destruct (split sep s) as [|l ls].
    + repeat constructor. cbn. rewrite Hc. reflexivity.
    + inversion IH; subst. constructor; [|assumption]. cbn. rewrite Hc. assumption.
Qed.

Lemma all_chars_last (ls : list string) :
  Forall (fun l => all_chars p l = true) ls -> all_chars p (last ls "") = true.
Proof.
  induction 1 as [|l ls Hl Hls IH]; [reflexivity|].
  destruct ls; [exact Hl|exact IH].
Qed.

Lemma all_chars_skip_while (q : ascii -> bool) (s : string) :
  all_chars p s = true -> all_chars p (skip_while q s) = true.
Proof.
  induction s as [|c s IH]; [reflexivity|]. cbn [skip_while].
  destruct (q c); [|auto]. cbn. intros H. apply andb_true_iff in H as [_ H]. auto.
Qed.

Lemma all_chars_env_assignment (s rest : string) :
  all_chars p s = true -> env_assignment s = Some rest ->
  all_chars p rest = true.
Proof.
  intros Hs. unfold env_assignment.
  destruct (negb _); [discriminate|].
  pose proof (all_chars_skip_while is_word _
                (all_chars_skip_while is_space _ Hs)) as H1.
  destruct (skip_while is_word (skip_while is_space s)) as [|c s2]; [discriminate|].
  destruct (Ascii.eqb_spec c "="%char) as [->|Hne].
  - cbn in H1. apply andb_true_iff in H1 as [_ H1].
    pose proof (all_chars_skip_while (fun c => negb (is_space c)) _ H1) as H3.
    destruct (starts_with_a _ _); [|discriminate].
    intros H; inversion H; subst. apply all_chars_skip_while. exact H3.
  - destruct c as [[] [] [] [] [] [] [] []]; try discriminate.
    contradiction Hne. reflexivity.
Qed.

Lemma all_chars_env_assignments (fuel : nat) (s rest : string) :
  all_chars p s = true -> env_assignments fuel s = Some rest ->
  all_chars p rest = true.
Proof.
  revert s rest. induction fuel as [|fuel IH]; intros s rest Hs; [discriminate|].
  cbn [env_assignments].
  destruct (env_assignment s) as [r|] eqn:E; [|discriminate].
  pose proof (all_chars_env_assignment _ _ Hs E) as Hr.
  destruct (env_assignments fuel r) as [r'|] eqn:E'.
  - intros H; inversion H; subst. eapply IH; eassumption.
  - intros H; inversion H; subst. exact Hr.
Qed.

Lemma all_chars_take (n : nat) (s : string) :
  all_chars p s = true -> all_chars p (take n s) = true.
Proof.
  revert s. induction n as [|n IH]; intros s H; [reflexivity|].
  destruct s as [|c s]; [reflexivity|]. cbn in *.
  apply andb_true_iff in H as [Hc Hs]. rewrite Hc. cbn. apply IH, Hs.
Qed.

End CharFacts.

Section FormatCommandFacts.
Import JS AgentOutput.

Lemma replace_newlines_clean (s : string) :
  all_chars not_newline (replace_newlines s) = true.
Proof.
  induction s as [|c s IH]; [reflexivity|]. cbn. rewrite IH, andb_true_r.
  unfold not_newline. destruct (Ascii.eqb c newline) eqn:E; [reflexivity|].
  rewrite E. reflexivity.
Qed.

Lemma take_length (n : nat) (s : string) : String.length (take n s) <= n.
Proof.
  revert s. induction n as [|n IH]; intros s; [cbn; lia|].
  destruct s as [|c s]; cbn; [lia|]. specialize (IH s). lia.
Qed.

Lemma length_append (a b : string) :
  String.length (a ++ b) = String.length a + String.length b.
Proof. induction a as [|c a IH]; [reflexivity|]. cbn. rewrite IH. reflexivity. Qed.

(** X18: the text [formatCommand] gives is the prefix [$ ] followed by at
    most 103 characters, and holds no newline. *)
Theorem formatCommand_fits_one_line (command : string) :
  exists cmd,
    formatCommand command = ("$ " ++ cmd)%string /\
    String.length cmd <= 103 /\
    String.length (formatCommand command) <= 105 /\
    all_chars not_newline (formatCommand command) = true.
Proof.
  unfold formatCommand.
  set (c0 := trim (replace_newlines command)).
  assert (H0 : all_chars not_newline c0 = true)
    by apply all_chars_trim, replace_newlines_clean.
  set (c1 := if includes c0 ";" then trim (last (split ";"%char c0) "") else c0).
  assert (H1 : all_chars not_newline c1 = true).
  { unfold c1. destruct (includes c0 ";"); [|exact H0].
    apply all_chars_trim, all_chars_last, all_chars_split, H0. }
  set (c2 := match envVarPattern c1 with Some rest => trim rest | None => c1 end).
  assert (H2 : all_chars not_newline c2 = true).
  { unfold c2, envVarPattern.
    destruct (env_assignments _ c1) as [rest|] eqn:E; [|exact H1].
    apply all_chars_trim. eapply all_chars_env_assignments; eassumption. }
  set (c3 := if (100 <? String.length c2)%nat then (take 100 c2 ++ "...")%string
             else c2).
  assert (H3 : all_chars not_newline c3 = true /\ String.length c3 <= 103).
  { unfold c3. destruct (Nat.ltb_spec 100 (String.length c2)).
    - split.
      + rewrite all_chars_app, (all_chars_take _ _ _ H2). reflexivity.
      + rewrite length_append. pose proof (take_length 100 c2).
        change (String.length "...") with 3. lia.
    - split; [exact H2|lia]. }
  destruct H3 as [H3 Hlen].
  exists c3. split; [reflexivity|]. split; [exact Hlen|].
  split; [rewrite length_append; change (String.length "$ ") with 2; lia|].
  rewrite all_chars_app. rewrite H3. reflexivity.
Qed.

End FormatCommandFacts.

Section EnvVarPatternFacts.
Import JS AgentOutput.

Lemma skip_while_suffix (p : ascii -> bool) (s : string) :
  exists pre, s = (pre ++ skip_while p s)%string.
Proof.
  induction s as [|c s [pre IH]]; [exists ""; reflexivity|].
  cbn [skip_while]. destruct (p c).
  - exists (String c pre). cbn. f_equal. exact IH.
  - exists "". reflexivity.
Qed.

Lemma env_assignment_suffix (s rest : string) :
  env_assignment s = Some rest ->
  exists matched, s = (matched ++ rest)%string /\ 3 <= String.length matched.
Proof.
  unfold env_assignment.
  destruct (skip_while_suffix is_space s) as [p1 H1].
  destruct (starts_with_a is_word (skip_while is_space s)) eqn:Hw; cbn [negb];
    [|discriminate].
  destruct (skip_while_suffix is_word (skip_while is_space s)) as [p2 H2].
  assert (Hp2 : 1 <= String.length p2).
  { destruct (skip_while is_space s) as [|c r]; [discriminate|].
    cbn in Hw. cbn [skip_while] in H2. rewrite Hw in H2.
    destruct p2; [|cbn; lia].
    cbn in H2. exfalso.
    assert (Hlen : String.length (String c r) = String.length (skip_while is_word r))
      by (rewrite H2 at 1; reflexivity).
    destruct (skip_while_suffix is_word r) as [q Hq].
    rewrite Hq in Hlen at 1. cbn in Hlen. rewrite length_append in Hlen. lia. }
  destruct (skip_while is_word (skip_while is_space s)) as [|c s2]; [discriminate|].
  destruct (Ascii.eqb_spec c "="%char) as [->|Hne];
    [|destruct c as [[] [] [] [] [] [] [] []]; try discriminate;
      contradiction Hne; reflexivity].
  destruct (skip_while_suffix (fun c => negb (is_space c)) s2) as [p3 H3].
  destruct (starts_with_a is_space (skip_while (fun c => negb (is_space c)) s2))
    eqn:Hs; [|discriminate].
  destruct (skip_while_suffix is_space
              (skip_while (fun c => negb (is_space c)) s2)) as [p4 H4].
  assert (Hp4 : 1 <= String.length p4).
  { destruct (skip_while (fun c => negb (is_space c)) s2) as [|d r]; [discriminate|].
    cbn in Hs. cbn [skip_while] in H4. rewrite Hs in H4.
    destruct p4; [|cbn; lia].
    cbn in H4. exfalso.
    assert (Hlen : String.length (String d r) = String.length (skip_while is_space r))
      by (rewrite H4 at 1; reflexivity).
    destruct (skip_while_suffix is_space r) as [q Hq].
    rewrite Hq in Hlen at 1. cbn in Hlen. rewrite length_append in Hlen. lia. }
  intros H; injection H as <-.
  exists (p1 ++ p2 ++ "=" ++ p3 ++ p4)%string. split.
  - rewrite H1 at 1. rewrite H2 at 1. rewrite H3 at 1. rewrite H4 at 1.
    rewrite !append_assoc. reflexivity.
  - rewrite !length_append. cbn [String.length]. lia.
Qed.

Lemma env_assignments_done (fuel : nat) (s : string) :
  String.length s < fuel ->
  env_assignments fuel s = None -> env_assignment s = None.
Proof.
  intros Hfuel. destruct fuel as [|fuel]; [lia|]. cbn [env_assignments].
  destruct (env_assignment s) as [rest|]; [|reflexivity].
  destruct (env_assignments fuel rest); discriminate.
Qed.

Lemma env_assignments_strips_all (fuel : nat) (s rest : string) :
  String.length s < fuel ->
  env_assignments fuel s = Some rest ->
  env_assignment rest = None /\
  exists matched, s = (matched ++ rest)%string /\ 3 <= String.length matched.
Proof.
  revert s rest. induction fuel as [|fuel IH]; intros s rest Hfuel; [lia|].
  cbn [env_assignments].
  destruct (env_assignment s) as [r|] eqn:E; [|discriminate].
  destruct (env_assignment_suffix _ _ E) as [m [Hs Hm]].
  assert (Hr : String.length r < fuel).
  { rewrite Hs, length_append in Hfuel. lia. }
  destruct (env_assignments fuel r) as [r'|] eqn:E'.
  - intros H; injection H as <-.
    destruct (IH r r' Hr E') as [Hnone [m' [Hr' Hm']]].
    split; [exact Hnone|]. exists (m ++ m')%string. split.
    + rewrite Hs, Hr' at 1. rewrite append_assoc. reflexivity.
    + rewrite length_append. lia.
  - intros H; injection H as <-.
    split; [eapply env_assignments_done; eassumption|].
    exists m. auto.
Qed.

(** More fuel than the length of the string changes nothing. *)
Lemma env_assignments_fuel (fuel1 fuel2 : nat) (s : string) :
  String.length s < fuel1 -> String.length s < fuel2 ->
  env_assignments fuel1 s = env_assignments fuel2 s.
Proof.
  revert fuel2 s. induction fuel1 as [|fuel1 IH]; intros fuel2 s H1 H2; [lia|].
  destruct fuel2 as [|fuel2]; [lia|]. cbn [env_assignments].
  destruct (env_assignment s) as [r|] eqn:E; [|reflexivity].
  destruct (env_assignment_suffix _ _ E) as [m [Hs Hm]].
  rewrite Hs, length_append in H1, H2.
  rewrite (IH fuel2 r) by lia. reflexivity.
Qed.

(** X19: when the pattern of leading [VAR=value] assignments in
    [formatCommand] matches, it consumes all of them: what is left is a
    proper suffix of the command that does not start with another
    assignment (and the scan does not depend on its fuel). *)
Theorem envVarPattern_strips_every_assignment (s rest : string) :
  envVarPattern s = Some rest ->
  env_assignment rest = None /\
  (exists matched, s = (matched ++ rest)%string /\ 3 <= String.length matched) /\
  (forall fuel, String.length s < fuel -> env_assignments fuel s = Some rest).
Proof.
  unfold envVarPattern. intros H.
  destruct (env_assignments_strips_all _ _ _ (Nat.lt_succ_diag_r _) H)
    as [Hnone Hsuffix].
  split; [exact Hnone|]. split; [exact Hsuffix|].
  intros fuel Hfuel. rewrite <- H. apply env_assignments_fuel; lia.
Qed.

End EnvVarPatternFacts.

(** ** Fuzzy search *)

Section FuzzyFacts.
Import JS Fuzzy.

Lemma toLowerCase_app (a b : string) :
  toLowerCase (a ++ b) = (toLowerCase a ++ toLowerCase b)%string.
Proof. induction a as [|c a IH]; [reflexivity|]. cbn. rewrite IH. reflexivity. Qed.

Lemma prefix_split (p s : string) :
  String.prefix p s = true -> exists post, s = (p ++ post)%string.
Proof.
  revert s. induction p as [|c p IH]; intros s H.
  - exists s. reflexivity.
  - destruct s as [|d s]; [discriminate|]. cbn in H.
    destruct (Ascii.ascii_dec c d) as [->|]; [|discriminate].
    destruct (IH s H) as [post ->]. exists post. reflexivity.
Qed.

Lemma includes_split (hay needle : string) :
  includes hay needle = true ->
  exists pre post, hay = (pre ++ needle ++ post)%string.
Proof.
  induction hay as [|c hay IH]; cbn [includes]; intros H.
  - rewrite orb_false_r in H. destruct (prefix_split _ _ H) as [post ->].
    exists "", post. reflexivity.
  - apply orb_true_iff in H as [H|H].
    + destruct (prefix_split _ _ H) as [post ->]. exists "", post. reflexivity.
    + destruct (IH H) as [pre [post ->]]. exists (String c pre), post. reflexivity.
Qed.

Lemma Subsequence_refl (s : string) : Subsequence s s.
Proof. induction s; constructor; assumption. Qed.

Lemma Subsequence_app_r (q s post : string) :
  Subsequence q s -> Subsequence q (s ++ post).
Proof. induction 1; cbn; constructor; assumption. Qed.

Lemma Subsequence_app_l (q pre s : string) :
  Subsequence q s -> Subsequence q (pre ++ s).
Proof. intros H. induction pre; cbn; [assumption|]. constructor. assumption. Qed.

Lemma Subsequence_inside (q pre post : string) :
  Subsequence q (pre ++ q ++ post).
Proof. apply Subsequence_app_l, Subsequence_app_r, Subsequence_refl. Qed.

Lemma Subsequence_length (q s : string) :
  Subsequence q s -> String.length q <= String.length s.
Proof. induction 1; cbn; lia. Qed.

(** The loop finds the whole query only in items that hold it in order. *)
Lemma scan_sound (item query : string) (i b l : Z) :
  fst (scan item query i b l) = "" -> Subsequence query item.
Proof.
  revert query i b l. induction item as [|c item IH]; intros query i b l.
  - destruct query; cbn; [constructor|discriminate].
  - destruct query as [|q query]; cbn [scan]; [constructor|].
    destruct (Ascii.eqb_spec c q) as [->|Hne]; intros H.
    + constructor. eapply IH. exact H.
    + constructor. eapply IH. exact H.
Qed.

Lemma Subsequence_tail (c : ascii) (q s : string) :
  Subsequence (String c q) s -> Subsequence q s.
Proof.
  intros H. remember (String c q) as cq eqn:E. revert c q E.
  induction H as [s|d q' s H IH|d q' s H IH]; intros c q E.
  - discriminate.
  - inversion E; subst. constructor. exact H.
  - constructor. eapply IH. exact E.
Qed.

(** ... and in all of them. *)
Lemma scan_complete (item query : string) (i b l : Z) :
  Subsequence query item -> fst (scan item query i b l) = "".
Proof.
  revert query i b l. induction item as [|c item IH]; intros query i b l H.
  - inversion H; subst. reflexivity.
  - destruct query as [|q query]; [reflexivity|]. cbn [scan].
    destruct (Ascii.eqb_spec c q) as [->|Hne].
    + apply IH. inversion H; subst; [assumption|].
      eapply Subsequence_tail. eassumption.
    + apply IH. inversion H; subst; [contradiction|assumption].
Qed.

Lemma ltb_0_0 : PrimFloat.ltb 0 0 = false.
Proof. reflexivity. Qed.

Lemma calculateSequentialScore_positive (item query : string) :
  PrimFloat.ltb 0 (calculateSequentialScore item query) = true ->
  Subsequence query item.
Proof.
  unfold calculateSequentialScore.
  destruct (scan item query 0 0 (-2)) as [unmatched bonus] eqn:Hscan.
  destruct unmatched as [|c u].
  - intros _. eapply scan_sound. rewrite Hscan. reflexivity.
  - cbn. discriminate.
Qed.

Context {env : Env}.
Hypothesis basename_is_a_slice :
  forall path, exists pre post, path = (pre ++ basename path ++ post)%string.

Lemma filename_in_item (path : string) :
  exists pre post,
    toLowerCase path = (pre ++ toLowerCase (basename path) ++ post)%string.
Proof.
  destruct (basename_is_a_slice path) as [pre [post H]].
  exists (toLowerCase pre), (toLowerCase post).
  rewrite H at 1. rewrite !toLowerCase_app. reflexivity.
Qed.

Lemma calculateScore_positive (item query : string) :
  PrimFloat.ltb 0 (calculateScore item query) = true ->
  Subsequence query (toLowerCase item).
Proof.
  unfold calculateScore.
  destruct (String.eqb_spec (toLowerCase item) query) as [<-|_];
    [intros _; apply Subsequence_refl|].
  destruct (filename_in_item item) as [pre [post Hitem]].
  destruct (String.eqb_spec (toLowerCase (basename item)) query) as [Hq|_].
  { intros _. rewrite Hitem, Hq. apply Subsequence_inside. }
  destruct (String.prefix query (toLowerCase (basename item))) eqn:Hp.
  { intros _. destruct (prefix_split _ _ Hp) as [r Hr].
    rewrite Hitem, Hr.
    apply Subsequence_app_l, Subsequence_app_r, Subsequence_app_r,
      Subsequence_refl. }
  destruct (includes (toLowerCase (basename item)) query) eqn:Hi.
  { intros _. destruct (includes_split _ _ Hi) as [a [b Hab]].
    rewrite Hitem, Hab.
    apply Subsequence_app_l, Subsequence_app_r, Subsequence_inside. }
  destruct (includes (toLowerCase item) query) eqn:Hi2.
  { intros _. destruct (includes_split _ _ Hi2) as [a [b ->]].
    apply Subsequence_inside. }
  destruct (PrimFloat.ltb 0 (calculateSequentialScore (toLowerCase item) query))
    eqn:Hs.
  - intros _. apply calculateSequentialScore_positive. exact Hs.
  - rewrite ltb_0_0. discriminate.
Qed.

End FuzzyFacts.

Section SortFacts.
Import Fuzzy.

Lemma insert_string_perm (x : string) (l : list string) :
  Permutation (insert_string x l) (x :: l).
Proof.
  induction l as [|y l IH]; cbn [insert_string]; [reflexivity|].
  destruct (String.leb x y); [reflexivity|].
  rewrite IH. apply perm_swap.
Qed.

Lemma sort_strings_perm (l : list string) : Permutation (sort_strings l) l.
Proof.
  induction l as [|x l IH]; [reflexivity|].
  cbn. rewrite insert_string_perm. constructor. exact IH.
Qed.

Lemma insert_string_sorted (x : string) (l : list string) :
  Sorted string_le l -> Sorted string_le (insert_string x l).
Proof.
  induction 1 as [|y l Hl IH Hhd]; cbn [insert_string].
  - repeat constructor.
  - destruct (String.leb x y) eqn:E.
    + constructor; [constructor; assumption|]. constructor. exact E.
    + constructor; [exact IH|].
      assert (Hyx : string_le y x).
      { destruct (String.leb_total x y) as [H|H]; [congruence|exact H]. }
      destruct l as [|z l]; cbn [insert_string].
      * constructor. exact Hyx.
      * destruct (String.leb x z); constructor; [exact Hyx|].
        inversion Hhd; subst. assumption.
Qed.

Lemma sort_strings_sorted (l : list string) : Sorted string_le (sort_strings l).
Proof.
  induction l as [|x l IH]; [constructor|].
  cbn. apply insert_string_sorted. exact IH.
Qed.

Lemma insert_by_perm {A} (cmp : A -> A -> float) (x : A) (l : list A) :
  Permutation (insert_by cmp x l) (x :: l).
Proof.
  induction l as [|y l IH]; cbn [insert_by]; [reflexivity|].
  destruct (PrimFloat.ltb 0 (cmp x y)); [|reflexivity].
  rewrite IH. apply perm_swap.
Qed.

Lemma sort_by_perm {A} (cmp : A -> A -> float) (l : list A) :
  Permutation (sort_by cmp l) l.
Proof.
  induction l as [|x l IH]; [reflexivity|].
  cbn. rewrite insert_by_perm. constructor. exact IH.
Qed.

Lemma slice_length {A} (xs : list A) (e : Z) :
  List.length (Slice.slice xs 0 (Some e))
  = Z.to_nat (Slice.clamp (Z.of_nat (List.length xs)) e).
Proof.
  unfold Slice.slice. 
  assert (H0 : Slice.clamp (Z.of_nat (List.length xs)) 0 = 0%Z).
  { unfold Slice.clamp. change (0 <? 0)%Z with false. cbv iota. lia. }
  rewrite H0. cbn [Z.to_nat skipn]. rewrite length_firstn.
  unfold Slice.clamp. destruct (Z.ltb_spec e 0); lia.
Qed.

Lemma slice_whole {A} (xs : list A) (e : Z) :
  (Z.of_nat (List.length xs) <= e)%Z ->
  Slice.slice xs 0 (Some e) = xs.
Proof.
  intros H. rewrite slice_from_start by lia. apply firstn_all2. lia.
Qed.

End SortFacts.

Section SearchFacts.
Import JS Fuzzy.
Context {env : Env}.

Lemma candidates_items (items : list string) (q : string) :
  map item (candidates items q)
  = filter (fun i => PrimFloat.ltb 0 (calculateScore i q)) items.
Proof.
  induction items as [|i items IH]; [reflexivity|].
  cbn [candidates flat_map filter]. fold (candidates items q).
  rewrite map_app, IH.
  destruct (PrimFloat.ltb 0 (calculateScore i q)); reflexivity.
Qed.

Lemma candidates_In (items : list string) (q : string) (m : FuzzyMatch) :
  In m (candidates items q) ->
  In (item m) items /\
  score m = calculateScore (item m) q /\
  PrimFloat.ltb 0 (score m) = true.
Proof.
  unfold candidates. rewrite in_flat_map. intros [i [Hi Hm]].
  destruct (PrimFloat.ltb 0 (calculateScore i q)) eqn:E; [|contradiction].
  destruct Hm as [<-|[]]. cbn. auto.
Qed.

Lemma blank_query (query : string) :
  trim query = "" ->
  String.eqb query "" || (String.length (trim query) =? 0)%nat = true.
Proof. intros ->. apply orb_true_r. Qed.

Lemma nonblank_query (query : string) :
  trim query <> "" ->
  String.eqb query "" || (String.length (trim query) =? 0)%nat = false.
Proof.
  intros H. apply orb_false_iff. split.
  - destruct (String.eqb_spec query ""); [subst; contradiction H; reflexivity|reflexivity].
  - destruct (trim query); [contradiction|reflexivity].
Qed.

Lemma fuzzySearch_nonblank (items : list string) (query : string) (limit : Z) :
  trim query <> "" ->
  fuzzySearch items query limit
  = Slice.slice (sort_by by_score (candidates items (toLowerCase query)))
                0 (Some limit).
Proof. intros H. unfold fuzzySearch. rewrite (nonblank_query _ H). reflexivity. Qed.

(** X20: for a blank query and a limit of 0 or more [fuzzySearch] gives
    the first [limit] items of the sorted list, each with score 0; the
    sorted list is ordered by code units and is a permutation of the
    items. *)
Theorem fuzzySearch_blank_query (items : list string) (query : string) (limit : Z) :
  trim query = "" ->
  (0 <= limit)%Z ->
  map item (fuzzySearch items query limit)
  = firstn (Z.to_nat limit) (sort_strings items) /\
  Forall (fun m => score m = 0%float) (fuzzySearch items query limit) /\
  Sorted string_le (sort_strings items) /\
  Permutation (sort_strings items) items.
Proof.
  intros Hblank Hlimit. unfold fuzzySearch. rewrite (blank_query _ Hblank).
  rewrite slice_from_start by exact Hlimit.
  split; [rewrite map_map; cbn; apply map_id|].
  split; [apply Forall_forall; intros m Hm; apply in_map_iff in Hm as [i [<- _]];
          reflexivity|].
  split; [apply sort_strings_sorted | apply sort_strings_perm].
Qed.

(** X21: the number of results of [fuzzySearch] is the number of matching
    items (all items for a blank query) cut at the limit: at most [limit]
    for a limit of 0 or more, and all but the last [-limit] for a negative
    limit. *)
Theorem fuzzySearch_count (items : list string) (query : string) (limit : Z) :
  let matching :=
    if String.eqb (trim query) "" then List.length items
    else List.length
           (filter (fun i => PrimFloat.ltb 0 (calculateScore i (toLowerCase query)))
                   items) in
  List.length (fuzzySearch items query limit)
  = Z.to_nat (Slice.clamp (Z.of_nat matching) limit) /\
  ((0 <= limit)%Z ->
   List.length (fuzzySearch items query limit) = Nat.min (Z.to_nat limit) matching) /\
  ((limit < 0)%Z ->
   List.length (fuzzySearch items query limit) = matching - Z.to_nat (- limit)).
Proof.
  cbv zeta.
  assert (Hclamp : forall n : nat,
             ((0 <= limit)%Z ->
              Z.to_nat (Slice.clamp (Z.of_nat n) limit) = Nat.min (Z.to_nat limit) n) /\
             ((limit < 0)%Z ->
              Z.to_nat (Slice.clamp (Z.of_nat n) limit) = n - Z.to_nat (- limit))).
  { intros n. unfold Slice.clamp. destruct (Z.ltb_spec limit 0); split; lia. }
  destruct (String.eqb_spec (trim query) "") as [Hblank|Hnonblank].
  - assert (Hlen : List.length (fuzzySearch items query limit)
                   = Z.to_nat (Slice.clamp (Z.of_nat (List.length items)) limit)).
    { unfold fuzzySearch. rewrite (blank_query _ Hblank).
      rewrite length_map, slice_length.
      rewrite (Permutation_length (sort_strings_perm items)). reflexivity. }
    rewrite Hlen. destruct (Hclamp (List.length items)). auto.
  - assert (Hlen : List.length (fuzzySearch items query limit)
                   = Z.to_nat (Slice.clamp
                        (Z.of_nat (List.length
                           (filter (fun i => PrimFloat.ltb 0
                                      (calculateScore i (toLowerCase query))) items)))
                        limit)).
    { rewrite (fuzzySearch_nonblank _ _ _ Hnonblank), slice_length.
      rewrite (Permutation_length (sort_by_perm _ _)).
      rewrite <- candidates_items, length_map. reflexivity. }
    rewrite Hlen.
    destruct (Hclamp (List.length
                (filter (fun i => PrimFloat.ltb 0
                           (calculateScore i (toLowerCase query))) items))).
    auto.
Qed.

(** X22: [fuzzyFilter] gives the sorted items for a blank query, and
    otherwise exactly the items with a positive score, each as often as it
    occurs, in some order. *)
Theorem fuzzyFilter_keeps_the_matches (items : list string) (query : string) :
  (trim query = "" ->
   fuzzyFilter items query = sort_strings items) /\
  (trim query <> "" ->
   Permutation (fuzzyFilter items query)
               (filter (fun i => PrimFloat.ltb 0 (calculateScore i (toLowerCase query)))
                       items)).
Proof.
  unfold fuzzyFilter. split.
  - intros Hblank. unfold fuzzySearch. rewrite (blank_query _ Hblank).
    rewrite slice_whole
      by (rewrite (Permutation_length (sort_strings_perm items)); lia).
    rewrite map_map. cbn. apply map_id.
  - intros Hnonblank. rewrite (fuzzySearch_nonblank _ _ _ Hnonblank).
    rewrite slice_whole.
    + rewrite <- candidates_items. apply Permutation_map, sort_by_perm.
    + rewrite (Permutation_length (sort_by_perm _ _)).
      rewrite <- (length_map item), candidates_items.
      pose proof (filter_length_le
                    (fun i => PrimFloat.ltb 0 (calculateScore i (toLowerCase query)))
                    items). lia.
Qed.

Hypothesis basename_is_a_slice :
  forall path, exists pre post, path = (pre ++ basename path ++ post)%string.

(** X23: for a query that is not blank, every result of [fuzzySearch] is
    one of the items, carries the score [calculateScore] gives it, which is
    positive, and holds the characters of the lower-cased query in order
    (given that [basename] returns a part of the path). *)
Theorem fuzzySearch_results_hold_the_query
    (items : list string) (query : string) (limit : Z) (m : FuzzyMatch) :
  trim query <> "" ->
  In m (fuzzySearch items query limit) ->
  In (item m) items /\
  score m = calculateScore (item m) (toLowerCase query) /\
  PrimFloat.ltb 0 (score m) = true /\
  Subsequence (toLowerCase query) (toLowerCase (item m)).
Proof.
  intros Hnonblank Hin.
  rewrite (fuzzySearch_nonblank _ _ _ Hnonblank) in Hin.
  apply slice_incl in Hin.
  apply (Permutation_in _ (sort_by_perm _ _)) in Hin.
  apply candidates_In in Hin as [Hitem [Hscore Hpos]].
  split; [exact Hitem|]. split; [exact Hscore|]. split; [exact Hpos|].
  apply (calculateScore_positive basename_is_a_slice).
  rewrite <- Hscore. exact Hpos.
Qed.

End SearchFacts.

Import Samples.

(** *** The parser's invariants on concrete records *)



Example extractErrorMessage_of_nested_object :
  @extractErrorMessage Reference.runtime (VObj [("code", VStr "E1")])
  = Normal (json "{'code':'E1'}").
Proof. vm_compute. reflexivity. Qed.

Example extractErrorMessage_empty_message_wins :
  @extractErrorMessage Reference.runtime
     (VObj [("message", VStr ""); ("error", VStr "ignored")])
  = Normal "".
Proof. vm_compute. reflexivity. Qed.

Lemma tool_result_record_events_witness :
  null_error_line <> "" /\
  @JSON_parse Reference.runtime null_error_line = Normal (VObj null_error_props) /\
  lookup "type" null_error_props = VStr "tool_result" /\
  truthy (lookup "message" null_error_props) = false /\
  truthy (lookup "function_call" null_error_props) = false /\
  @parseCodexJsonLine Reference.runtime null_error_line
  = Normal [error "tool execution failed"; tool_result].
Proof.
  assert (Hne : null_error_line <> "") by (vm_compute; discriminate).
  assert (Hparse : @JSON_parse Reference.runtime null_error_line
                   = Normal (VObj null_error_props)) by (vm_compute; reflexivity).
  split; [exact Hne|]. split; [exact Hparse|].
  split; [reflexivity|]. split; [reflexivity|]. split; [reflexivity|].
  destruct (@tool_result_record_events Reference.runtime null_error_line
              "tool_result" null_error_props Hne Hparse eq_refl
              (or_intror eq_refl) eq_refl eq_refl)
    as [msg [_ [Hfalsy Hrun]]].
  rewrite Hrun, (Hfalsy eq_refl). reflexivity.
Defined.

Lemma null_part_discards_the_record_witness :
  @JSON_parse Reference.runtime null_part_line = Normal (VObj null_part_props) /\
  is_message_record (VObj null_part_props) = true /\
  lookup "content" null_part_props = VArr null_part_parts /\
  In VNull null_part_parts /\
  @parseCodexJsonLine Reference.runtime null_part_line = Normal [].
Proof.
  assert (Hparse : @JSON_parse Reference.runtime null_part_line
                   = Normal (VObj null_part_props)) by (vm_compute; reflexivity).
  assert (Hin : In VNull null_part_parts) by (right; left; reflexivity).
  split; [exact Hparse|]. split; [reflexivity|]. split; [reflexivity|].
  split; [exact Hin|].
  exact (@null_part_discards_the_record Reference.runtime null_part_line
           null_part_props null_part_parts Hparse eq_refl eq_refl Hin).
Defined.

Example parseCodexOutputToEvents_beyond_limit :
  @parseCodexOutputToEvents tight_runtime (hello_chunk ++ nine_parts_chunk)
  = Throw RangeError /\
  @parseCodexOutputToEvents Reference.runtime (hello_chunk ++ nine_parts_chunk)
  = Normal [text (VStr "hello");
            text (VStr "1"); text (VStr "2"); text (VStr "3");
            text (VStr "4"); text (VStr "5"); text (VStr "6");
            text (VStr "7"); text (VStr "8"); text (VStr "9")].
Proof. split; vm_compute; reflexivity. Qed.

Lemma execute_record_beyond_limit_witness :
  supplied (onStdout demo_options) || supplied (onStdoutSegments demo_options)
  || supplied (onJsonlMessage demo_options) = true /\
  display_callbacks_return demo_options /\
  forallb (@within_limit tight_runtime)
          (completed_records (received [hello_chunk])) = true /\
  forallb (@within_limit tight_runtime)
          (completed_records
             (pending_record (received [hello_chunk]) ++ nine_parts_chunk))
  = false /\
  thrown (@execute tight_runtime PlainFormatting.formatting demo_options
            ([hello_chunk] ++ [nine_parts_chunk])) = Some RangeError /\
  filter is_display_call
         (called (@execute tight_runtime PlainFormatting.formatting demo_options
                    ([hello_chunk] ++ [nine_parts_chunk])))
  = [call_onStdoutSegments ["hello"]; call_onStdout "hello"].
Proof.
  assert (Hcb : supplied (onStdout demo_options)
                || supplied (onStdoutSegments demo_options)
                || supplied (onJsonlMessage demo_options) = true) by reflexivity.
  assert (Hlimit : forallb (@within_limit tight_runtime)
                     (completed_records (received [hello_chunk])) = true)
    by (vm_compute; reflexivity).
  assert (Hbeyond : forallb (@within_limit tight_runtime)
                      (completed_records
                         (pending_record (received [hello_chunk])
                          ++ nine_parts_chunk)) = false)
    by (vm_compute; reflexivity).
  split; [exact Hcb|]. split; [exact demo_options_return|].
  split; [exact Hlimit|]. split; [exact Hbeyond|].
  destruct (@execute_record_beyond_limit tight_runtime PlainFormatting.formatting
              demo_options [hello_chunk] nine_parts_chunk
              Hcb demo_options_return Hlimit Hbeyond)
    as [Hthrown [_ [Hviews _]]].
  split; [exact Hthrown|].
  rewrite Hviews. vm_compute. reflexivity.
Defined.

Lemma failing_tracer_return :
  @display_callbacks_return PlainFormatting.formatting failing_tracer.
Proof. split; intros cb H; discriminate H. Qed.

Lemma execute_forwards_completed_records_witness :
  display_callbacks_return failing_tracer /\
  forallb (@within_limit Reference.runtime)
          (completed_records
             (received [hello_chunk; "not a record"; hello_chunk])) = true /\
  thrown (@execute Reference.runtime PlainFormatting.formatting failing_tracer
            [hello_chunk; "not a record"; hello_chunk]) = None /\
  filter is_jsonl_call
         (called (@execute Reference.runtime PlainFormatting.formatting
                    failing_tracer [hello_chunk; "not a record"; hello_chunk]))
  = [call_onJsonlMessage (VObj [("type", VStr "text"); ("text", VStr "hello")])].
Proof.
  assert (Hlimit : forallb (@within_limit Reference.runtime)
                     (completed_records
                        (received [hello_chunk; "not a record"; hello_chunk]))
                   = true) by (vm_compute; reflexivity).
  split; [exact failing_tracer_return|]. split; [exact Hlimit|].
  destruct (@execute_forwards_completed_records Reference.runtime
              PlainFormatting.formatting failing_tracer
              [hello_chunk; "not a record"; hello_chunk]
              failing_tracer_return Hlimit)
    as [Hthrown Hcalls].
  split; [exact Hthrown|].
  rewrite Hcalls. vm_compute. reflexivity.
Defined.

(** *** The runner and the probe on concrete hosts *)

Lemma runProcess_signal_only_after_timeout_witness :
  @Process.runProcess bun_host "bun" ["-e"; sleep_script] (within 100)
  = Process.fulfilled timed_out_sleeper /\
  Process.signal timed_out_sleeper = Some "SIGTERM" /\
  (0 < Process.timeout_of (within 100))%Z.
Proof.
  assert (Hrun : @Process.runProcess bun_host "bun" ["-e"; sleep_script] (within 100)
                 = Process.fulfilled timed_out_sleeper) by reflexivity.
  split; [exact Hrun|]. split; [reflexivity|].
  exact (proj1 (proj1 (proj2
           (@runProcess_signal_only_after_timeout bun_host "bun"
              ["-e"; sleep_script] (within 100) timed_out_sleeper Hrun))
           eq_refl)).
Defined.

(** *** The plugin object on concrete configurations *)

Example initialize_ignores_malformed_settings :
  @CodexPlugin.initialize installed careless_config (CodexPlugin.create fresh_base)
  = Normal (CodexPlugin.create fresh_base).
Proof. vm_compute. reflexivity. Qed.

Lemma buildArgs_after_initialize_witness :
  Codex.for_of (@CodexPlugin.initialize installed) [review_config; careless_config]
               (CodexPlugin.create fresh_base)
  = Normal review_plugin /\
  CodexPlugin.buildArgs review_plugin "do the task"
  = ["exec"; "--json"; "--model"; "gpt-5"; "--sandbox"; "read-only"] /\
  ~ In "" (CodexPlugin.buildArgs review_plugin "do the task").
Proof.
  assert (Hinit : Codex.for_of (@CodexPlugin.initialize installed)
                    [review_config; careless_config]
                    (CodexPlugin.create fresh_base)
                  = Normal review_plugin) by (vm_compute; reflexivity).
  split; [exact Hinit|].
  destruct (@buildArgs_after_initialize installed fresh_base
              [review_config; careless_config] review_plugin "do the task" Hinit)
    as [_ [Hargs [Hnone _]]].
  split; [exact Hargs | exact Hnone].
Defined.

Example runVersion_unparsable_output :
  CodexPlugin.runVersion
    [CodexPlugin.stdout_data "codex (dev build)"; CodexPlugin.close_event (Some 0%Z)]
  = Some {| CodexPlugin.success := false; CodexPlugin.version := None;
            CodexPlugin.error :=
              Some "Unable to parse codex version output: codex (dev build)" |}.
Proof. vm_compute. reflexivity. Qed.

Example runVersion_killed_by_signal :
  CodexPlugin.runVersion [CodexPlugin.close_event None]
  = Some {| CodexPlugin.success := false; CodexPlugin.version := None;
            CodexPlugin.error := Some "Exited with code null" |}.
Proof. vm_compute. reflexivity. Qed.

Example runVersion_close_after_timeout :
  CodexPlugin.runVersion
    [CodexPlugin.stdout_data "1.2.3"; CodexPlugin.timeout_5000;
     CodexPlugin.close_event (Some 0%Z)]
  = Some {| CodexPlugin.success := false; CodexPlugin.version := None;
            CodexPlugin.error := Some "Timeout waiting for --version" |}.
Proof. vm_compute. reflexivity. Qed.

Lemma runVersion_success_has_a_version_witness :
  CodexPlugin.runVersion version_events = Some version_found /\
  CodexPlugin.success version_found = true /\
  exists v,
    CodexPlugin.version version_found = Some v /\ CodexPlugin.version_shaped v.
Proof.
  assert (Hrun : CodexPlugin.runVersion version_events = Some version_found)
    by (vm_compute; reflexivity).
  split; [exact Hrun|]. split; [reflexivity|].
  destruct (proj1 (runVersion_success_has_a_version version_events version_found Hrun)
              eq_refl)
    as [v [Hv [_ [Hshape _]]]].
  exists v. split; [exact Hv | exact Hshape].
Defined.

Lemma detect_available_only_with_a_version_witness :
  @CodexPlugin.detect installed version_events (CodexPlugin.create fresh_base)
  = Normal (Some (codex_detected,
                  {| CodexPlugin.base :=
                       {| CodexPlugin.commandPath := Some "/usr/local/bin/codex";
                          CodexPlugin.defaultTimeout := 0%float |};
                     CodexPlugin.model := None;
                     CodexPlugin.fullAuto := true;
                     CodexPlugin.sandbox := "workspace-write" |})) /\
  CodexPlugin.available codex_detected = true /\
  exists v,
    CodexPlugin.detected_version codex_detected = Some v /\
    CodexPlugin.version_shaped v.
Proof.
  assert (Hrun : @CodexPlugin.detect installed version_events
                   (CodexPlugin.create fresh_base)
                 = Normal (Some (codex_detected,
                     {| CodexPlugin.base :=
                          {| CodexPlugin.commandPath := Some "/usr/local/bin/codex";
                             CodexPlugin.defaultTimeout := 0%float |};
                        CodexPlugin.model := None;
                        CodexPlugin.fullAuto := true;
                        CodexPlugin.sandbox := "workspace-write" |})))
    by (vm_compute; reflexivity).
  split; [exact Hrun|]. split; [reflexivity|].
  destruct (proj1 (@detect_available_only_with_a_version installed version_events
                     _ _ _ Hrun) eq_refl)
    as [path [v [_ [_ [Hv [Hshape _]]]]]].
  exists v. split; [exact Hv | exact Hshape].
Defined.

(** *** The display helpers on the inputs of their tests *)

Example FileBrowser_truncateText_examples :
  FileBrowser.truncateText (FileBrowser.of_string "hello") 5
  = FileBrowser.of_string "hello" /\
  FileBrowser.truncateText (FileBrowser.of_string "hello world") 8
  = FileBrowser.of_string "hello w" ++ [FileBrowser.ellipsis] /\
  FileBrowser.truncateText (FileBrowser.of_string "hello") 1
  = [FileBrowser.ellipsis] /\
  FileBrowser.truncateText (FileBrowser.of_string "") 10 = [].
Proof. repeat split. Qed.

Lemma FileBrowser_truncateText_fits_witness :
  (1 <= 8)%Z /\
  (Z.of_nat (List.length
     (FileBrowser.truncateText (FileBrowser.of_string "hello world") 8)) <= 8)%Z.
Proof.
  assert (Hw : (1 <= 8)%Z) by lia.
  split; [exact Hw|].
  exact (proj1 (FileBrowser_truncateText_fits
                  (FileBrowser.of_string "hello world") 8 Hw)).
Defined.

Lemma FileBrowser_truncateText_no_room_witness :
  (0 <= 0)%Z /\
  FileBrowser.of_string "hello" <> [] /\
  FileBrowser.truncateText (FileBrowser.of_string "hello") 0
  = FileBrowser.of_string "hell" ++ [FileBrowser.ellipsis].
Proof.
  assert (Hw : (0 <= 0)%Z) by lia.
  assert (Hne : FileBrowser.of_string "hello" <> []) by (vm_compute; discriminate).
  split; [exact Hw|]. split; [exact Hne|].
  exact (proj1 (FileBrowser_truncateText_no_room
                  (FileBrowser.of_string "hello") 0 Hw Hne)).
Defined.

Lemma ProgressDashboard_truncateText_fits_witness :
  (0 <= 3)%Z /\
  (Z.of_nat (List.length
     (ProgressDashboard.truncateText (FileBrowser.of_string "hello world") 3))
   <= 3)%Z.
Proof.
  assert (Hw : (0 <= 3)%Z) by lia.
  split; [exact Hw|].
  exact (proj1 (ProgressDashboard_truncateText_fits
                  (FileBrowser.of_string "hello world") 3 Hw)).
Defined.

Example formatPath_examples :
  @FileBrowser.formatPath dev_home "/home/dev" = "~" /\
  @FileBrowser.formatPath dev_home "/home/dev/projects/my-app" = "~/projects/my-app" /\
  @FileBrowser.formatPath dev_home "/tmp/test" = "/tmp/test" /\
  @FileBrowser.formatPath dev_home "/" = "/" /\
  @FileBrowser.formatPath dev_home "/home/developer" = "/home/developer".
Proof. repeat split. Qed.

Example formatCommand_examples :
  AgentOutput.formatCommand "git status" = "$ git status" /\
  AgentOutput.formatCommand "FOO=bar BAZ=1 npm test" = "$ npm test" /\
  AgentOutput.formatCommand "export A=1; cd /tmp ; ls -la " = "$ ls -la" /\
  AgentOutput.formatCommand "A=1 " = "$ A=1".
Proof. vm_compute. repeat split. Qed.

Lemma envVarPattern_strips_every_assignment_witness :
  AgentOutput.envVarPattern "FOO=bar BAZ=1 npm test" = Some "npm test" /\
  AgentOutput.env_assignment "npm test" = None.
Proof.
  assert (Hmatch : AgentOutput.envVarPattern "FOO=bar BAZ=1 npm test"
                   = Some "npm test") by (vm_compute; reflexivity).
  split; [exact Hmatch|].
  exact (proj1 (envVarPattern_strips_every_assignment _ _ Hmatch)).
Defined.

(** *** Fuzzy search on the inputs of its tests *)

Lemma after_last_slash_suffix (s : string) :
  exists pre, s = (pre ++ after_last_slash s)%string.
Proof.
  induction s as [|c s [pre IH]]; [exists ""; reflexivity|].
  cbn [after_last_slash].
  destruct (includes s "/").
  - exists (String c pre). cbn. f_equal. exact IH.
  - destruct (is_slash c).
    + exists (String c ""). reflexivity.
    + exists "". reflexivity.
Qed.

Lemma strip_trailing_slashes_prefix (s : string) :
  exists post, s = (strip_trailing_slashes s ++ post)%string.
Proof.
  induction s as [|c s [post IH]]; [exists ""; reflexivity|].
  cbn [strip_trailing_slashes].
  destruct (strip_trailing_slashes s) as [|d r].
  - destruct (is_slash c).
    + exists (String c s). reflexivity.
    + exists post. cbn. f_equal. exact IH.
  - exists post. cbn. f_equal. exact IH.
Qed.

Lemma posix_basename_is_a_slice (path : string) :
  exists pre post, path = (pre ++ posix_basename path ++ post)%string.
Proof.
  unfold posix_basename.
  destruct (strip_trailing_slashes_prefix path) as [post Hpost].
  destruct (after_last_slash_suffix (strip_trailing_slashes path)) as [pre Hpre].
  exists pre, post. rewrite <- append_assoc, <- Hpre. exact Hpost.
Qed.

Example fuzzySearch_scores :
  map Fuzzy.item
      (@Fuzzy.fuzzySearch posix ["prd.json"; "prd-auth.json"; "my-prd.json"]
         "prd.json" 10)
  = ["prd.json"; "my-prd.json"; "prd-auth.json"] /\
  @Fuzzy.fuzzySearch posix ["PRD.JSON"] "prd.json" 10
  = [{| Fuzzy.item := "PRD.JSON"; Fuzzy.score := 1000 |}] /\
  @Fuzzy.fuzzySearch posix ["./tasks/prd.json"; "./other/prd-auth.json"] "prd.json" 10
  = [{| Fuzzy.item := "./tasks/prd.json"; Fuzzy.score := 800 |};
     {| Fuzzy.item := "./other/prd-auth.json"; Fuzzy.score := 100 |}] /\
  map Fuzzy.item
      (@Fuzzy.fuzzySearch posix
         ["./prd/config.json"; "prd-auth.json"; "./deep/path/prd.json"] "prd" 10)
  = ["./deep/path/prd.json"; "prd-auth.json"; "./prd/config.json"] /\
  map Fuzzy.item
      (@Fuzzy.fuzzySearch posix ["zzz-prd.json"; "aaa-prd.json"; "mmm-prd.json"]
         "prd" 10)
  = ["aaa-prd.json"; "mmm-prd.json"; "zzz-prd.json"] /\
  @Fuzzy.fuzzySearch posix ["aXbXcXdXeXf.txt"; "abcdef.txt"] "abc" 10
  = [{| Fuzzy.item := "abcdef.txt"; Fuzzy.score := 615 |};
     {| Fuzzy.item := "aXbXcXdXeXf.txt"; Fuzzy.score := 60 |}] /\
  @Fuzzy.fuzzySearch posix ["cba.txt"] "abc" 10 = [] /\
  @Fuzzy.fuzzySearch posix ["ab.txt"] "abc" 10 = [] /\
  List.length
    (@Fuzzy.fuzzySearch posix ["a-prd.json"; "b-prd.json"; "c-prd.json"; "d-prd.json"]
       "prd" 2) = 2 /\
  @Fuzzy.fuzzyFilter posix ["apple"; "apricot"; "banana"] "ap" = ["apple"; "apricot"] /\
  @Fuzzy.fuzzyFilter posix ["c"; "a"; "b"] "" = ["a"; "b"; "c"].
Proof. vm_compute. repeat split. Qed.

Lemma fuzzySearch_blank_query_witness :
  trim "   " = "" /\
  (0 <= 10)%Z /\
  map Fuzzy.item (@Fuzzy.fuzzySearch posix ["cherry"; "apple"; "banana"] "   " 10)
  = ["apple"; "banana"; "cherry"].
Proof.
  assert (Hblank : trim "   " = "") by reflexivity.
  assert (Hlimit : (0 <= 10)%Z) by lia.
  split; [exact Hblank|]. split; [exact Hlimit|].
  exact (proj1 (@fuzzySearch_blank_query posix ["cherry"; "apple"; "banana"]
                  "   " 10 Hblank Hlimit)).
Defined.

Lemma fuzzySearch_results_hold_the_query_witness :
  trim "PRD" <> "" /\
  In prd_match (@Fuzzy.fuzzySearch posix ["README.md"; "src/prd.json"] "PRD" 10) /\
  Fuzzy.Subsequence "prd" "src/prd.json".
Proof.
  assert (Hq : trim "PRD" <> "") by (vm_compute; discriminate).
  assert (Hin : In prd_match
                   (@Fuzzy.fuzzySearch posix ["README.md"; "src/prd.json"] "PRD" 10))
    by (vm_compute; left; reflexivity).
  split; [exact Hq|]. split; [exact Hin|].
  exact (proj2 (proj2 (proj2
           (@fuzzySearch_results_hold_the_query posix posix_basename_is_a_slice
              ["README.md"; "src/prd.json"] "PRD" 10 prd_match Hq Hin)))).
Defined.
